(** * nsf2wav: a shallow embedding of the NSF to WAV converter

    The development follows the converter's source unit: the option record
    and its parser, the little-endian packers, the RIFF/WAVE header writer,
    the frame encoder, and [main] with its length resolution, loop detection
    and chunked render loop.  The synthesis engine ([xgm]) is not part of the
    unit; it appears as an interface ([Xgm]) whose operations act on the
    objects the converter shares with it by pointer. *)

From Stdlib Require Import ZArith QArith Qround Qabs Lia Lqa.
From stdpp Require Import gmap strings list.

Local Open Scope Z_scope.

(** ** Machine integers

    Integers are mathematical; every conversion to a fixed-width type is
    written out.  [wrap w] is the conversion to an unsigned [w]-bit type,
    [swrap w] the conversion to a signed one (two's complement). *)

Definition wrap (w z : Z) : Z := z mod 2 ^ w.

Definition swrap (w z : Z) : Z := (z + 2 ^ (w - 1)) mod 2 ^ w - 2 ^ (w - 1).

Definition in_int (w z : Z) : bool := (- 2 ^ (w - 1) <=? z) && (z <? 2 ^ (w - 1)).

(** [1 << n] on [int]: defined for a count in [0, 31]; the count 31 gives
    [INT_MIN]. *)
Definition shl1_int (n : Z) : option Z :=
  if (0 <=? n) && (n <? 32) then Some (swrap 32 (Z.shiftl 1 n)) else None.

(** ** binary64

    A finite [double] is the rational it denotes.  Every operation computes
    the exact result and rounds it to the nearest value with a 53-bit
    significand, ties to even, with the gradual underflow of the format
    (exponent of the last place never below -1074).  Overflow is not
    represented: a result of magnitude 2^1024 or more stays a large rational
    where the machine has an infinity; the conversions to integer types
    reject both alike. *)

Module Double.

(** nearest integer to [a / b] for [b > 0], ties to even *)
Definition rnd_even (a b : Z) : Z :=
  let f := a / b in
  match 2 * (a mod b) ?= b with
  | Lt => f
  | Gt => f + 1
  | Eq => if Z.even f then f else f + 1
  end.

(** [floor (log2 (a / b))] for positive [a] and [b] *)
Definition ilog2 (a b : Z) : Z :=
  let e := Z.log2 a - Z.log2 b in
  if 0 <=? e then (if b * 2 ^ e <=? a then e else e - 1)
  else (if b <=? a * 2 ^ (- e) then e else e - 1).

Definition round (x : Q) : Q :=
  let q := Qred x in
  let a := Z.abs (Qnum q) in
  let b := Zpos (Qden q) in
  if a =? 0 then 0%Q else
  let e := Z.max (ilog2 a b - 52) (-1074) in
  let v := if 0 <=? e then inject_Z (rnd_even a (b * 2 ^ e) * 2 ^ e)
           else Qmake (rnd_even (a * 2 ^ (- e)) b) (Z.to_pos (2 ^ (- e))) in
  Qred (if Qnum q <? 0 then Qopp v else v).

(** integer to double *)
Definition of_Z (z : Z) : Q := round (inject_Z z).

Definition add (x y : Q) : Q := round (x + y).
Definition mul (x y : Q) : Q := round (x * y).

(** division; a zero divisor gives an infinity or a NaN, which the model
    does not represent *)
Definition div (x y : Q) : option Q :=
  if Qeq_bool y 0 then None else Some (round (x / y)).

(** truncation toward zero *)
Definition trunc (x : Q) : Z := Z.quot (Qnum x) (Zpos (Qden x)).

(** double to an unsigned [w]-bit integer: the value is truncated; the
    behaviour is undefined when the truncated value is not representable *)
Definition to_uint (w : Z) (x : Q) : option Z :=
  let t := trunc x in
  if (0 <=? t) && (t <? 2 ^ w) then Some t else None.

(** [std::ceil] *)
Definition ceil (x : Q) : Z := Qceiling x.

End Double.

(** ** Arrays

    A C array is a list; an access outside it is undefined ([None]). *)

Definition load {A} (l : list A) (i : Z) : option A :=
  if 0 <=? i then l !! Z.to_nat i else None.

Definition store {A} (l : list A) (i : Z) (v : A) : option (list A) :=
  if (0 <=? i) && (i <? Z.of_nat (length l))
  then Some (<[Z.to_nat i := v]> l) else None.

(** ** Exit statuses and constants *)

Definition EXIT_SUCCESS : Z := 0.
Definition EXIT_FAILURE : Z := 1.
Definition EX_USAGE : Z := 64.

Definition kFramesToBuffer : Z := 4096.
Definition kMillisPerSecond : Z := 1000.

(** ** Options *)

Record Nsf2WavOptions := {
  length_ms : Z;        (* int32_t *)
  fade_ms : Z;          (* int32_t *)
  channels : Z;         (* int *)
  samplerate : Q;       (* double *)
  track : Z;            (* int *)
  quiet : bool;
  mask : Z;             (* uint64_t *)
  mute : Z;             (* uint64_t *)
  trigger : bool;
  lengthForce : bool
}.

(** ** Little-endian packers

    The destination is a byte array [d] and an offset into it (the pointer
    the source passes).  Bytes are integers in [0, 256). *)

Definition pack_int16le (d : list Z) (off : Z) (n : Z) : option (list Z) :=
  d ← store d (off + 0) (wrap 8 n);
  store d (off + 1) (wrap 8 (Z.shiftr n 8)).

Definition pack_uint16le (d : list Z) (off : Z) (n : Z) : option (list Z) :=
  d ← store d (off + 0) (wrap 8 n);
  store d (off + 1) (wrap 8 (Z.shiftr n 8)).

Definition pack_uint32le (d : list Z) (off : Z) (n : Z) : option (list Z) :=
  d ← store d (off + 0) (wrap 8 n);
  d ← store d (off + 1) (wrap 8 (Z.shiftr n 8));
  d ← store d (off + 2) (wrap 8 (Z.shiftr n 16));
  store d (off + 3) (wrap 8 (Z.shiftr n 24)).

(** ** The output stream

    [fopen] (line 419) gives a fully buffered stream, and [main] never calls
    [setvbuf] or [fflush]: what [fwrite] is handed goes to the stream's
    buffer, and reaches the file when the buffer is transmitted, by the
    [fwrite] whose request no longer fits or by [fclose].  Only a
    transmission can meet a write error (a full disk).

    [out] holds the bytes the stream has taken, in order.  The last [held]
    of them are still in the buffer, which has [cap] bytes; [cap = 0] is an
    unbuffered stream.  [room] is the number of bytes the file can take
    after those of [out]: it is negative while the buffer holds bytes the
    file has no room for, which the next transmission finds out.

    What a failed transmission leaves behind and the count the failing
    [fwrite] returns are the library's choice.  Here the bytes reach the
    file in order as long as it has room, the rest is dropped, the buffer is
    left empty, and the count is that of the complete items of the request
    that reached the file. *)

Record FILE := { out : list Z; room : Z; held : Z; cap : Z }.

(** the stream after it has taken the first [k] bytes of [ptr] without a
    write error: in the buffer if they fit, else transmitted with it *)
Definition written (f : FILE) (ptr : list Z) (k : Z) : FILE :=
  {| out := out f ++ take (Z.to_nat k) ptr;
     room := room f - k;
     held := if held f + k <=? cap f then held f + k else 0;
     cap := cap f |}.

(** the stream after a transmission that met a write error *)
Definition cut (f : FILE) (pending : list Z) : FILE :=
  {| out := take (Z.to_nat (Z.of_nat (length (out f)) + room f)) (out f ++ pending);
     room := 0;
     held := 0;
     cap := cap f |}.

(** [fwrite(ptr, size, n, f)]: the number of items written.  Reading past
    the end of [ptr] is undefined.  The count is [n] unless the request is
    empty or a transmission fails. *)
Definition fwrite (ptr : list Z) (size n : Z) (f : FILE) : option (Z * FILE) :=
  let want := size * n in
  if Z.of_nat (length ptr) <? want then None
  else if want <=? 0 then Some (0, f)
  else if (held f + want <=? cap f) || (want <=? room f) then
    Some (n, written f ptr want)
  else
    Some (Z.max 0 (room f) / size, cut f (take (Z.to_nat want) ptr)).

(** [fclose(f)]: the buffer is transmitted; [main] discards the result *)
Definition fclose (f : FILE) : FILE :=
  if 0 <=? room f
  then {| out := out f; room := room f; held := 0; cap := cap f |}
  else cut f [].

(** the bytes of a 4-character tag *)
Definition tag_RIFF : list Z := [82; 73; 70; 70].
Definition tag_WAVE : list Z := [87; 65; 86; 69].
Definition tag_fmt : list Z := [102; 109; 116; 32].
Definition tag_data : list Z := [100; 97; 116; 97].

(** One step of [write_wav_header]: write [n] bytes, and leave with 0 when
    fewer were written. *)
Definition put (bytes : list Z) (n : Z) (f : FILE)
    (k : FILE -> option (Z * FILE)) : option (Z * FILE) :=
  '(r, f) ← fwrite bytes 1 n f;
  if r =? n then k f else Some (0, f).

(** [pack_uintNle(tmp, v)] followed by a write of [n] bytes of [tmp] *)
Definition put_packed (pack : list Z -> Z -> Z -> option (list Z))
    (v : Z) (n : Z) (st : list Z * FILE)
    (k : list Z * FILE -> option (Z * FILE)) : option (Z * FILE) :=
  tmp ← pack (fst st) 0 v;
  put tmp n (snd st) (fun f => k (tmp, f)).

Definition write_wav_header (f : FILE) (totalFrames : Z) (options : Nsf2WavOptions)
    : option (Z * FILE) :=
  let dataSize := wrap 32 (wrap 64 (wrap 64 (totalFrames * 2) * wrap 64 (channels options))) in
  let tmp := [0; 0; 0; 0] in
  put tag_RIFF 4 f (fun f =>
  put_packed pack_uint32le (wrap 32 (wrap 32 (dataSize + 44) - 8)) 4 (tmp, f) (fun '(tmp, f) =>
  put tag_WAVE 4 f (fun f =>
  put tag_fmt 4 f (fun f =>
  put_packed pack_uint32le 16 4 (tmp, f) (fun '(tmp, f) =>
  put_packed pack_uint16le 1 2 (tmp, f) (fun '(tmp, f) =>
  put_packed pack_uint16le (wrap 16 (channels options)) 2 (tmp, f) (fun '(tmp, f) =>
  rate ← Double.to_uint 32 (samplerate options);
  put_packed pack_uint32le rate 4 (tmp, f) (fun '(tmp, f) =>
  byterate ← Double.to_uint 32
    (Double.mul (Double.mul (samplerate options) (Double.of_Z (channels options)))
                (Double.of_Z 2));
  put_packed pack_uint32le byterate 4 (tmp, f) (fun '(tmp, f) =>
  put_packed pack_uint16le (wrap 16 (wrap 64 (wrap 64 (channels options) * 2))) 2 (tmp, f) (fun '(tmp, f) =>
  put_packed pack_uint16le (wrap 16 (2 * 8)) 2 (tmp, f) (fun '(tmp, f) =>
  put tag_data 4 f (fun f =>
  put_packed pack_uint32le dataSize 4 (tmp, f) (fun '(tmp, f) =>
  Some (1, f)))))))))))))).

(** ** The frame encoder

    [s] is the sample array ([int16_t]), [d] the byte array with the moving
    destination offset.  The index [i * channels] is computed in
    [unsigned int], the pointer step in [size_t]. *)

Fixpoint pack_frames_loop (n : nat) (d : list Z) (off : Z) (s : list Z)
    (i : Z) (channels : Z) : option (list Z) :=
  match n with
  | O => Some d
  | S n =>
      x ← load s (wrap 32 (wrap 32 (i * wrap 32 channels) + 0));
      d ← pack_int16le d off x;
      d ← (if channels =? 2 then
             y ← load s (wrap 32 (wrap 32 (i * wrap 32 channels) + 1));
             pack_int16le d (off + 2) y
           else Some d);
      pack_frames_loop n d (off + wrap 64 (2 * wrap 64 channels)) s (wrap 32 (i + 1)) channels
  end.

Definition pack_frames (d : list Z) (s : list Z) (frameCount : Z) (channels : Z)
    : option (list Z) :=
  pack_frames_loop (Z.to_nat frameCount) d 0 s 0 channels.

Definition write_frames (f : FILE) (d : list Z) (frameCount : Z) (channels : Z)
    : option (Z * FILE) :=
  '(r, f) ← fwrite d (wrap 64 (2 * wrap 64 channels)) frameCount f;
  Some (if r =? frameCount then 1 else 0, f).

(** ** The objects shared with the engine

    [main] owns an [xgm::NSF], an [xgm::NSFPlayerConfig] and an
    [xgm::NSFPlayer] and hands the player pointers to the other two.  The data
    members [main] reads and writes are record fields; whatever else the
    engine keeps is [priv]. *)

Record NsfeEntry := {
  tlbl : string;
  time : Z;             (* int32_t, negative when absent *)
  fade : Z              (* int32_t, negative when absent *)
}.

Record NSF := {
  title : string;
  artist : string;
  copyright : string;
  ripper : string;
  default_playtime : Z;
  default_fadetime : Z;
  default_loopnum : Z;
  playlist_mode : bool;
  song : Z;
  total_songs : Z;
  time_in_ms : Z;
  fade_in_ms : Z;
  loop_num : Z;
  nsfe_plst : option (list Z);      (* a null pointer is [None] *)
  nsfe_plst_size : Z;
  nsfe_entry : Z -> NsfeEntry       (* indexed by a [uint8_t] *)
}.

(** The configuration is a bag of named numbers, with one more bag per
    channel ([GetChannelConfig]). *)
Record Config := {
  global : gmap string Z;
  channel : gmap (Z * string) Z
}.

Definition set_global (k : string) (v : Z) (c : Config) : Config :=
  {| global := <[k := v]> (global c); channel := channel c |}.

Definition set_channel (i : Z) (k : string) (v : Z) (c : Config) : Config :=
  {| global := global c; channel := <[(i, k) := v]> (channel c) |}.

Record World (E : Type) := {
  nsf : NSF;
  config : Config;
  priv : E
}.
Arguments nsf {E}.
Arguments config {E}.
Arguments priv {E}.

Definition with_nsf {E} (f : NSF -> NSF) (w : World E) : World E :=
  {| nsf := f (nsf w); config := config w; priv := priv w |}.

Definition with_config {E} (f : Config -> Config) (w : World E) : World E :=
  {| nsf := nsf w; config := f (config w); priv := priv w |}.

(** The engine.  Every operation may read and change all three objects,
    since the player holds pointers to the configuration and to the NSF. *)
Class Xgm := {
  Priv : Type;
  DEFAULT_RATE : Q;
  boot : World Priv;
  SetDefaults : Z -> Z -> Z -> World Priv -> World Priv;
  LoadFile : string -> World Priv -> bool * World Priv;
  LoadError : World Priv -> string;
  GetTitleString : World Priv -> option Z -> string;
  GetFadeTime : World Priv -> Z;
  SetConfig : World Priv -> World Priv;
  Load : World Priv -> bool * World Priv;
  SetPlayFreq : Q -> World Priv -> World Priv;
  SetChannels : Z -> World Priv -> World Priv;
  SetSong : Z -> World Priv -> World Priv;
  Reset : World Priv -> World Priv;
  Skip : Z -> World Priv -> World Priv;
  Render : list Z -> Z -> World Priv -> list Z * World Priv;
  IsFading : World Priv -> bool;
  playtime_detected : World Priv -> bool;
  total_render : World Priv -> Z;
  Notify : Z -> World Priv -> World Priv
}.

(** ** What a run does *)

Inductive stream := stdout | stderr.

Inductive message :=
| MsgUsage
| MsgLoadError (e : string)
| MsgTitle (s : string)
| MsgArtist (s : string)
| MsgCopyright (s : string)
| MsgRipper (s : string)
| MsgTrack (number : Z) (label : string)
| MsgTrackNumber                    (* error: use 1-based track number *)
| MsgNoLength (default : Z)         (* Warning: Could not detect track length *)
| MsgNoFade (default : Z)           (* Warning: Could not detect fade time *)
| MsgLength (ms : Z)
| MsgFade (ms : Z)
| MsgPlayerLoad                     (* Error with player load *)
| MsgDetected (frames : Z)
| MsgProgress (total remaining : Z)
| MsgOpenError (path : string).

Inductive call :=
| CSetDefaults (playtime fadetime loopnum : Z)
| CLoadFile (path : string)
| CSetConfig
| CLoad
| CSetPlayFreq (rate : Q)
| CSetChannels (n : Z)
| CSetSong (i : Z)
| CReset
| CSkip (n : Z)
| CRender (n : Z)
| CNotify (id : Z).

Inductive event :=
| Print (s : stream) (m : message)
| Nsf (c : call)                    (* a call on the NSF object *)
| Player (c : call)                 (* a call on the player or its configuration *)
| Open (path : string) (ok : bool)
| Close (f : FILE)                  (* the stream as [fclose] leaves it *).

(** The command line as [getopt_long] hands it out: the options in order.
    An option that takes a number carries the number its argument denotes,
    an integer for the arguments read by [std::stoi], a rational for the one
    read by [std::stod]; [opt_bad] is such an option with an argument that
    denotes no number.  [opt_unknown] is what [getopt_long] reports as [?]. *)
Inductive directive :=
| opt_q
| opt_l (n : Z)
| opt_t (n : Z)
| opt_y
| opt_f (n : Z)
| opt_s (r : Q)
| opt_c (n : Z)
| opt_m (n : Z)
| opt_r
| opt_w
| opt_u
| opt_h
| opt_unknown
| opt_bad.

(** The conversions of lines 115 to 133.  [std::stoi] throws
    [std::invalid_argument] on a text that does not start with a number and
    [std::out_of_range] on a number outside [int]; [std::stod] throws the
    same way, and is out of range where the nearest [double] would be an
    infinity (at 2^1024 - 2^970 in magnitude and above).  [ParseOptions]
    catches neither. *)
Definition converts (d : directive) : bool :=
  match d with
  | opt_l n | opt_t n | opt_f n | opt_c n | opt_m n => in_int 32 n
  | opt_s r => negb (Qle_bool (inject_Z (2 ^ 1024 - 2 ^ 970)) (Qabs r))
  | opt_bad => false
  | _ => true
  end.

Definition set_length_ms (v : Z) (o : Nsf2WavOptions) : Nsf2WavOptions :=
  {| length_ms := v; fade_ms := fade_ms o; channels := channels o;
     samplerate := samplerate o; track := track o; quiet := quiet o;
     mask := mask o; mute := mute o; trigger := trigger o;
     lengthForce := lengthForce o |}.

Definition set_fade_ms (v : Z) (o : Nsf2WavOptions) : Nsf2WavOptions :=
  {| length_ms := length_ms o; fade_ms := v; channels := channels o;
     samplerate := samplerate o; track := track o; quiet := quiet o;
     mask := mask o; mute := mute o; trigger := trigger o;
     lengthForce := lengthForce o |}.

Definition set_channels (v : Z) (o : Nsf2WavOptions) : Nsf2WavOptions :=
  {| length_ms := length_ms o; fade_ms := fade_ms o; channels := v;
     samplerate := samplerate o; track := track o; quiet := quiet o;
     mask := mask o; mute := mute o; trigger := trigger o;
     lengthForce := lengthForce o |}.

Definition set_samplerate (v : Q) (o : Nsf2WavOptions) : Nsf2WavOptions :=
  {| length_ms := length_ms o; fade_ms := fade_ms o; channels := channels o;
     samplerate := v; track := track o; quiet := quiet o;
     mask := mask o; mute := mute o; trigger := trigger o;
     lengthForce := lengthForce o |}.

Definition set_track (v : Z) (o : Nsf2WavOptions) : Nsf2WavOptions :=
  {| length_ms := length_ms o; fade_ms := fade_ms o; channels := channels o;
     samplerate := samplerate o; track := v; quiet := quiet o;
     mask := mask o; mute := mute o; trigger := trigger o;
     lengthForce := lengthForce o |}.

Definition set_quiet (v : bool) (o : Nsf2WavOptions) : Nsf2WavOptions :=
  {| length_ms := length_ms o; fade_ms := fade_ms o; channels := channels o;
     samplerate := samplerate o; track := track o; quiet := v;
     mask := mask o; mute := mute o; trigger := trigger o;
     lengthForce := lengthForce o |}.

Definition set_mask (v : Z) (o : Nsf2WavOptions) : Nsf2WavOptions :=
  {| length_ms := length_ms o; fade_ms := fade_ms o; channels := channels o;
     samplerate := samplerate o; track := track o; quiet := quiet o;
     mask := v; mute := mute o; trigger := trigger o;
     lengthForce := lengthForce o |}.

Definition set_mute (v : Z) (o : Nsf2WavOptions) : Nsf2WavOptions :=
  {| length_ms := length_ms o; fade_ms := fade_ms o; channels := channels o;
     samplerate := samplerate o; track := track o; quiet := quiet o;
     mask := mask o; mute := v; trigger := trigger o;
     lengthForce := lengthForce o |}.

Definition set_trigger (v : bool) (o : Nsf2WavOptions) : Nsf2WavOptions :=
  {| length_ms := length_ms o; fade_ms := fade_ms o; channels := channels o;
     samplerate := samplerate o; track := track o; quiet := quiet o;
     mask := mask o; mute := mute o; trigger := v;
     lengthForce := lengthForce o |}.

Definition set_lengthForce (v : bool) (o : Nsf2WavOptions) : Nsf2WavOptions :=
  {| length_ms := length_ms o; fade_ms := fade_ms o; channels := channels o;
     samplerate := samplerate o; track := track o; quiet := quiet o;
     mask := mask o; mute := mute o; trigger := trigger o;
     lengthForce := v |}.

(** The effect of one option on the record, once its argument is
    converted; [-h] and unknown options leave through [Usage]. *)
Definition apply_option (d : directive) (options : Nsf2WavOptions)
    : option Nsf2WavOptions :=
  match d with
  | opt_q => Some (set_quiet true options)
  | opt_l n => Some (set_length_ms n options)
  | opt_t n => Some (set_track n options)
  | opt_y => Some (set_lengthForce true options)
  | opt_f n => Some (set_fade_ms n options)
  | opt_s r => Some (set_samplerate (Double.round r) options)
  | opt_c n => Some (set_channels n options)
  | opt_m n =>
      b ← shl1_int n;
      Some (set_mask (Z.lor (mask options) (wrap 64 b)) options)
  | opt_r => Some (set_mask (Z.lxor (mask options) 4294967295) options)
  | opt_w => Some (set_trigger true options)
  | opt_u => Some (set_mask 0 (set_mute (mask options) options))
  | opt_h | opt_unknown | opt_bad => Some options
  end.

(** [int] addition; signed overflow is undefined *)
Definition iadd (a b : Z) : option Z :=
  if in_int 32 (a + b) then Some (a + b) else None.

(** The volume table: lines [for (int i = 0; i < 32; i++)] of [main]. *)
Fixpoint set_volumes (n : nat) (i : Z) (mute : Z) (c : Config) : option Config :=
  match n with
  | O => Some c
  | S n =>
      b ← shl1_int i;
      let mask := wrap 64 b in
      set_volumes n (i + 1) mute
        (set_channel i "VOL" (if Z.land mute mask =? 0 then 128 else 0) c)
  end.

(** The naive frame count: [frames = (uint64_t)length_ms * samplerate;
    frames += (uint64_t)fade_ms * samplerate; frames /= 1000]. *)
Definition naive_frames (options : Nsf2WavOptions) : option Z :=
  frames ← Double.to_uint 64
    (Double.mul (Double.of_Z (wrap 64 (length_ms options))) (samplerate options));
  frames ← Double.to_uint 64
    (Double.add (Double.of_Z frames)
       (Double.mul (Double.of_Z (wrap 64 (fade_ms options))) (samplerate options)));
  Some (frames / kMillisPerSecond).

(** [total_render + (uint64_t)GetFadeTime() * samplerate / 1000], stored in
    a [uint64_t] *)
Definition detected_frames (rendered fadetime : Z) (rate : Q) : option Z :=
  q ← Double.div (Double.mul (Double.of_Z (wrap 64 fadetime)) rate)
                 (Double.of_Z kMillisPerSecond);
  Double.to_uint 64 (Double.add (Double.of_Z rendered) q).

(** [std::ceil((total_render + (uint64_t)GetFadeTime() / 1000) / samplerate)] *)
Definition stop_sec (rendered fadetime : Z) (rate : Q) : option Z :=
  q ← Double.div
        (Double.of_Z (wrap 64 (rendered + wrap 64 fadetime / kMillisPerSecond))) rate;
  Some (Double.ceil q).

(** the number of frames of the next chunk: [std::min(frames, kFramesToBuffer)] *)
Definition chunk (frames : Z) : Z := Z.min frames kFramesToBuffer.

(** enough iterations for a loop that consumes [chunk frames] per turn *)
Definition turns (frames : Z) : nat := S (S (Z.to_nat (frames / kFramesToBuffer))).

(** [new T[n]] of elements of [size] bytes: an array of [n] elements, or
    [None] for a request the implementation refuses
    ([std::bad_array_new_length]).  Exhausted memory is not modelled. *)
Definition new_array (n size : Z) : option (list Z) :=
  if n * size <? 2 ^ 63 then Some (replicate (Z.to_nat n) 0) else None.

(** ** The process

    A computation runs on the shared objects and the trace of what happened
    so far.  It continues with a value, or the process ends: with an exit
    status ([exit], or [return] from [main]), by an uncaught exception, or in
    undefined behaviour. *)

Section Converter.

Context {X : Xgm}.

(** opening [path] for writing: the number of bytes the file can take and
    the size of the buffer the library gives the stream, or [None] when the
    file cannot be opened *)
Variable disk : string -> option (Z * Z).

Record Machine := {
  world : World Priv;
  trace : list event
}.

Inductive result (A : Type) : Type :=
| Next (a : A) (m : Machine)
| Halt (code : Z) (t : list event)
| Abort (t : list event)
| Undefined.
Arguments Next {A}.
Arguments Halt {A}.
Arguments Abort {A}.
Arguments Undefined {A}.

Definition M (A : Type) : Type := Machine -> result A.

Definition ret {A} (a : A) : M A := fun m => Next a m.

Definition bind {A B} (c : M A) (k : A -> M B) : M B :=
  fun m =>
    match c m with
    | Next a m => k a m
    | Halt code t => Halt code t
    | Abort t => Abort t
    | Undefined => Undefined
    end.

Notation "x <- c ;; k" := (bind c (fun x => k))
  (at level 100, c at next level, right associativity).
Notation "c ;; k" := (bind c (fun _ => k))
  (at level 100, right associativity).

Definition emit (e : event) : M unit :=
  fun m => Next tt {| world := world m; trace := trace m ++ [e] |}.

Definition exit {A} (code : Z) : M A := fun m => Halt code (trace m).

Definition throw {A} : M A := fun m => Abort (trace m).

Definition undefined {A} : M A := fun _ => Undefined.

Definition defined {A} (o : option A) : M A :=
  match o with Some a => ret a | None => undefined end.

Definition get : M (World Priv) := fun m => Next (world m) m.

Definition update (f : World Priv -> World Priv) : M unit :=
  fun m => Next tt {| world := f (world m); trace := trace m |}.

(** a call on the NSF object, on the player *)
Definition on_nsf (c : call) (f : World Priv -> World Priv) : M unit :=
  emit (Nsf c) ;; update f.

Definition on_player (c : call) (f : World Priv -> World Priv) : M unit :=
  emit (Player c) ;; update f.

Definition print (s : stream) (msg : message) : M unit := emit (Print s msg).

(** [config["key"] = v] *)
Definition configure (k : string) (v : Z) : M unit :=
  update (with_config (set_global k v)).

Definition Usage {A} (output : stream) (exit_code : Z) : M A :=
  print output MsgUsage ;; exit exit_code.

Fixpoint parse_loop (ds : list directive) (options : Nsf2WavOptions)
    : M Nsf2WavOptions :=
  match ds with
  | [] => ret options
  | opt_h :: _ => Usage stdout EXIT_SUCCESS
  | opt_unknown :: _ => Usage stderr EX_USAGE
  | d :: ds =>
      if converts d then
        options <- defined (apply_option d options) ;;
        parse_loop ds options
      else throw
  end.

Definition ParseOptions (ds : list directive) : M Nsf2WavOptions :=
  w <- get ;;
  parse_loop ds
    {| length_ms := default_playtime (nsf w);
       fade_ms := default_fadetime (nsf w);
       channels := 1;
       samplerate := DEFAULT_RATE;
       track := 1;
       quiet := false;
       mask := 0;
       mute := 0;
       trigger := false;
       lengthForce := false |}.

(** the track list of the information mode *)
Fixpoint list_tracks (n : nat) (i : Z) : M unit :=
  match n with
  | O => ret tt
  | S n =>
      w <- get ;;
      nsfe_i <- match nsfe_plst (nsf w) with
                | Some plst => defined (load plst i)
                | None => ret (wrap 8 i)
                end ;;
      print stdout (MsgTrack (i + 1) (tlbl (nsfe_entry (nsf w) nsfe_i))) ;;
      list_tracks n (i + 1)
  end.

(** lines 310-320: the length of the track *)
Definition resolve_length (nsfe_i : Z) (options : Nsf2WavOptions)
    : M Nsf2WavOptions :=
  w <- get ;;
  if negb (playlist_mode (nsf w)) && (0 <=? time (nsfe_entry (nsf w) nsfe_i)) then
    ret (set_length_ms (time (nsfe_entry (nsf w) nsfe_i)) options)
  else if 0 <=? time_in_ms (nsf w) then
    ret (set_length_ms (time_in_ms (nsf w)) options)
  else if negb (lengthForce options) then
    print stderr (MsgNoLength (length_ms options)) ;; ret options
  else ret options.

(** lines 322-332: the fade of the track *)
Definition resolve_fade (nsfe_i : Z) (options : Nsf2WavOptions)
    : M Nsf2WavOptions :=
  w <- get ;;
  if negb (playlist_mode (nsf w)) && (0 <=? fade (nsfe_entry (nsf w) nsfe_i)) then
    ret (set_fade_ms (fade (nsfe_entry (nsf w) nsfe_i)) options)
  else if 0 <=? fade_in_ms (nsf w) then
    ret (set_fade_ms (fade_in_ms (nsf w)) options)
  else
    print stderr (MsgNoFade (fade_ms options)) ;; ret options.

(** the skip phase: [while (frames && !player.fader.IsFading())] *)
Fixpoint skip_loop (fuel : nat) (frames : Z) : M Z :=
  match fuel with
  | O => ret frames
  | S fuel =>
      w <- get ;;
      if (frames =? 0) || IsFading w then ret frames
      else
        let fc := chunk frames in
        on_player (CSkip fc) (Skip fc) ;;
        skip_loop fuel (frames - fc)
  end.

(** lines 374-396: loop detection.  The result is the final frame count. *)
Definition detect (options : Nsf2WavOptions) (frames : Z) : M Z :=
  if negb (lengthForce options) then
    let framesbackup := frames in
    skip_loop (turns frames) frames ;;
    w <- get ;;
    frames <- (if playtime_detected w then
                 configure "AUTO_DETECT" 0 ;;
                 configure "LOOP_NUM" 0 ;;
                 w <- get ;;
                 frames <- defined (detected_frames (total_render w) (GetFadeTime w)
                                      (samplerate options)) ;;
                 print stdout (MsgDetected frames) ;;
                 (if trigger options then
                    w <- get ;;
                    t <- defined (iadd (time_in_ms (nsf w)) (GetFadeTime w)) ;;
                    update (with_nsf (fun n =>
                      {| title := title n; artist := artist n;
                         copyright := copyright n; ripper := ripper n;
                         default_playtime := default_playtime n;
                         default_fadetime := default_fadetime n;
                         default_loopnum := default_loopnum n;
                         playlist_mode := playlist_mode n; song := song n;
                         total_songs := total_songs n;
                         time_in_ms := t; fade_in_ms := 0;
                         loop_num := loop_num n; nsfe_plst := nsfe_plst n;
                         nsfe_plst_size := nsfe_plst_size n;
                         nsfe_entry := nsfe_entry n |}))
                  else ret tt) ;;
                 ret frames
               else ret framesbackup) ;;
    w <- get ;;
    s <- defined (stop_sec (total_render w) (GetFadeTime w) (samplerate options)) ;;
    configure "STOP_SEC" s ;;
    ret frames
  else ret frames.

(** lines 369-396: the total number of frames to render *)
Definition resolve_frames (options : Nsf2WavOptions) : M Z :=
  frames <- defined (naive_frames options) ;;
  detect options frames.

(** lines 427-434: render, encode, write, until no frame remains *)
Fixpoint render_loop (fuel : nat) (f : FILE) (buf pac : list Z) (frames : Z)
    (options : Nsf2WavOptions) : M FILE :=
  match fuel with
  | O => ret f
  | S fuel =>
      if frames =? 0 then ret f
      else
        let fc := chunk frames in
        w <- get ;;
        print stdout (MsgProgress (wrap 64 (frames + total_render w)) frames) ;;
        emit (Player (CRender fc)) ;;
        w <- get ;;
        let '(buf, w) := Render buf fc w in
        update (fun _ => w) ;;
        pac <- defined (pack_frames pac buf fc (channels options)) ;;
        r <- defined (write_frames f pac fc (channels options)) ;;
        render_loop fuel (snd r) buf pac (frames - fc) options
  end.

Definition main_body (ds : list directive) (argv : list string) : M unit :=
  options <- ParseOptions ds ;;
  w <- get ;;
  on_nsf (CSetDefaults (length_ms options) (fade_ms options) (default_loopnum (nsf w)))
    (SetDefaults (length_ms options) (fade_ms options) (default_loopnum (nsf w))) ;;
  match argv with
  | [] | _ :: _ :: _ :: _ => Usage stderr EX_USAGE
  | path :: rest =>
      buf <- match new_array (wrap 64 (kFramesToBuffer * wrap 64 (channels options))) 2 with
             | Some a => ret a | None => throw end ;;
      pac <- match new_array (wrap 64 (wrap 64 (kFramesToBuffer * wrap 64 (channels options)) * 2)) 1 with
             | Some a => ret a | None => throw end ;;
      emit (Nsf (CLoadFile path)) ;;
      w <- get ;;
      let '(ok, w) := LoadFile path w in
      update (fun _ => w) ;;
      if negb ok then
        print stderr (MsgLoadError (LoadError w)) ;; exit 1
      else
      match rest with
      | [] =>
          (* dump info *)
          if quiet options then exit EXIT_SUCCESS else
          print stdout (MsgTitle (title (nsf w))) ;;
          print stdout (MsgArtist (artist (nsf w))) ;;
          print stdout (MsgCopyright (copyright (nsf w))) ;;
          print stdout (MsgRipper (ripper (nsf w))) ;;
          if playlist_mode (nsf w) then
            n <- defined (iadd (song (nsf w)) 1) ;;
            print stdout (MsgTrack n (GetTitleString w None)) ;;
            exit EXIT_SUCCESS
          else
            let m := if 0 <? nsfe_plst_size (nsf w)
                     then nsfe_plst_size (nsf w) else total_songs (nsf w) in
            list_tracks (Z.to_nat m) 0 ;;
            exit EXIT_SUCCESS
      | outpath :: _ =>
          i <- (if playlist_mode (nsf w) then ret (song (nsf w))
                else if track options <=? 0 then
                  print stderr MsgTrackNumber ;; exit EXIT_FAILURE
                else ret (track options - 1)) ;;
          (* dump info for single track *)
          nsfe_i <- (match nsfe_plst (nsf w) with
                     | Some plst =>
                         if negb (playlist_mode (nsf w)) then defined (load plst i)
                         else ret (wrap 8 i)
                     | None => ret (wrap 8 i)
                     end) ;;
          options <- resolve_length nsfe_i options ;;
          options <- resolve_fade nsfe_i options ;;
          (if negb (quiet options) then
             n <- defined (iadd i 1) ;;
             print stdout
               (MsgTrack n
                  (if negb (playlist_mode (nsf w))
                      && negb (String.eqb (tlbl (nsfe_entry (nsf w) nsfe_i)) "")
                   then tlbl (nsfe_entry (nsf w) nsfe_i)
                   else GetTitleString w (Some i))) ;;
             print stdout (MsgLength (length_ms options)) ;;
             print stdout (MsgFade (fade_ms options))
           else ret tt) ;;
          configure "MASTER_VOLUME" 256 ;;
          configure "APU2_OPTION5" 0 ;;
          configure "APU2_OPTION7" 0 ;;
          (if negb (lengthForce options) then
             configure "AUTO_DETECT" 1 ;;
             configure "LOOP_NUM" 2 ;;
             update (with_nsf (fun n =>
               {| title := title n; artist := artist n;
                  copyright := copyright n; ripper := ripper n;
                  default_playtime := default_playtime n;
                  default_fadetime := default_fadetime n;
                  default_loopnum := default_loopnum n;
                  playlist_mode := playlist_mode n; song := song n;
                  total_songs := total_songs n;
                  time_in_ms := time_in_ms n; fade_in_ms := fade_in_ms n;
                  loop_num := 2; nsfe_plst := nsfe_plst n;
                  nsfe_plst_size := nsfe_plst_size n;
                  nsfe_entry := nsfe_entry n |})) ;;
             configure "DETECT_INT" 1000
           else ret tt) ;;
          on_player CSetConfig SetConfig ;;
          emit (Player CLoad) ;;
          w <- get ;;
          let '(ok, w) := Load w in
          update (fun _ => w) ;;
          if negb ok then
            print stderr MsgPlayerLoad ;; exit EXIT_FAILURE
          else
          on_player (CSetPlayFreq (samplerate options)) (SetPlayFreq (samplerate options)) ;;
          on_player (CSetChannels (channels options)) (SetChannels (channels options)) ;;
          on_player (CSetSong i) (SetSong i) ;;
          on_player CReset Reset ;;
          frames <- resolve_frames options ;;
          configure "MASK" (mask options) ;;
          configure "TRIGGER" (if trigger options then 1 else 0) ;;
          (if trigger options then
             configure "APU1_OPTION2" 0 ;;
             configure "APU2_OPTION4" 0 ;;
             configure "MMC5_OPTION0" 0 ;;
             configure "N163_OPTION0" 0 ;;
             configure "FDS_OPTION0" 96000
           else ret tt) ;;
          w <- get ;;
          c <- defined (set_volumes 32 0 (mute options) (config w)) ;;
          update (with_config (fun _ => c)) ;;
          on_player (CNotify (-1)) (Notify (-1)) ;;
          on_player CSetConfig SetConfig ;;
          on_player CReset Reset ;;
          match disk outpath with
          | None =>
              emit (Open outpath false) ;;
              print stderr (MsgOpenError outpath) ;; exit 1
          | Some (r, c) =>
              emit (Open outpath true) ;;
              f <- defined (fmap snd (write_wav_header
                                        {| out := []; room := r; held := 0; cap := c |}
                                        frames options)) ;;
              f <- render_loop (turns frames) f buf pac frames options ;;
              emit (Close (fclose f)) ;;
              exit EXIT_SUCCESS
          end
      end
  end.

(** the process, started on the freshly constructed objects *)
Definition main (ds : list directive) (argv : list string) : result unit :=
  main_body ds argv {| world := boot; trace := [] |}.

End Converter.

Arguments Next {X A}.
Arguments Halt {X A}.
Arguments Abort {X A}.
Arguments Undefined {X A}.

(** ** A simulated engine

    The engine of the loop-detection scenario.  It counts the frames it is
    asked to skip and to render, and [total_render] is their sum.  It is
    fading once [K] frames were skipped; from then on it reports the loop as
    detected, if [detected] says that this source has one.  The fade time is
    [T] ms.  [file] is what loading the source yields.  Rendering produces a
    ramp. *)

Record SimPlayer := {
  skipped : Z;
  nch : Z;
  rendered : Z
}.

Definition blank_entry : NsfeEntry := {| tlbl := ""; time := -1; fade := -1 |}.

Definition blank_nsf : NSF :=
  {| title := ""; artist := ""; copyright := ""; ripper := "";
     default_playtime := 300000; default_fadetime := 5000; default_loopnum := 2;
     playlist_mode := false; song := 0; total_songs := 1;
     time_in_ms := -1; fade_in_ms := -1; loop_num := 0;
     nsfe_plst := None; nsfe_plst_size := 0;
     nsfe_entry := fun _ => blank_entry |}.

Definition sim_priv (f : SimPlayer -> SimPlayer) (w : World SimPlayer) : World SimPlayer :=
  {| nsf := nsf w; config := config w; priv := f (priv w) |}.

Definition sim_xgm (file : option NSF) (detected : bool) (K T : Z) : Xgm :=
  {| Priv := SimPlayer;
     DEFAULT_RATE := 48000;
     boot := {| nsf := blank_nsf;
                config := {| global := ∅; channel := ∅ |};
                priv := {| skipped := 0; nch := 1; rendered := 0 |} |};
     SetDefaults := fun p f l => with_nsf (fun n =>
       {| title := title n; artist := artist n;
          copyright := copyright n; ripper := ripper n;
          default_playtime := p; default_fadetime := f; default_loopnum := l;
          playlist_mode := playlist_mode n; song := song n;
          total_songs := total_songs n;
          time_in_ms := time_in_ms n; fade_in_ms := fade_in_ms n;
          loop_num := loop_num n; nsfe_plst := nsfe_plst n;
          nsfe_plst_size := nsfe_plst_size n;
          nsfe_entry := nsfe_entry n |});
     LoadFile := fun _ w =>
       match file with
       | Some n => (true, with_nsf (fun _ => n) w)
       | None => (false, w)
       end;
     LoadError := fun _ => "no such file";
     GetTitleString := fun w _ => title (nsf w);
     GetFadeTime := fun _ => T;
     SetConfig := fun w => w;
     Load := fun w => (true, w);
     SetPlayFreq := fun _ w => w;
     SetChannels := fun n => sim_priv (fun p =>
       {| skipped := skipped p; nch := n; rendered := rendered p |});
     SetSong := fun _ w => w;
     Reset := fun w => w;
     Skip := fun n => sim_priv (fun p =>
       {| skipped := skipped p + n; nch := nch p; rendered := rendered p |});
     Render := fun buf n w =>
       (imap (fun j x => if Z.of_nat j <? n * nch (priv w)
                         then swrap 16 (rendered (priv w) * nch (priv w) + Z.of_nat j)
                         else x) buf,
        sim_priv (fun p =>
          {| skipped := skipped p; nch := nch p; rendered := rendered p + n |}) w);
     IsFading := fun w => K <=? skipped (priv w);
     playtime_detected := fun w => detected && (K <=? skipped (priv w));
     total_render := fun w => skipped (priv w) + rendered (priv w);
     Notify := fun _ w => w |}.

(** ** What a run leaves behind

    The exit status and trace of a process that ended, the value of a
    computation that continues. *)

Definition outcome {X : Xgm} {A} (r : result A) : option (Z * list event) :=
  match r with
  | Halt code t => Some (code, t)
  | _ => None
  end.

Definition value {X : Xgm} {A} (r : result A) : option A :=
  match r with
  | Next a _ => Some a
  | _ => None
  end.

(** the machine [main] starts on *)
Definition start {X : Xgm} : Machine := {| world := boot; trace := [] |}.

(** ** The byte layout of the container, read back

    Section 6 of the specification: payload samples are little-endian signed
    16-bit values, the header fields little-endian unsigned ones.  These are
    the readers a consumer of the file applies; the converter has none. *)

Definition le16 (x : Z) : list Z := [wrap 8 x; wrap 8 (Z.shiftr x 8)].

Definition encode_samples (l : list Z) : list Z := l ≫= le16.

Definition unpack_int16le (b0 b1 : Z) : Z := swrap 16 (b0 + 256 * b1).

Fixpoint decode_samples (bytes : list Z) : list Z :=
  match bytes with
  | b0 :: b1 :: rest => unpack_int16le b0 b1 :: decode_samples rest
  | _ => []
  end.

Definition is_int16 (x : Z) : Prop := - 2 ^ 15 <= x < 2 ^ 15.

(** stereo samples, frame by frame *)
Definition interleave (frames : list (Z * Z)) : list Z :=
  frames ≫= (fun p => [fst p; snd p]).

Definition bytes2 (v : Z) : list Z := [wrap 8 v; wrap 8 (Z.shiftr v 8)].

Definition bytes4 (v : Z) : list Z :=
  [wrap 8 v; wrap 8 (Z.shiftr v 8); wrap 8 (Z.shiftr v 16); wrap 8 (Z.shiftr v 24)].

Definition unpack_uint32le (b : list Z) : option Z :=
  match b with
  | [b0; b1; b2; b3] => Some (b0 + 256 * b1 + 65536 * b2 + 16777216 * b3)
  | _ => None
  end.

(** the payload-length field of a header: its bytes 40 to 43 *)
Definition data_size_field (hdr : list Z) : option Z :=
  unpack_uint32le (take 4 (drop 40 hdr)).

(** the volume the table of [main] gives channel [j] *)
Definition volume_of (mute j : Z) : option Z :=
  b ← shl1_int j;
  Some (if Z.land mute (wrap 64 b) =? 0 then 128 else 0).

(** the number of turns a loop over [frames] frames takes, plus the turn
    that finds none left *)
Definition need (frames : Z) : nat := S (Z.to_nat ((frames + 4095) / 4096)).

(** ** Sample inputs *)

Definition demo_nsf : NSF :=
  {| title := "demo"; artist := ""; copyright := ""; ripper := "";
     default_playtime := 300000; default_fadetime := 5000; default_loopnum := 2;
     playlist_mode := false; song := 0; total_songs := 1;
     time_in_ms := 100; fade_in_ms := 0; loop_num := 0;
     nsfe_plst := None; nsfe_plst_size := 0;
     nsfe_entry := fun _ => blank_entry |}.

Definition playlist_nsf : NSF :=
  {| title := "demo"; artist := ""; copyright := ""; ripper := "";
     default_playtime := 300000; default_fadetime := 5000; default_loopnum := 2;
     playlist_mode := true; song := 0; total_songs := 1;
     time_in_ms := 7000; fade_in_ms := -1; loop_num := 0;
     nsfe_plst := None; nsfe_plst_size := 0;
     nsfe_entry := fun _ => {| tlbl := "intro"; time := 5000; fade := 1000 |} |}.

Definition demo_xgm : Xgm := sim_xgm (Some demo_nsf) true 10000 2000.

Definition playlist_xgm : Xgm := sim_xgm (Some playlist_nsf) true 10000 2000.

Definition demo_options : Nsf2WavOptions :=
  {| length_ms := 1; fade_ms := 399; channels := 1; samplerate := 5 # 2;
     track := 1; quiet := false; mask := 0; mute := 0; trigger := false;
     lengthForce := true |}.

Definition cd_options : Nsf2WavOptions :=
  {| length_ms := 1000; fade_ms := 500; channels := 2; samplerate := 44100;
     track := 1; quiet := false; mask := 0; mute := 0; trigger := false;
     lengthForce := true |}.

(** what a file with room for 50 bytes holds after a run that wrote 4844
    through a buffer of 4096 *)
Definition short_file : FILE :=
  {| out := [82; 73; 70; 70; 228; 18; 0; 0; 87; 65; 86; 69; 102; 109; 116;
             32; 16; 0; 0; 0; 1; 0; 1; 0; 192; 93; 0; 0; 128; 187; 0; 0; 2;
             0; 16; 0; 100; 97; 116; 97; 192; 18; 0; 0; 0; 0; 1; 0; 2; 0];
     room := 0; held := 0; cap := 4096 |}.

(** the options of that run: [--length_force -s 24000] on the demo track *)
Definition short_options : Nsf2WavOptions :=
  {| length_ms := 100; fade_ms := 0; channels := 1; samplerate := 24000;
     track := 1; quiet := false; mask := 0; mute := 0; trigger := false;
     lengthForce := true |}.

(** ** Events of interest

    Predicates on events and on exit statuses, and what it means for a
    computation to add only events of one kind to the trace. *)

(** what the information mode may do: calls on the NSF object and prints *)
Definition is_info_event (e : event) : bool :=
  match e with
  | Print _ _ | Nsf _ => true
  | _ => false
  end.

(** what a run does before it has an open file: everything but rendering,
    opening with success, and closing *)
Definition is_setup_event (e : event) : bool :=
  match e with
  | Player (CRender _) | Open _ true | Close _ => false
  | _ => true
  end.

(** what a run does up to the player's [Load] *)
Definition is_load_event (e : event) : bool :=
  match e with
  | Print _ _ | Nsf _ | Player CSetConfig | Player CLoad => true
  | _ => false
  end.

(** what the render loop adds to a trace: progress lines and render calls *)
Definition is_render_event (e : event) : bool :=
  match e with
  | Print stdout (MsgProgress _ _) | Player (CRender _) => true
  | _ => false
  end.

(** any status *)
Definition any_status (code : Z) : bool := true.

(** a status that reports a failure *)
Definition is_failure (code : Z) : bool := negb (code =? 0).

(** the result [r] of a computation started on [m] has added only events
    that satisfy [P] and, if the process ended with a status, the status
    satisfies [Q] *)
Definition extends {X : Xgm} {A} (P : event -> bool) (Q : Z -> bool)
    (m : Machine) (r : result A) : Prop :=
  match r with
  | Next _ m' => exists t, trace m' = trace m ++ t /\ forallb P t = true
  | Halt code t' => Q code = true /\ exists t, t' = trace m ++ t /\ forallb P t = true
  | Abort t' => exists t, t' = trace m ++ t /\ forallb P t = true
  | Undefined => True
  end.

Definition only {X : Xgm} {A} (P : event -> bool) (Q : Z -> bool) (c : M A) : Prop :=
  forall m, extends P Q m (c m).

(** the line of the track list for track [i] (counted from 0), stored as
    entry [nsfe_i] *)
Definition track_line (n : NSF) (i nsfe_i : Z) : event :=
  Print stdout (MsgTrack (i + 1) (tlbl (nsfe_entry n nsfe_i))).

(** the sizes of the chunks a trace asked the player to skip, to render *)
Definition skip_requests (t : list event) : list Z :=
  t ≫= fun e => match e with Player (CSkip n) => [n] | _ => [] end.

Definition render_requests (t : list event) : list Z :=
  t ≫= fun e => match e with Player (CRender n) => [n] | _ => [] end.

Definition total (ns : list Z) : Z := foldr Z.add 0 ns.

(** the samples the engine delivers for [frames] frames, chunk by chunk:
    of each chunk, the first [fc * channels] elements of the buffer *)
Fixpoint rendered_samples {X : Xgm} (fuel : nat) (buf : list Z) (frames channels : Z)
    (w : World Priv) : list Z :=
  match fuel with
  | O => []
  | S fuel =>
      if frames =? 0 then []
      else
        let fc := chunk frames in
        take (Z.to_nat (fc * channels)) (fst (Render buf fc w))
        ++ rendered_samples fuel (fst (Render buf fc w)) (frames - fc) channels
             (snd (Render buf fc w))
  end.

(** ** The header, field by field

    The 44 bytes in the order lines 176-207 write them, for the values the
    two rate fields convert to. *)
Definition wav_header (totalFrames : Z) (options : Nsf2WavOptions)
    (rate byterate : Z) : list Z :=
  let dataSize := wrap 32 (wrap 64 (wrap 64 (totalFrames * 2) * wrap 64 (channels options))) in
  tag_RIFF ++ bytes4 (wrap 32 (wrap 32 (dataSize + 44) - 8))
  ++ tag_WAVE ++ tag_fmt ++ bytes4 16 ++ bytes2 1
  ++ bytes2 (wrap 16 (channels options))
  ++ bytes4 rate ++ bytes4 byterate
  ++ bytes2 (wrap 16 (wrap 64 (wrap 64 (channels options) * 2)))
  ++ bytes2 (wrap 16 (2 * 8)) ++ tag_data ++ bytes4 dataSize.

(** ** More sample inputs *)

(** the options of a command line without options *)
Definition default_options : Nsf2WavOptions :=
  {| length_ms := 300000; fade_ms := 5000; channels := 1; samplerate := 48000;
     track := 1; quiet := false; mask := 0; mute := 0; trigger := false;
     lengthForce := false |}.

(** loop detection with trigger output, at 48 kHz *)
Definition detect_options : Nsf2WavOptions :=
  {| length_ms := 300000; fade_ms := 5000; channels := 1; samplerate := 48000;
     track := 1; quiet := false; mask := 0; mute := 0; trigger := true;
     lengthForce := false |}.


(** a fresh stream without buffer on a file with room for [r] bytes *)
Definition plain (r : Z) : FILE := {| out := []; room := r; held := 0; cap := 0 |}.

(** a fresh stream with a buffer of [c] bytes *)
Definition fresh (r c : Z) : FILE := {| out := []; room := r; held := 0; cap := c |}.

(** the header of 66150 stereo frames at 44.1 kHz, in a file with room for
    44 bytes *)
Definition cd_header : FILE :=
  {| out := [82; 73; 70; 70; 188; 9; 4; 0; 87; 65; 86; 69; 102; 109; 116;
             32; 16; 0; 0; 0; 1; 0; 2; 0; 68; 172; 0; 0; 16; 177; 2; 0; 4;
             0; 16; 0; 100; 97; 116; 97; 152; 9; 4; 0];
     room := 0; held := 0; cap := 0 |}.

Definition playlist_start : @Machine playlist_xgm :=
  {| world := with_nsf (fun _ => playlist_nsf) boot; trace := [] |}.

(** an NSFe with three tracks and a playlist that reorders them *)
Definition plst_nsf : NSF :=
  {| title := "demo"; artist := ""; copyright := ""; ripper := "";
     default_playtime := 300000; default_fadetime := 5000; default_loopnum := 2;
     playlist_mode := false; song := 0; total_songs := 3;
     time_in_ms := -1; fade_in_ms := -1; loop_num := 0;
     nsfe_plst := Some [2; 0; 1]; nsfe_plst_size := 3;
     nsfe_entry := fun i =>
       {| tlbl := if i =? 0 then "intro" else if i =? 1 then "stage" else "boss";
          time := -1; fade := -1 |} |}.

Definition plst_start : @Machine demo_xgm :=
  {| world := with_nsf (fun _ => plst_nsf) boot; trace := [] |}.

Definition empty_config : Config := {| global := ∅; channel := ∅ |}.

(** the engine [base] with a player that refuses every source *)
Definition deaf_xgm (base : Xgm) : Xgm :=
  {| Priv := @Priv base;
     DEFAULT_RATE := @DEFAULT_RATE base;
     boot := @boot base;
     SetDefaults := @SetDefaults base;
     LoadFile := @LoadFile base;
     LoadError := @LoadError base;
     GetTitleString := @GetTitleString base;
     GetFadeTime := @GetFadeTime base;
     SetConfig := @SetConfig base;
     Load := fun w => (false, w);
     SetPlayFreq := @SetPlayFreq base;
     SetChannels := @SetChannels base;
     SetSong := @SetSong base;
     Reset := @Reset base;
     Skip := @Skip base;
     Render := @Render base;
     IsFading := @IsFading base;
     playtime_detected := @playtime_detected base;
     total_render := @total_render base;
     Notify := @Notify base |}.


(** * Properties *)

(** ** Rounding *)

Lemma rnd_even_bounds a b :
  0 < b -> a / b <= Double.rnd_even a b /\ 2 * b * Double.rnd_even a b <= 2 * a + b.
Proof.
  intros Hb. unfold Double.rnd_even.
  pose proof (Z.div_mod a b ltac:(lia)) as Hdm.
  pose proof (Z.mod_pos_bound a b Hb) as Hm.
  destruct (Z.compare_spec (2 * (a mod b)) b) as [He|Hl|Hg].
  - destruct (Z.even (a / b)); split; nia.
  - split; nia.
  - split; nia.
Qed.

Lemma rnd_even_exact a b : 0 < b -> Double.rnd_even (a * b) b = a.
Proof.
  intros Hb. unfold Double.rnd_even.
  rewrite Z.mod_mul, Z.div_mul by lia.
  destruct (Z.compare_spec (2 * 0) b); lia.
Qed.

Lemma rnd_even_1 a : Double.rnd_even a 1 = a.
Proof.
  pose proof (rnd_even_exact a 1 ltac:(lia)) as H. now rewrite Z.mul_1_r in H.
Qed.

Lemma ilog2_lower a b :
  0 < a -> 0 < b ->
  (0 <= Double.ilog2 a b -> b * 2 ^ Double.ilog2 a b <= a) /\
  (Double.ilog2 a b < 0 -> b <= a * 2 ^ (- Double.ilog2 a b)).
Proof.
  intros Ha Hb. unfold Double.ilog2.
  destruct (Z.log2_spec a Ha) as [Ha1 Ha2].
  destruct (Z.log2_spec b Hb) as [Hb1 Hb2].
  pose proof (Z.log2_nonneg a) as Hla. pose proof (Z.log2_nonneg b) as Hlb.
  set (la := Z.log2 a) in *. set (lb := Z.log2 b) in *.
  destruct (Z.leb_spec 0 (la - lb)) as [He|He].
  - destruct (Z.leb_spec (b * 2 ^ (la - lb)) a) as [Ht|Ht].
    + split; [auto | lia].
    + split; intros Hs.
      * assert (2 ^ la = 2 ^ (lb + 1) * 2 ^ (la - lb - 1)) as E
          by (rewrite <- Z.pow_add_r by lia; f_equal; lia).
        assert (0 < 2 ^ (la - lb - 1)) by (apply Z.pow_pos_nonneg; lia).
        replace (Z.succ lb) with (lb + 1) in Hb2 by lia.
        nia.
      * assert (la - lb = 0) as E0 by lia.
        replace (- (la - lb - 1)) with 1 by lia.
        replace la with lb in * by lia.
        change (2 ^ 1) with 2. replace (Z.succ lb) with (lb + 1) in Hb2 by lia.
        rewrite Z.pow_add_r in Hb2 by lia. lia.
  - destruct (Z.leb_spec b (a * 2 ^ (- (la - lb)))) as [Ht|Ht].
    + split; [lia | auto].
    + split; [lia | intros _].
      assert (2 ^ (lb + 1) = 2 ^ la * 2 ^ (- (la - lb - 1))) as E
        by (rewrite <- Z.pow_add_r by lia; f_equal; lia).
      assert (0 < 2 ^ (- (la - lb - 1))) by (apply Z.pow_pos_nonneg; lia).
      replace (Z.succ lb) with (lb + 1) in Hb2 by lia.
      nia.
Qed.

Lemma Qred_inject z : Qred (inject_Z z) = inject_Z z.
Proof.
  unfold Qred, inject_Z.
  pose proof (Z.ggcd_gcd z 1) as Hg.
  pose proof (Z.ggcd_correct_divisors z 1) as Hd.
  destruct (Z.ggcd z 1) as [g [aa bb]]. cbn [fst snd] in *.
  rewrite Z.gcd_1_r in Hg. subst g. destruct Hd as [Ha Hb].
  replace aa with z by lia. replace bb with 1 by lia. reflexivity.
Qed.

Lemma round_comp x y : (x == y)%Q -> Double.round x = Double.round y.
Proof.
  intros H. unfold Double.round. rewrite (Qred_complete x y H). reflexivity.
Qed.

Lemma round_Z z : 0 <= z < 2 ^ 53 -> Double.round (inject_Z z) = inject_Z z.
Proof.
  intros [Hz0 Hz]. unfold Double.round. rewrite Qred_inject.
  cbn [Qnum Qden inject_Z].
  rewrite Z.abs_eq by lia.
  destruct (Z.eqb_spec z 0) as [->|Hnz]; [reflexivity|].
  assert (0 < z) as Hpos by lia.
  pose proof (ilog2_lower z 1 Hpos ltac:(lia)) as [Hl1 Hl2].
  assert (Double.ilog2 z 1 <= 52) as Hle.
  { destruct (Z_lt_le_dec (Double.ilog2 z 1) 53) as [?|Hge]; [lia|].
    specialize (Hl1 ltac:(lia)).
    assert (2 ^ 53 <= 2 ^ Double.ilog2 z 1) by (apply Z.pow_le_mono_r; lia). lia. }
  assert (- 52 <= Double.ilog2 z 1 - 52) as Hge.
  { enough (0 <= Double.ilog2 z 1) by lia.
    unfold Double.ilog2. change (Z.log2 1) with 0. rewrite Z.sub_0_r.
    pose proof (Z.log2_nonneg z). destruct (Z.log2_spec z Hpos) as [? _].
    destruct (Z.leb_spec 0 (Z.log2 z)); [|lia].
    destruct (Z.leb_spec (1 * 2 ^ Z.log2 z) z); lia. }
  rewrite Z.max_l by lia.
  set (e := Double.ilog2 z 1 - 52) in *.
  replace (z <? 0) with false by (symmetry; apply Z.ltb_ge; lia).
  destruct (Z.leb_spec 0 e) as [He|He].
  - assert (e = 0) as -> by lia.
    change (1 * 2 ^ 0) with 1. change (2 ^ 0) with 1.
    rewrite rnd_even_1, Z.mul_1_r. apply Qred_inject.
  - assert (0 < 2 ^ (- e)) as Hp by (apply Z.pow_pos_nonneg; lia).
    rewrite rnd_even_1.
    transitivity (Qred (inject_Z z)); [|apply Qred_inject]. apply Qred_complete.
    unfold Qeq. cbn [Qnum Qden inject_Z]. rewrite Z2Pos.id by lia. lia.
Qed.

Lemma round_bounds x k :
  0 <= k -> (inject_Z k <= x)%Q -> (x < inject_Z (2 ^ 42))%Q ->
  (inject_Z k <= Double.round x)%Q /\ (Double.round x <= x + (1 # 4096))%Q.
Proof.
  intros Hk Hlo Hhi.
  pose proof (Qred_correct x) as Hq.
  unfold Double.round. set (q := Qred x) in *.
  rewrite <- Hq in Hlo, Hhi. rewrite <- Hq.
  clearbody q. clear Hq x. destruct q as [a b].
  unfold Qle, Qlt in Hlo, Hhi. cbn [Qnum Qden inject_Z] in *.
  rewrite Z.mul_1_r in Hlo, Hhi.
  assert (0 <= a) as Ha by nia.
  rewrite Z.abs_eq by lia.
  destruct (Z.eqb_spec a 0) as [->|Hnz].
  - assert (k = 0) as -> by nia.
    split; unfold Qle; cbn; lia.
  - assert (0 < a) as Hpos by lia.
    pose proof (ilog2_lower a (Zpos b) Hpos ltac:(lia)) as [Hl1 _].
    assert (Double.ilog2 a (Zpos b) <= 41) as Hle.
    { destruct (Z_lt_le_dec (Double.ilog2 a (Zpos b)) 42) as [?|Hge]; [lia|].
      specialize (Hl1 ltac:(lia)).
      assert (2 ^ 42 <= 2 ^ Double.ilog2 a (Zpos b)) by (apply Z.pow_le_mono_r; lia).
      nia. }
    set (e := Z.max (Double.ilog2 a (Zpos b) - 52) (-1074)).
    assert (-1074 <= e <= -11) as He by lia.
    replace (0 <=? e) with false by (symmetry; apply Z.leb_gt; lia).
    replace (a <? 0) with false by (symmetry; apply Z.ltb_ge; lia).
    assert (2 ^ 11 <= 2 ^ (- e)) as Hp by (apply Z.pow_le_mono_r; lia).
    change (2 ^ 11) with 2048 in Hp.
    set (p := 2 ^ (- e)) in *.
    destruct (rnd_even_bounds (a * p) (Zpos b) ltac:(lia)) as [Hm1 Hm2].
    set (m := Double.rnd_even (a * p) (Zpos b)) in *.
    assert (k * p <= m) as Hkm.
    { etransitivity; [|exact Hm1]. apply Z.div_le_lower_bound; [lia|nia]. }
    rewrite (Qred_correct (m # Z.to_pos p)).
    unfold Qle, Qplus. cbn [Qnum Qden inject_Z].
    rewrite Z2Pos.id by lia. rewrite Pos2Z.inj_mul.
    split; [lia|]. nia.
Qed.

(** ** Frame counts *)

Lemma trunc_between x n :
  0 <= n -> (inject_Z n <= x)%Q -> (x < inject_Z (n + 1))%Q -> Double.trunc x = n.
Proof.
  intros Hn Hlo Hhi. unfold Double.trunc. destruct x as [a b].
  unfold Qle, Qlt in *. cbn [Qnum Qden inject_Z] in *.
  rewrite Z.mul_1_r in *.
  rewrite Z.quot_div_nonneg by nia.
  symmetry. apply Z.div_unique with (r := a - n * Zpos b); lia.
Qed.

Lemma to_uint_between w x n :
  0 <= n < 2 ^ w -> (inject_Z n <= x)%Q -> (x < inject_Z (n + 1))%Q ->
  Double.to_uint w x = Some n.
Proof.
  intros Hn Hlo Hhi. unfold Double.to_uint.
  rewrite (trunc_between x n) by (lia || assumption).
  destruct (Z.leb_spec 0 n); [|lia]. destruct (Z.ltb_spec n (2 ^ w)); [|lia].
  reflexivity.
Qed.

Lemma to_uint_Z w n : 0 <= n < 2 ^ w -> Double.to_uint w (inject_Z n) = Some n.
Proof.
  intros Hn. apply to_uint_between; [assumption| |].
  - apply Qle_refl.
  - rewrite <- Zlt_Qlt. lia.
Qed.

Lemma of_Z_exact z : 0 <= z < 2 ^ 53 -> Double.of_Z z = inject_Z z.
Proof. apply round_Z. Qed.

Lemma mul_Z a b :
  0 <= a * b < 2 ^ 53 -> Double.mul (inject_Z a) (inject_Z b) = inject_Z (a * b).
Proof.
  intros H. unfold Double.mul.
  rewrite <- inject_Z_mult.
  now apply round_Z.
Qed.

Lemma add_Z a b :
  0 <= a + b < 2 ^ 53 -> Double.add (inject_Z a) (inject_Z b) = inject_Z (a + b).
Proof.
  intros H. unfold Double.add.
  rewrite <- inject_Z_plus.
  now apply round_Z.
Qed.

Lemma wrap_small w z : 0 <= z < 2 ^ w -> wrap w z = z.
Proof. intros H. unfold wrap. now apply Z.mod_small. Qed.

Lemma in_int_32 z : - 2 ^ 31 <= z < 2 ^ 31 -> in_int 32 z = true.
Proof.
  intros H. unfold in_int. change (2 ^ (32 - 1)) with (2 ^ 31).
  apply andb_true_iff. split; [apply Z.leb_le|apply Z.ltb_lt]; lia.
Qed.

Lemma naive_frames_whole_rate (o : Nsf2WavOptions) (n : Z) :
  0 <= length_ms o < 2 ^ 31 -> 0 <= fade_ms o < 2 ^ 31 -> 0 <= n ->
  (length_ms o + fade_ms o) * n < 2 ^ 53 ->
  samplerate o = inject_Z n ->
  naive_frames o = Some ((length_ms o + fade_ms o) * n / 1000).
Proof.
  intros HL HF Hn Hb Hs. unfold naive_frames. rewrite Hs.
  assert (2 ^ 31 < 2 ^ 53) by reflexivity.
  assert (2 ^ 53 < 2 ^ 64) by reflexivity.
  assert (2 ^ 31 < 2 ^ 64) by reflexivity.
  rewrite !wrap_small by lia.
  assert (0 <= length_ms o * n < 2 ^ 53) by nia.
  assert (0 <= fade_ms o * n < 2 ^ 53) by nia.
  rewrite !of_Z_exact by lia.
  rewrite !mul_Z by lia.
  rewrite to_uint_Z by lia. cbn [mbind option_bind].
  rewrite of_Z_exact by lia. rewrite add_Z by nia.
  rewrite to_uint_Z by nia. cbn [mbind option_bind].
  unfold kMillisPerSecond. do 2 f_equal. lia.
Qed.

Lemma div_1000_bounds N :
  0 <= N ->
  (inject_Z (N / 1000) <= inject_Z N / inject_Z 1000)%Q /\
  (inject_Z N / inject_Z 1000 <= inject_Z (N / 1000) + (999 # 1000))%Q.
Proof.
  intros HN. pose proof (Z.div_mod N 1000 ltac:(lia)) as Hdm.
  pose proof (Z.mod_pos_bound N 1000 ltac:(lia)) as Hm.
  unfold Qdiv, Qle, Qmult, Qplus, Qinv. cbn [Qnum Qden inject_Z].
  split; lia.
Qed.

Lemma detected_frames_whole_rate K T n :
  0 <= K -> 0 <= T -> 1 <= n -> T * n < 2 ^ 53 -> K + T * n / 1000 + 1 < 2 ^ 42 ->
  detected_frames K T (inject_Z n) = Some (K + T * n / 1000).
Proof.
  intros HK HT Hn Hb Hr. unfold detected_frames, kMillisPerSecond.
  assert (2 ^ 42 < 2 ^ 53) by reflexivity.
  assert (2 ^ 53 < 2 ^ 64) by reflexivity.
  assert (0 <= T * n / 1000) by (apply Z.div_pos; nia).
  assert (T < 2 ^ 53) by nia.
  rewrite wrap_small by lia.
  rewrite !of_Z_exact by lia. rewrite mul_Z by nia.
  unfold Double.div. change (Qeq_bool (inject_Z 1000) 0) with false.
  cbn [mbind option_bind].
  set (N := T * n) in *.
  destruct (div_1000_bounds N ltac:(nia)) as [Hd1 Hd2].
  set (x := (inject_Z N / inject_Z 1000)%Q) in *.
  assert (x < inject_Z (2 ^ 42))%Q as Hx.
  { eapply Qle_lt_trans; [exact Hd2|].
    assert (inject_Z (N / 1000 + 1) <= inject_Z (2 ^ 42))%Q as Hi
      by (rewrite <- Zle_Qle; lia).
    rewrite inject_Z_plus in Hi. change (inject_Z 1) with 1%Q in Hi. lra. }
  destruct (round_bounds x (N / 1000) ltac:(lia) Hd1 Hx) as [Hy1 Hy2].
  set (y := Double.round x) in *.
  assert (inject_Z (K + N / 1000 + 2) <= inject_Z (2 ^ 42))%Q as Hi
    by (rewrite <- Zle_Qle; lia).
  rewrite !inject_Z_plus in Hi. change (inject_Z 2) with 2%Q in Hi.
  assert (inject_Z (K + N / 1000) <= inject_Z K + y)%Q as Hs1
    by (rewrite inject_Z_plus; lra).
  assert (inject_Z K + y < inject_Z (2 ^ 42))%Q as Hs2 by lra.
  destruct (round_bounds (inject_Z K + y) (K + N / 1000) ltac:(lia) Hs1 Hs2) as [Hz1 Hz2].
  unfold Double.add. apply to_uint_between; [lia|exact Hz1|].
  rewrite !inject_Z_plus. change (inject_Z 1) with 1%Q. lra.
Qed.

(** ** The frame encoder *)

Lemma load_app {A} (pre post : list A) (x : A) i :
  i = Z.of_nat (length pre) -> load (pre ++ x :: post) i = Some x.
Proof.
  intros ->. unfold load. destruct (Z.leb_spec 0 (Z.of_nat (length pre))); [|lia].
  rewrite Nat2Z.id. apply list_lookup_middle. reflexivity.
Qed.

Lemma store_app {A} (pre post : list A) (x v : A) i :
  i = Z.of_nat (length pre) -> store (pre ++ x :: post) i v = Some (pre ++ v :: post).
Proof.
  intros ->. unfold store. rewrite length_app. cbn [length].
  destruct (Z.leb_spec 0 (Z.of_nat (length pre))); [|lia].
  destruct (Z.ltb_spec (Z.of_nat (length pre)) (Z.of_nat (length pre + S (length post)))); [|lia].
  cbn [andb]. rewrite Nat2Z.id. f_equal.
  rewrite insert_app_r_alt by lia. rewrite Nat.sub_diag. reflexivity.
Qed.

Lemma pack_int16le_app (pre post : list Z) (a b x : Z) off :
  off = Z.of_nat (length pre) ->
  pack_int16le (pre ++ a :: b :: post) off x = Some (pre ++ le16 x ++ post).
Proof.
  intros ->. unfold pack_int16le.
  rewrite (store_app pre (b :: post)) by lia. cbn [mbind option_bind].
  replace (pre ++ wrap 8 x :: b :: post) with ((pre ++ [wrap 8 x]) ++ b :: post)
    by (rewrite <- app_assoc; reflexivity).
  rewrite store_app by (rewrite length_app; cbn [length]; lia).
  rewrite <- app_assoc. reflexivity.
Qed.

Lemma store_length {A} (l l' : list A) i v :
  store l i v = Some l' -> length l' = length l /\ 0 <= i < Z.of_nat (length l).
Proof.
  unfold store. destruct (Z.leb_spec 0 i); [|discriminate].
  destruct (Z.ltb_spec i (Z.of_nat (length l))); [|discriminate].
  cbn [andb]. intros [= <-]. rewrite length_insert. lia.
Qed.

Lemma load_Some {A} (l : list A) i x :
  load l i = Some x -> 0 <= i < Z.of_nat (length l).
Proof.
  unfold load. destruct (Z.leb_spec 0 i); [|discriminate].
  intros Hl. apply lookup_lt_Some in Hl. lia.
Qed.

Lemma pack_int16le_length d off x d' :
  pack_int16le d off x = Some d' ->
  length d' = length d /\ 0 <= off /\ off + 2 <= Z.of_nat (length d).
Proof.
  unfold pack_int16le. destruct (store d (off + 0) (wrap 8 x)) as [d1|] eqn:E1; [|discriminate].
  cbn [mbind option_bind]. intros E2.
  apply store_length in E1. apply store_length in E2. lia.
Qed.

Lemma wrap64_step ch : ch = 1 \/ ch = 2 -> wrap 64 (2 * wrap 64 ch) = 2 * ch.
Proof. intros [-> | ->]; reflexivity. Qed.

Lemma wrap32_index i ch k :
  ch = 1 \/ ch = 2 -> 0 <= i -> 0 <= k < ch -> i * ch + k < 2 ^ 32 ->
  wrap 32 (wrap 32 (i * wrap 32 ch) + k) = i * ch + k.
Proof.
  intros Hch Hi Hk Hb.
  assert (wrap 32 ch = ch) as -> by (destruct Hch as [-> | ->]; reflexivity).
  rewrite (wrap_small 32 (i * ch)) by nia. apply wrap_small. nia.
Qed.

(** mono *)
Lemma pack_frames_loop_mono smid : forall body pre post spre spost i,
  i = Z.of_nat (length spre) -> 2 * i = Z.of_nat (length pre) ->
  length body = (2 * length smid)%nat ->
  i + Z.of_nat (length smid) < 2 ^ 32 ->
  pack_frames_loop (length smid) (pre ++ body ++ post) (2 * i)
    (spre ++ smid ++ spost) i 1 = Some (pre ++ encode_samples smid ++ post).
Proof.
  induction smid as [|x smid IH]; intros body pre post spre spost i Hi Hp Hb Hlt.
  - destruct body; [|cbn [length] in *; lia]. reflexivity.
  - destruct body as [|a [|b body]]; cbn [length] in *; [lia | lia |].
    cbn [length] in *. cbn [pack_frames_loop].
    change (1 =? 2) with false.
    rewrite (wrap32_index i 1 0) by lia.
    cbn [app]. rewrite (load_app spre _ x (i * 1 + 0)) by lia. cbn [mbind option_bind].
    rewrite (pack_int16le_app pre) by lia. cbn [mbind option_bind].
    rewrite wrap64_step by auto. rewrite (wrap_small 32 (i + 1)) by lia.
    replace (2 * i + 2 * 1) with (2 * (i + 1)) by lia.
    replace (pre ++ le16 x ++ body ++ post) with ((pre ++ le16 x) ++ body ++ post)
      by (rewrite <- app_assoc; reflexivity).
    replace (spre ++ x :: smid ++ spost) with ((spre ++ [x]) ++ smid ++ spost)
      by (rewrite <- app_assoc; reflexivity).
    rewrite IH.
    + rewrite <- app_assoc. reflexivity.
    + rewrite length_app. cbn [length]. lia.
    + rewrite length_app. cbn [length le16]. lia.
    + lia.
    + lia.
Qed.

Lemma pack_frames_loop_stereo frames : forall body pre post spre spost i,
  2 * i = Z.of_nat (length spre) -> 4 * i = Z.of_nat (length pre) ->
  length body = (4 * length frames)%nat ->
  2 * (i + Z.of_nat (length frames)) < 2 ^ 32 ->
  pack_frames_loop (length frames) (pre ++ body ++ post) (4 * i)
    (spre ++ interleave frames ++ spost) i 2
  = Some (pre ++ encode_samples (interleave frames) ++ post).
Proof.
  induction frames as [|[x y] frames IH]; intros body pre post spre spost i Hi Hp Hb Hlt.
  - destruct body; [|cbn [length] in *; lia]. reflexivity.
  - destruct body as [|a [|b [|c [|e body]]]]; cbn [length] in *; [lia | lia | lia | lia |].
    cbn [length] in *. cbn [pack_frames_loop].
    rewrite (wrap32_index i 2 0), (wrap32_index i 2 1) by lia.
    change (interleave ((x, y) :: frames)) with (x :: y :: interleave frames).
    cbn [app]. rewrite (load_app spre _ x (i * 2 + 0)) by lia. cbn [mbind option_bind].
    rewrite (pack_int16le_app pre) by lia. cbn [mbind option_bind].
    change (2 =? 2) with true.
    replace (spre ++ x :: y :: interleave frames ++ spost)
      with ((spre ++ [x]) ++ y :: interleave frames ++ spost)
      by (rewrite <- app_assoc; reflexivity).
    rewrite (load_app (spre ++ [x]) _ y (i * 2 + 1)) by (rewrite length_app; cbn [length]; lia).
    cbn [mbind option_bind].
    replace (pre ++ le16 x ++ c :: e :: body ++ post)
      with ((pre ++ le16 x) ++ c :: e :: body ++ post)
      by (rewrite <- app_assoc; reflexivity).
    rewrite (pack_int16le_app (pre ++ le16 x))
      by (rewrite length_app; cbn [length le16]; lia).
    cbn [mbind option_bind].
    rewrite wrap64_step by auto. rewrite (wrap_small 32 (i + 1)) by lia.
    replace (4 * i + 2 * 2) with (4 * (i + 1)) by lia.
    replace ((pre ++ le16 x) ++ le16 y ++ body ++ post)
      with ((pre ++ le16 x ++ le16 y) ++ body ++ post)
      by (rewrite <- !app_assoc; reflexivity).
    replace ((spre ++ [x]) ++ y :: interleave frames ++ spost)
      with ((spre ++ [x; y]) ++ interleave frames ++ spost)
      by (rewrite <- !app_assoc; reflexivity).
    rewrite IH.
    + rewrite <- !app_assoc. reflexivity.
    + rewrite length_app. cbn [length]. lia.
    + rewrite !length_app. cbn [length le16]. lia.
    + lia.
    + lia.
Qed.

Lemma unpack_pack_int16le x :
  is_int16 x -> unpack_int16le (wrap 8 x) (wrap 8 (Z.shiftr x 8)) = x.
Proof.
  unfold is_int16, unpack_int16le, wrap, swrap. intros Hx.
  rewrite Z.shiftr_div_pow2 by lia.
  change (2 ^ 8) with 256. change (2 ^ 15) with 32768 in *.
  change (2 ^ (16 - 1)) with 32768. change (2 ^ 16) with 65536.
  pose proof (Z.rem_mul_r x 256 256 ltac:(lia) ltac:(lia)) as E.
  change (256 * 256) with 65536 in E. rewrite <- E.
  pose proof (Z.div_mod x 65536 ltac:(lia)) as E1.
  pose proof (Z.mod_pos_bound x 65536 ltac:(lia)) as B1.
  pose proof (Z.div_mod (x mod 65536 + 32768) 65536 ltac:(lia)) as E2.
  pose proof (Z.mod_pos_bound (x mod 65536 + 32768) 65536 ltac:(lia)) as B2.
  lia.
Qed.

Lemma decode_encode_samples l :
  Forall is_int16 l -> decode_samples (encode_samples l) = l.
Proof.
  induction 1 as [|x l Hx Hl IH]; [reflexivity|].
  change (encode_samples (x :: l))
    with (wrap 8 x :: wrap 8 (Z.shiftr x 8) :: encode_samples l).
  cbn [decode_samples]. rewrite unpack_pack_int16le, IH by assumption. reflexivity.
Qed.

Lemma encode_samples_length l : length (encode_samples l) = (2 * length l)%nat.
Proof.
  induction l as [|x l IH]; [reflexivity|].
  change (encode_samples (x :: l))
    with (wrap 8 x :: wrap 8 (Z.shiftr x 8) :: encode_samples l).
  cbn [length]. lia.
Qed.

Lemma interleave_length frames : length (interleave frames) = (2 * length frames)%nat.
Proof.
  induction frames as [|[x y] frames IH]; [reflexivity|].
  change (interleave ((x, y) :: frames)) with (x :: y :: interleave frames).
  cbn [length]. lia.
Qed.

Lemma even_interleave n : forall s : list Z,
  length s = (2 * n)%nat -> exists frames, s = interleave frames /\ length frames = n.
Proof.
  induction n as [|n IH]; intros s Hs.
  - destruct s; [|discriminate]. exists []. split; reflexivity.
  - destruct s as [|x [|y s]]; cbn [length] in Hs; [lia | lia |].
    destruct (IH s ltac:(lia)) as (frames & -> & Hl).
    exists ((x, y) :: frames). split; [reflexivity|]. cbn [length]. lia.
Qed.

Lemma pack_frames_ok channels fc (s d : list Z) :
  channels = 1 \/ channels = 2 -> 0 <= fc -> fc * channels < 2 ^ 32 ->
  fc * channels <= Z.of_nat (length s) ->
  fc * channels * 2 <= Z.of_nat (length d) ->
  pack_frames d s fc channels
  = Some (encode_samples (take (Z.to_nat (fc * channels)) s)
          ++ drop (Z.to_nat (fc * channels * 2)) d).
Proof.
  intros Hch Hfc Hlt Hs Hd. unfold pack_frames.
  rewrite <- (take_drop (Z.to_nat (fc * channels)) s) at 1.
  rewrite <- (take_drop (Z.to_nat (fc * channels * 2)) d) at 1.
  destruct Hch as [-> | ->].
  - rewrite Z.mul_1_r in *.
    pose proof (pack_frames_loop_mono (take (Z.to_nat fc) s)
      (take (Z.to_nat (fc * 2)) d) [] (drop (Z.to_nat (fc * 2)) d) []
      (drop (Z.to_nat fc) s) 0) as H.
    rewrite !length_take in H. rewrite !Nat.min_l in H by lia.
    cbn [app] in H. apply H; try reflexivity; lia.
  - destruct (even_interleave (Z.to_nat fc) (take (Z.to_nat (fc * 2)) s)) as (frames & E & Hl).
    { rewrite length_take. lia. }
    rewrite E.
    pose proof (pack_frames_loop_stereo frames
      (take (Z.to_nat (fc * 2 * 2)) d) [] (drop (Z.to_nat (fc * 2 * 2)) d) []
      (drop (Z.to_nat (fc * 2)) s) 0) as H.
    rewrite Hl in H. cbn [app] in H. apply H; try reflexivity.
    + rewrite length_take. lia.
    + lia.
Qed.

Lemma pack_frames_loop_Some n : forall d off s i channels d',
  channels = 1 \/ channels = 2 -> 0 <= i -> 0 <= off ->
  (i + Z.of_nat n) * channels < 2 ^ 32 ->
  pack_frames_loop n d off s i channels = Some d' ->
  length d' = length d /\
  (n <> O -> (i + Z.of_nat n) * channels <= Z.of_nat (length s)
             /\ off + 2 * channels * Z.of_nat n <= Z.of_nat (length d)).
Proof.
  induction n as [|n IH]; intros d off s i channels d' Hch Hi Hoff Hlt H.
  - cbn [pack_frames_loop] in H. injection H as <-. split; [reflexivity|]. congruence.
  - cbn [pack_frames_loop] in H.
    rewrite (wrap32_index i channels 0) in H by (lia || nia).
    destruct (load s (i * channels + 0)) as [x|] eqn:Ex; [|discriminate].
    cbn [mbind option_bind] in H. apply load_Some in Ex.
    destruct (pack_int16le d off x) as [d1|] eqn:E1; [|discriminate].
    cbn [mbind option_bind] in H. apply pack_int16le_length in E1.
    rewrite wrap64_step in H by assumption.
    rewrite (wrap_small 32 (i + 1)) in H by nia.
    destruct Hch as [-> | ->].
    + change (1 =? 2) with false in H. cbn [mbind option_bind] in H.
      apply IH in H; [|auto|lia|lia|lia].
      destruct H as [Hl Hn]. split; [lia|]. intros _.
      destruct n as [|n]; [lia|]. specialize (Hn ltac:(discriminate)). lia.
    + change (2 =? 2) with true in H.
      rewrite (wrap32_index i 2 1) in H by lia.
      destruct (load s (i * 2 + 1)) as [y|] eqn:Ey; [|discriminate].
      cbn [mbind option_bind] in H. apply load_Some in Ey.
      destruct (pack_int16le d1 (off + 2) y) as [d2|] eqn:E2; [|discriminate].
      cbn [mbind option_bind] in H. apply pack_int16le_length in E2.
      apply IH in H; [|auto|lia|lia|lia].
      destruct H as [Hl Hn]. split; [lia|]. intros _.
      destruct n as [|n]; [lia|]. specialize (Hn ltac:(discriminate)). lia.
Qed.

(** C6: the encode/decode round trip.  For one or two channels and a
    sample buffer of [fc * channels] 16-bit samples, [pack_frames] fills the
    first [fc * channels * 2] bytes of the destination, and reading them
    back as little-endian signed 16-bit numbers gives the samples. *)
Theorem pack_frames_round_trip (channels fc : Z) (s d : list Z) :
  channels = 1 \/ channels = 2 -> 0 <= fc -> fc * channels < 2 ^ 32 ->
  Z.of_nat (length s) = fc * channels -> Forall is_int16 s ->
  fc * channels * 2 <= Z.of_nat (length d) ->
  exists d', pack_frames d s fc channels = Some d'
    /\ decode_samples (take (Z.to_nat (fc * channels * 2)) d') = s.
Proof.
  intros Hch Hfc Hlt Hs Hint Hd.
  rewrite pack_frames_ok by (assumption || lia).
  eexists. split; [reflexivity|].
  rewrite (take_ge s) by lia.
  rewrite take_app_length' by (rewrite encode_samples_length; lia).
  now apply decode_encode_samples.
Qed.

(** C10: the accesses of the frame encoder.  For one or two channels,
    [pack_frames] stays inside its arrays exactly when the samples hold
    [fc * channels] elements and the bytes [fc * channels * 2]; it then
    writes those bytes, from those samples, and leaves the rest of the
    destination as it was; so a chunk of at most 4096 frames fits the
    buffers [main] allocates. *)
Theorem pack_frames_accesses (channels fc : Z) (s d : list Z) :
  channels = 1 \/ channels = 2 -> 0 <= fc -> fc * channels < 2 ^ 32 ->
  (is_Some (pack_frames d s fc channels)
     <-> fc * channels <= Z.of_nat (length s)
         /\ fc * channels * 2 <= Z.of_nat (length d))
  /\ (forall d', pack_frames d s fc channels = Some d' ->
        d' = encode_samples (take (Z.to_nat (fc * channels)) s)
             ++ drop (Z.to_nat (fc * channels * 2)) d)
  /\ (fc <= kFramesToBuffer ->
      Z.of_nat (length s) = kFramesToBuffer * channels ->
      Z.of_nat (length d) = kFramesToBuffer * channels * 2 ->
      is_Some (pack_frames d s fc channels)).
Proof.
  intros Hch Hfc Hlt.
  assert (forall d', pack_frames d s fc channels = Some d' ->
          fc * channels <= Z.of_nat (length s)
          /\ fc * channels * 2 <= Z.of_nat (length d)) as Hnec.
  { intros d' H. unfold pack_frames in H.
    apply pack_frames_loop_Some in H; [|assumption|lia|lia|lia].
    destruct H as [_ H]. destruct (Z.to_nat fc) as [|k] eqn:Ek.
    - assert (fc = 0) as -> by lia. lia.
    - specialize (H ltac:(discriminate)). lia. }
  split; [split|split].
  - intros [d' H]. eauto.
  - intros [H1 H2]. rewrite pack_frames_ok by assumption. eauto.
  - intros d' H. destruct (Hnec d' H) as [H1 H2].
    rewrite pack_frames_ok in H by assumption. congruence.
  - unfold kFramesToBuffer. intros Hle Hs Hd.
    rewrite pack_frames_ok by (assumption || nia). eauto.
Qed.

(** ** The header *)

Lemma unpack_bytes4 v : 0 <= v < 2 ^ 32 -> unpack_uint32le (bytes4 v) = Some v.
Proof.
  intros Hv. unfold unpack_uint32le, bytes4, wrap. f_equal.
  rewrite !Z.shiftr_div_pow2 by lia.
  change (2 ^ 8) with 256. change (2 ^ 16) with (256 * 256).
  change (2 ^ 24) with (256 * (256 * 256)). change (2 ^ 32) with 4294967296 in Hv.
  rewrite <- !Z.div_div by lia.
  pose proof (Z.div_mod v 256 ltac:(lia)).
  pose proof (Z.mod_pos_bound v 256 ltac:(lia)).
  pose proof (Z.div_mod (v / 256) 256 ltac:(lia)).
  pose proof (Z.mod_pos_bound (v / 256) 256 ltac:(lia)).
  pose proof (Z.div_mod (v / 256 / 256) 256 ltac:(lia)).
  pose proof (Z.mod_pos_bound (v / 256 / 256) 256 ltac:(lia)).
  pose proof (Z.div_mod (v / 256 / 256 / 256) 256 ltac:(lia)).
  pose proof (Z.mod_pos_bound (v / 256 / 256 / 256) 256 ltac:(lia)).
  assert (v / 256 / 256 / 256 / 256 = 0) by (rewrite !Z.div_div by lia; apply Z.div_small; lia).
  lia.
Qed.

Lemma put_inv bytes n f k f' :
  0 < n -> put bytes n f k = Some (1, f') ->
  exists g, out g = out f ++ take (Z.to_nat n) bytes /\ k g = Some (1, f').
Proof.
  intros Hn. unfold put, fwrite. rewrite Z.mul_1_l.
  destruct (Z.of_nat (length bytes) <? n); [discriminate|].
  destruct (Z.leb_spec n 0); [lia|].
  destruct ((held f + n <=? cap f) || (n <=? room f)) eqn:Eok;
    cbn [mbind option_bind].
  - rewrite Z.eqb_refl. intros Hk. exists (written f bytes n). split; [reflexivity|exact Hk].
  - apply orb_false_elim in Eok. destruct Eok as [_ Er]. apply Z.leb_gt in Er.
    rewrite Z.div_1_r. destruct (Z.eqb_spec (Z.max 0 (room f)) n); [lia|discriminate].
Qed.

Lemma put_packed32_inv a b c d v f k f' :
  put_packed pack_uint32le v 4 ([a; b; c; d], f) k = Some (1, f') ->
  exists g, out g = out f ++ bytes4 v /\ k (bytes4 v, g) = Some (1, f').
Proof.
  unfold put_packed. cbn [fst snd].
  change (pack_uint32le [a; b; c; d] 0 v) with (Some (bytes4 v)).
  cbn [mbind option_bind]. intros H. apply put_inv in H; [|lia]. exact H.
Qed.

Lemma put_packed16_inv a b c d v f k f' :
  put_packed pack_uint16le v 2 ([a; b; c; d], f) k = Some (1, f') ->
  exists g, out g = out f ++ bytes2 v /\ k (bytes2 v ++ [c; d], g) = Some (1, f').
Proof.
  unfold put_packed. cbn [fst snd].
  change (pack_uint16le [a; b; c; d] 0 v) with (Some (bytes2 v ++ [c; d])).
  cbn [mbind option_bind]. intros H. apply put_inv in H; [|lia]. exact H.
Qed.

Lemma dataSize_mod total ch :
  wrap 32 (wrap 64 (wrap 64 (total * 2) * wrap 64 ch)) = (total * ch * 2) mod 2 ^ 32.
Proof.
  unfold wrap.
  assert (forall a, (a mod 2 ^ 64) mod 2 ^ 32 = a mod 2 ^ 32) as E.
  { intros a. apply Z.mod_mod_divide. exists (2 ^ 32). reflexivity. }
  rewrite E. rewrite Z.mul_mod by lia. rewrite !E.
  rewrite <- Z.mul_mod by lia. f_equal. lia.
Qed.

(** C5, as the code has it: when [write_wav_header] returns 1 it has
    appended exactly 44 bytes, and their payload-length field holds
    [totalFrames * channels * 2] reduced modulo 2^32. *)
Theorem header_layout f totalFrames (o : Nsf2WavOptions) f' :
  write_wav_header f totalFrames o = Some (1, f') ->
  exists hdr, out f' = out f ++ hdr /\ length hdr = 44%nat
    /\ data_size_field hdr = Some ((totalFrames * channels o * 2) mod 2 ^ 32).
Proof.
  unfold write_wav_header. rewrite dataSize_mod.
  set (dataSize := (totalFrames * channels o * 2) mod 2 ^ 32).
  intros H.
  apply put_inv in H as (g1 & E1 & K); [|lia]. rename K into H.
  apply put_packed32_inv in H as (g2 & E2 & K). rename K into H. cbv beta iota in H.
  apply put_inv in H as (g3 & E3 & K); [|lia]. rename K into H.
  apply put_inv in H as (g4 & E4 & K); [|lia]. rename K into H.
  apply put_packed32_inv in H as (g5 & E5 & K). rename K into H. cbv beta iota in H.
  apply put_packed16_inv in H as (g6 & E6 & K). rename K into H. cbv beta iota in H.
  apply put_packed16_inv in H as (g7 & E7 & K). rename K into H. cbv beta iota in H.
  destruct (Double.to_uint 32 (samplerate o)) as [rate|]; [|discriminate].
  cbn [mbind option_bind] in H.
  apply put_packed32_inv in H as (g8 & E8 & K). rename K into H. cbv beta iota in H.
  destruct (Double.to_uint 32 _) as [byterate|]; [|discriminate].
  cbn [mbind option_bind] in H.
  apply put_packed32_inv in H as (g9 & E9 & K). rename K into H. cbv beta iota in H.
  apply put_packed16_inv in H as (g10 & E10 & K). rename K into H. cbv beta iota in H.
  apply put_packed16_inv in H as (g11 & E11 & K). rename K into H. cbv beta iota in H.
  apply put_inv in H as (g12 & E12 & K); [|lia]. rename K into H.
  apply put_packed32_inv in H as (g13 & E13 & K). rename K into H. cbv beta iota in H.
  injection H as <-.
  rewrite E13, E12, E11, E10, E9, E8, E7, E6, E5, E4, E3, E2, E1.
  rewrite <- !app_assoc.
  eexists. split; [reflexivity|]. split; [reflexivity|].
  change (unpack_uint32le (bytes4 dataSize) = Some dataSize).
  apply unpack_bytes4. apply Z.mod_pos_bound. lia.
Qed.

(** ** The process *)

Section Process.
Context {X : Xgm}.

Lemma bind_next {A B} (c : M A) (k : A -> M B) m a m' :
  c m = Next a m' -> bind c k m = k a m'.
Proof. intros H. unfold bind. now rewrite H. Qed.

Lemma skip_loop_next fuel frames m :
  exists f' m', skip_loop fuel frames m = Next f' m'.
Proof.
  revert frames m. induction fuel as [|fuel IH]; intros frames m; cbn [skip_loop].
  - eexists _, _. reflexivity.
  - unfold bind at 1. cbn [get].
    destruct ((frames =? 0) || IsFading (world m)).
    + eexists _, _. reflexivity.
    + unfold on_player, bind, emit, update. apply IH.
Qed.

(** C4, as the code has it: with forced length, lengths in
    [0, 2^31), and a whole sample rate [n] for which
    [(length_ms + fade_ms) * n] is below 2^53, the frame count is
    [(length_ms + fade_ms) * n / 1000], and the engine is not touched. *)
Theorem forced_length_frames (o : Nsf2WavOptions) (n : Z) (m : Machine) :
  lengthForce o = true ->
  0 <= length_ms o < 2 ^ 31 -> 0 <= fade_ms o < 2 ^ 31 -> 0 <= n ->
  (length_ms o + fade_ms o) * n < 2 ^ 53 ->
  samplerate o = inject_Z n ->
  resolve_frames o m = Next ((length_ms o + fade_ms o) * n / 1000) m.
Proof.
  intros Hf HL HF Hn Hb Hs. unfold resolve_frames.
  rewrite (naive_frames_whole_rate o n) by assumption.
  unfold bind, defined, ret, detect. now rewrite Hf.
Qed.

End Process.

Lemma need_turns frames : 0 <= frames -> (need frames <= turns frames)%nat.
Proof.
  intros H. unfold need, turns, kFramesToBuffer.
  assert ((frames + 4095) / 4096 < frames / 4096 + 2).
  { pose proof (Z.div_mod frames 4096 ltac:(lia)).
    pose proof (Z.mod_pos_bound frames 4096 ltac:(lia)).
    apply Z.div_lt_upper_bound; lia. }
  assert (0 <= frames / 4096) by (apply Z.div_pos; lia).
  lia.
Qed.

Lemma need_step frames :
  0 < frames -> (need (frames - chunk frames) < need frames)%nat
                /\ 0 <= frames - chunk frames.
Proof.
  intros H. unfold need, chunk, kFramesToBuffer.
  destruct (Z.le_ge_cases frames 4096) as [Hle|Hge].
  - rewrite Z.min_l by lia. rewrite Z.sub_diag. change ((0 + 4095) / 4096) with 0.
    assert (1 <= (frames + 4095) / 4096) by (apply Z.div_le_lower_bound; lia).
    lia.
  - rewrite Z.min_r by lia.
    replace (frames + 4095) with (frames - 4096 + 4095 + 1 * 4096) by lia.
    rewrite Z.div_add by lia.
    assert (0 <= (frames - 4096 + 4095) / 4096) by (apply Z.div_pos; lia).
    lia.
Qed.

Section Fuel.
Context {X : Xgm}.

Lemma skip_loop_S fuel frames m :
  skip_loop (S fuel) frames m
  = if (frames =? 0) || IsFading (world m) then Next frames m
    else skip_loop fuel (frames - chunk frames)
           {| world := Skip (chunk frames) (world m);
              trace := trace m ++ [Player (CSkip (chunk frames))] |}.
Proof.
  cbn [skip_loop]. unfold bind at 1. cbn [get].
  destruct ((frames =? 0) || IsFading (world m)); reflexivity.
Qed.

Lemma skip_loop_fuel fuel : forall frames m,
  0 <= frames -> (need frames <= fuel)%nat ->
  skip_loop (S fuel) frames m = skip_loop fuel frames m.
Proof.
  induction fuel as [|fuel IH]; intros frames m H0 Hn.
  - unfold need in Hn. lia.
  - rewrite (skip_loop_S (S fuel) frames m), (skip_loop_S fuel frames m).
    destruct (Z.eqb_spec frames 0) as [->|Hnz]; [reflexivity|]. cbn [orb].
    destruct (IsFading (world m)); [reflexivity|].
    destruct (need_step frames ltac:(lia)) as [Hs Hp].
    apply IH; [assumption|lia].
Qed.

Lemma skip_loop_exit fuel : forall frames m f' m',
  0 <= frames -> (need frames <= fuel)%nat ->
  skip_loop fuel frames m = Next f' m' ->
  f' = 0 \/ IsFading (world m') = true.
Proof.
  induction fuel as [|fuel IH]; intros frames m f' m' H0 Hn.
  - unfold need in Hn. lia.
  - rewrite skip_loop_S.
    destruct (Z.eqb_spec frames 0) as [->|Hnz].
    { cbn [orb]. intros [= <- <-]. now left. }
    cbn [orb]. destruct (IsFading (world m)) eqn:Ef.
    { intros [= <- <-]. now right. }
    destruct (need_step frames ltac:(lia)) as [Hs Hp].
    apply IH; [assumption|lia].
Qed.

Variable disk : string -> option (Z * Z).

Lemma render_loop_S fuel f buf pac frames o m :
  render_loop (S fuel) f buf pac frames o m
  = if frames =? 0 then Next f m
    else
      let fc := chunk frames in
      let t := (trace m
                ++ [Print stdout (MsgProgress (wrap 64 (frames + total_render (world m))) frames)])
               ++ [Player (CRender fc)] in
      match pack_frames pac (fst (Render buf fc (world m))) fc (channels o) with
      | Some pac' =>
          match write_frames f pac' fc (channels o) with
          | Some r =>
              render_loop fuel (snd r)
                (fst (Render buf fc (world m))) pac' (frames - fc) o
                {| world := snd (Render buf fc (world m)); trace := t |}
          | None => Undefined
          end
      | None => Undefined
      end.
Proof.
  cbn [render_loop]. destruct (frames =? 0); [reflexivity|].
  unfold bind at 1. cbn [get]. unfold bind at 1. cbn [print emit].
  unfold bind at 1. cbn [emit world trace]. unfold bind at 1. cbn [get world].
  destruct (Render buf (chunk frames) (world m)) as [buf' w'].
  unfold bind at 1. cbn [update fst snd]. unfold bind at 1.
  destruct (pack_frames pac buf' (chunk frames) (channels o)) as [pac'|]; [|reflexivity].
  cbn [defined ret]. unfold bind at 1.
  destruct (write_frames f pac' (chunk frames) (channels o)) as [r|]; reflexivity.
Qed.

Lemma render_loop_fuel fuel : forall f buf pac frames o m,
  0 <= frames -> (need frames <= fuel)%nat ->
  render_loop (S fuel) f buf pac frames o m = render_loop fuel f buf pac frames o m.
Proof.
  induction fuel as [|fuel IH]; intros f buf pac frames o m H0 Hn.
  - unfold need in Hn. lia.
  - rewrite (render_loop_S (S fuel) f buf pac frames o m), (render_loop_S fuel f buf pac frames o m).
    destruct (Z.eqb_spec frames 0) as [->|Hnz]; [reflexivity|].
    cbv zeta. destruct (pack_frames _ _ _ _) as [pac'|]; [|reflexivity].
    destruct (write_frames _ _ _ _) as [r|]; [|reflexivity].
    destruct (need_step frames ltac:(lia)) as [Hs Hp].
    apply IH; [assumption|lia].
Qed.

Lemma parse_loop_machine ds : forall o m o' m',
  parse_loop ds o m = Next o' m' -> m' = m.
Proof.
  induction ds as [|d ds IH]; intros o m o' m'; cbn [parse_loop].
  - now intros [= _ <-].
  - destruct d; try discriminate;
    (destruct (converts _); [|discriminate]; unfold bind at 1;
     match goal with |- context [defined ?x] => destruct x as [o1|] end;
     [cbn [defined ret]; apply IH | discriminate]).
Qed.

Lemma ParseOptions_machine ds m o m' :
  ParseOptions ds m = Next o m' -> m' = m.
Proof.
  unfold ParseOptions, bind, get. apply parse_loop_machine.
Qed.

Lemma new_array_ok ch :
  0 <= ch < 2 ^ 31 ->
  new_array (wrap 64 (kFramesToBuffer * wrap 64 ch)) 2
    = Some (replicate (Z.to_nat (kFramesToBuffer * ch)) 0) /\
  new_array (wrap 64 (wrap 64 (kFramesToBuffer * wrap 64 ch) * 2)) 1
    = Some (replicate (Z.to_nat (kFramesToBuffer * ch * 2)) 0).
Proof.
  intros H. unfold kFramesToBuffer.
  assert (2 ^ 31 < 2 ^ 64) by reflexivity.
  assert (2 ^ 31 = 2147483648) by reflexivity.
  assert (2 ^ 64 = 18446744073709551616) as E64 by reflexivity.
  assert (2 ^ 63 = 9223372036854775808) as E63 by reflexivity.
  rewrite (wrap_small 64 ch) by lia.
  rewrite (wrap_small 64 (4096 * ch)) by lia.
  rewrite (wrap_small 64 (4096 * ch * 2)) by lia.
  unfold new_array.
  destruct (Z.ltb_spec (4096 * ch * 2) (2 ^ 63)); [|lia].
  destruct (Z.ltb_spec (4096 * ch * 2 * 1) (2 ^ 63)); [|lia].
  split; reflexivity.
Qed.

(** C7, as the code has it.  Take a command line whose options parse (no
    [-h], no unknown option, no conversion that throws, no undefined shift)
    and that names a source and an output file; let the channel count be in
    [0, 2^31), so that the two buffers are allocated; and let the source
    load and not be in playlist mode.  With a track number of 0 or less the
    run prints the track-number error and returns [EXIT_FAILURE]; by then
    the NSF object has been given its defaults and has loaded the file, and
    nothing else has happened: no call on the player, no file opened. *)
Theorem track_number_rejected ds path outpath (o : Nsf2WavOptions) w' :
  ParseOptions ds {| world := boot; trace := [] |}
    = Next o {| world := boot; trace := [] |} ->
  0 <= channels o < 2 ^ 31 ->
  track o <= 0 ->
  LoadFile path
    (SetDefaults (length_ms o) (fade_ms o) (default_loopnum (nsf boot)) boot)
    = (true, w') ->
  playlist_mode (nsf w') = false ->
  main disk ds [path; outpath]
  = Halt EXIT_FAILURE
      [Nsf (CSetDefaults (length_ms o) (fade_ms o) (default_loopnum (nsf boot)));
       Nsf (CLoadFile path);
       Print stderr MsgTrackNumber].
Proof.
  intros HP Hch Ht HL Hpl. unfold main, main_body.
  rewrite (bind_next _ _ _ _ _ HP).
  destruct (new_array_ok (channels o) Hch) as [E1 E2].
  unfold bind at 1. cbn [get world]. unfold bind at 1. unfold on_nsf at 1.
  unfold bind at 1. cbn [emit update world trace].
  rewrite E1. unfold bind at 1. cbn [ret]. rewrite E2. unfold bind at 1. cbn [ret].
  unfold bind at 1. cbn [emit world trace]. unfold bind at 1. cbn [get world].
  rewrite HL. unfold bind at 1. cbn [update negb world].
  rewrite Hpl. destruct (Z.leb_spec (track o) 0) as [_|?]; [|lia].
  reflexivity.
Qed.

End Fuel.

(** ** Channel masks and volumes *)

(** bits *)
Lemma land_pow2 m j :
  0 <= j -> (Z.land m (2 ^ j) =? 0) = negb (Z.testbit m j).
Proof.
  intros Hj. destruct (Z.testbit m j) eqn:E; cbn [negb].
  - assert (Z.land m (2 ^ j) = 2 ^ j) as ->.
    { apply Z.bits_inj'. intros k Hk. rewrite Z.land_spec, Z.pow2_bits_eqb by lia.
      destruct (Z.eqb_spec j k) as [<-|?]; [now rewrite E | apply andb_false_r]. }
    apply Z.eqb_neq. pose proof (Z.pow_pos_nonneg 2 j). lia.
  - assert (Z.land m (2 ^ j) = 0) as ->; [|reflexivity].
    apply Z.bits_inj'. intros k Hk. rewrite Z.land_spec, Z.pow2_bits_eqb, Z.bits_0 by lia.
    destruct (Z.eqb_spec j k) as [<-|?]; [now rewrite E | apply andb_false_r].
Qed.

Lemma shl1_int_low j : 0 <= j < 31 -> shl1_int j = Some (2 ^ j).
Proof.
  intros Hj. unfold shl1_int.
  destruct (Z.leb_spec 0 j); [|lia]. destruct (Z.ltb_spec j 32); [|lia]. cbn [andb].
  f_equal. rewrite Z.shiftl_1_l. unfold swrap.
  assert (0 < 2 ^ j) by (apply Z.pow_pos_nonneg; lia).
  assert (2 ^ j < 2 ^ 31) by (apply Z.pow_lt_mono_r; lia).
  change (2 ^ (32 - 1)) with (2 ^ 31). change (2 ^ 32) with (2 * 2 ^ 31).
  rewrite Z.mod_small by lia. lia.
Qed.

Lemma shl1_int_31 : shl1_int 31 = Some (- 2 ^ 31).
Proof. reflexivity. Qed.

Lemma set_volumes_spec n : forall i mute c,
  0 <= i -> i + Z.of_nat n <= 32 ->
  exists c', set_volumes n i mute c = Some c'
    /\ global c' = global c
    /\ forall j, channel c' !! (j, "VOL")
         = if (i <=? j) && (j <? i + Z.of_nat n) then volume_of mute j
           else channel c !! (j, "VOL").
Proof.
  induction n as [|n IH]; intros i mute c Hi Hn.
  - exists c. split; [reflexivity|]. split; [reflexivity|]. intros j.
    destruct (Z.leb_spec i j); destruct (Z.ltb_spec j (i + Z.of_nat 0)); try reflexivity. lia.
  - cbn [set_volumes]. unfold shl1_int at 1.
    destruct (Z.leb_spec 0 i); [|lia]. destruct (Z.ltb_spec i 32); [|lia].
    cbn [andb mbind option_bind].
    edestruct (IH (i + 1) mute) as (c' & E & Hg & Hc); [lia|lia|].
    rewrite E. exists c'. split; [reflexivity|]. split; [rewrite Hg; reflexivity|].
    intros j. rewrite Hc. cbn [channel set_channel].
    destruct (Z.eq_dec j i) as [->|Hne].
    + destruct (Z.leb_spec (i + 1) i); [lia|]. cbn [andb].
      destruct (Z.leb_spec i i); [|lia]. destruct (Z.ltb_spec i (i + Z.of_nat (S n))); [|lia].
      cbn [andb]. rewrite lookup_insert_eq. unfold volume_of, shl1_int.
      destruct (Z.leb_spec 0 i); [|lia]. destruct (Z.ltb_spec i 32); [|lia]. reflexivity.
    + rewrite lookup_insert_ne by congruence.
      destruct (Z.leb_spec (i + 1) j); destruct (Z.leb_spec i j); try lia;
      destruct (Z.ltb_spec j (i + 1 + Z.of_nat n));
      destruct (Z.ltb_spec j (i + Z.of_nat (S n))); try lia; reflexivity.
Qed.

(** invert *)
Lemma mask_reverse_bits m i :
  0 <= i ->
  Z.testbit (Z.lxor m 4294967295) i
  = if i <? 32 then negb (Z.testbit m i) else Z.testbit m i.
Proof.
  intros Hi. change 4294967295 with (Z.ones 32). rewrite Z.lxor_spec.
  destruct (Z.ltb_spec i 32).
  - rewrite Z.ones_spec_low by lia. apply xorb_true_r.
  - rewrite Z.ones_spec_high by lia. apply xorb_false_r.
Qed.

(** C2, as the code has it: [--mask_reverse] complements the bits 0 to 31 of the
    64-bit mask and keeps the bits 32 to 63 and the mute set; on an empty
    mask, [--mask=0 --mask_reverse] leaves 0xFFFFFFFE. *)
Theorem mask_reverse_low_32 {X : Xgm} (o : Nsf2WavOptions) (m : Machine) :
  (exists o', apply_option opt_r o = Some o'
     /\ mask o' = Z.lxor (mask o) 4294967295
     /\ mute o' = mute o
     /\ (forall i, 0 <= i < 32 -> Z.testbit (mask o') i = negb (Z.testbit (mask o) i))
     /\ (forall i, 32 <= i -> Z.testbit (mask o') i = Z.testbit (mask o) i))
  /\ parse_loop [opt_m 0; opt_r] (set_mask 0 o) m = Next (set_mask 4294967294 o) m.
Proof.
  split.
  - eexists. split; [reflexivity|]. cbn [mask mute set_mask].
    split; [reflexivity|]. split; [reflexivity|].
    split; intros i Hi; rewrite mask_reverse_bits by lia.
    + destruct (Z.ltb_spec i 32); [reflexivity|lia].
    + destruct (Z.ltb_spec i 32); [lia|reflexivity].
  - reflexivity.
Qed.

Section Times.
Context {X : Xgm}.

(** C8, as the code has it.  Length: the per-track time when the source
    is not in playlist mode and the time is not negative; else the time of
    the NSF object when it is not negative; else the value the options hold,
    with a warning unless the length is forced.  Fade: the same with the
    fade times, and the warning is printed whether the length is forced or
    not.  Neither step changes the engine's objects. *)
Theorem length_fade_precedence (nsfe_i : Z) (o : Nsf2WavOptions) (m : Machine) :
  let n := nsf (world m) in
  let e := nsfe_entry n nsfe_i in
  (exists o1 m1, resolve_length nsfe_i o m = Next o1 m1
     /\ world m1 = world m /\ o1 = set_length_ms (length_ms o1) o
     /\ (playlist_mode n = false -> 0 <= time e ->
         length_ms o1 = time e /\ trace m1 = trace m)
     /\ (playlist_mode n = true \/ time e < 0 -> 0 <= time_in_ms n ->
         length_ms o1 = time_in_ms n /\ trace m1 = trace m)
     /\ (playlist_mode n = true \/ time e < 0 -> time_in_ms n < 0 ->
         length_ms o1 = length_ms o
         /\ trace m1 = trace m ++ (if lengthForce o then []
                                   else [Print stderr (MsgNoLength (length_ms o))])))
  /\
  (exists o2 m2, resolve_fade nsfe_i o m = Next o2 m2
     /\ world m2 = world m /\ o2 = set_fade_ms (fade_ms o2) o
     /\ (playlist_mode n = false -> 0 <= fade e ->
         fade_ms o2 = fade e /\ trace m2 = trace m)
     /\ (playlist_mode n = true \/ fade e < 0 -> 0 <= fade_in_ms n ->
         fade_ms o2 = fade_in_ms n /\ trace m2 = trace m)
     /\ (playlist_mode n = true \/ fade e < 0 -> fade_in_ms n < 0 ->
         fade_ms o2 = fade_ms o
         /\ trace m2 = trace m ++ [Print stderr (MsgNoFade (fade_ms o))])).
Proof.
  intros n e. split.
  - unfold resolve_length, bind at 1, get. fold n. fold e.
    destruct (playlist_mode n) eqn:Ep; cbn [negb andb];
    [|destruct (Z.leb_spec 0 (time e))];
    try (destruct (Z.leb_spec 0 (time_in_ms n)));
    try (destruct (lengthForce o) eqn:Ef; cbn [negb]);
    unfold bind, print, emit, ret; eexists _, _;
    (split; [reflexivity|]); cbn [world trace length_ms set_length_ms];
    (split; [reflexivity|]); (split; [now destruct o|]);
    repeat split; intros; try discriminate; try lia;
    try (rewrite app_nil_r); try reflexivity;
    try match goal with H : _ \/ _ |- _ => destruct H; (discriminate || lia) end.
  - unfold resolve_fade, bind at 1, get. fold n. fold e.
    destruct (playlist_mode n) eqn:Ep; cbn [negb andb];
    [|destruct (Z.leb_spec 0 (fade e))];
    try (destruct (Z.leb_spec 0 (fade_in_ms n)));
    unfold bind, print, emit, ret; eexists _, _;
    (split; [reflexivity|]); cbn [world trace fade_ms set_fade_ms];
    (split; [reflexivity|]); (split; [now destruct o|]);
    repeat split; intros; try discriminate; try lia;
    try reflexivity;
    try match goal with H : _ \/ _ |- _ => destruct H; (discriminate || lia) end.
Qed.

End Times.

(** ** Supporting facts on results, the header writer and the loops *)

Lemma outcome_Halt {X : Xgm} {A} (r : result A) code t :
  outcome r = Some (code, t) -> r = Halt code t.
Proof. destruct r; cbn [outcome]; congruence. Qed.

Lemma value_Next {X : Xgm} {A} (r : result A) a :
  value r = Some a -> exists m, r = Next a m.
Proof. destruct r; cbn [value]; intros [= <-]. eauto. Qed.

Lemma put_taken bytes n f k :
  0 < n <= Z.of_nat (length bytes) ->
  held f + n <= cap f \/ n <= room f ->
  exists g, put bytes n f k = k g
    /\ out g = out f ++ take (Z.to_nat n) bytes
    /\ room g = room f - n /\ cap g = cap f
    /\ (held f + n <= cap f -> held g = held f + n).
Proof.
  intros Hn Hok. exists (written f bytes n). split.
  - unfold put, fwrite. rewrite Z.mul_1_l.
    destruct (Z.ltb_spec (Z.of_nat (length bytes)) n); [lia|].
    destruct (Z.leb_spec n 0); [lia|].
    assert ((held f + n <=? cap f) || (n <=? room f) = true) as ->.
    { apply orb_true_iff. destruct Hok; [left; apply Z.leb_le|right; apply Z.leb_le]; lia. }
    cbn [mbind option_bind]. now rewrite Z.eqb_refl.
  - cbn [out room cap held written]. repeat split.
    intros H. destruct (Z.leb_spec (held f + n) (cap f)); [reflexivity|lia].
Qed.

Lemma put_packed32_taken a b c d v f k :
  held f + 4 <= cap f \/ 4 <= room f ->
  exists g, put_packed pack_uint32le v 4 ([a; b; c; d], f) k = k (bytes4 v, g)
    /\ out g = out f ++ bytes4 v
    /\ room g = room f - 4 /\ cap g = cap f
    /\ (held f + 4 <= cap f -> held g = held f + 4).
Proof.
  intros Hok. unfold put_packed. cbn [fst snd].
  change (pack_uint32le [a; b; c; d] 0 v) with (Some (bytes4 v)).
  cbn [mbind option_bind].
  destruct (put_taken (bytes4 v) 4 f (fun f0 => k (bytes4 v, f0))) as (g & E & H);
    [cbn [length bytes4]; lia|exact Hok|].
  exists g. split; [exact E|exact H].
Qed.

Lemma put_packed16_taken a b c d v f k :
  held f + 2 <= cap f \/ 2 <= room f ->
  exists g, put_packed pack_uint16le v 2 ([a; b; c; d], f) k = k (bytes2 v ++ [c; d], g)
    /\ out g = out f ++ bytes2 v
    /\ room g = room f - 2 /\ cap g = cap f
    /\ (held f + 2 <= cap f -> held g = held f + 2).
Proof.
  intros Hok. unfold put_packed. cbn [fst snd].
  change (pack_uint16le [a; b; c; d] 0 v) with (Some (bytes2 v ++ [c; d])).
  cbn [mbind option_bind].
  destruct (put_taken (bytes2 v ++ [c; d]) 2 f (fun f0 => k (bytes2 v ++ [c; d], f0)))
    as (g & E & H); [cbn [length bytes2 app]; lia|exact Hok|].
  exists g. split; [exact E|exact H].
Qed.


Lemma high_bits_const k :
  0 <= k -> Z.testbit (2 ^ 64 - 2 ^ 31) k = (31 <=? k) && (k <? 64).
Proof.
  intros Hk. change (2 ^ 64 - 2 ^ 31) with (Z.shiftl (Z.ones 33) 31).
  rewrite Z.shiftl_spec by lia.
  destruct (Z.leb_spec 31 k); destruct (Z.ltb_spec k 64); cbn [andb].
  - apply Z.ones_spec_low. lia.
  - apply Z.ones_spec_high. lia.
  - apply Z.testbit_neg_r. lia.
  - lia.
Qed.

(** ** The claims on concrete inputs *)


(** C2 fails on the empty mask: after [--mask=0 --mask_reverse] the mask is
    0xFFFFFFFE, and the complement of {0} over the 64 bits of the field
    is 0xFFFFFFFFFFFFFFFE. *)
Lemma mask_reverse_not_full_complement :
  fmap mask (value (@ParseOptions demo_xgm [opt_m 0; opt_r] start)) = Some 4294967294
  /\ wrap 64 (Z.lnot (Z.shiftl 1 0)) = 18446744073709551614.
Proof. split; vm_compute; reflexivity. Qed.

(** C3 against the code: a file with room for 50 bytes, behind a buffer
    of 4096 bytes, in a run that writes 44 + 4800 bytes.  The header stays
    in the buffer; the one chunk of 2400 frames does not fit, the
    transmission fails, [fwrite] comes back short and [write_frames] returns
    0; and [main] goes on: no error is printed, the file is closed with 50
    bytes, its header still announcing 4800 bytes of payload, and the status
    is [EXIT_SUCCESS]. *)
Lemma short_write_ignored :
  @main demo_xgm (fun _ => Some (50, 4096)) [opt_y; opt_s 24000] ["a.nsf"; "o.wav"]
  = Halt EXIT_SUCCESS
      [Nsf (CSetDefaults 300000 5000 2); Nsf (CLoadFile "a.nsf");
       Print stdout (MsgTrack 1 "demo");
       Print stdout (MsgLength 100); Print stdout (MsgFade 0);
       Player CSetConfig; Player CLoad; Player (CSetPlayFreq 24000);
       Player (CSetChannels 1); Player (CSetSong 0);
       Player CReset; Player (CNotify (-1)); Player CSetConfig;
       Player CReset; Open "o.wav" true;
       Print stdout (MsgProgress 2400 2400); Player (CRender 2400);
       Close short_file]
  /\ length (out short_file) = 50%nat
  /\ data_size_field (out short_file) = Some 4800
  /\ (write_wav_header (fresh 50 4096) 2400 short_options
        ≫= fun h => fmap (fun w => (fst h, fst w))
                      (write_frames (snd h) (replicate (Z.to_nat 8192) 0) 2400 1))
     = Some (1, 0).
Proof.
  split; [apply outcome_Halt; vm_compute; reflexivity|].
  split; [reflexivity|]. split; vm_compute; reflexivity.
Qed.

(** C4 fails at [length_ms = 1], [fade_ms = 399] and a rate of 2.5: the
    first product is truncated to 2 before the second is added, so the code
    computes [trunc (2 + 997.5) / 1000 = 0] where
    [floor (400 * 2.5 / 1000) = 1]. *)
Lemma forced_length_not_floor :
  value (@resolve_frames demo_xgm demo_options start) = Some 0
  /\ Qfloor (inject_Z (length_ms demo_options + fade_ms demo_options)
             * samplerate demo_options / 1000) = 1.
Proof. split; vm_compute; reflexivity. Qed.

(** C4 at 1000 ms + 500 ms and 44.1 kHz *)
Lemma forced_length_frames_witness :
  @resolve_frames demo_xgm cd_options start = Next ((1000 + 500) * 44100 / 1000) start.
Proof.
  apply (@forced_length_frames demo_xgm cd_options 44100 start);
    try reflexivity; cbn [cd_options length_ms fade_ms]; lia.
Defined.

(** C5 fails at 103079215056 mono frames (2147483647 ms at 48 kHz): the
    payload is 206158430112 bytes, and the 32-bit field holds
    4294967200. *)
Lemma data_size_field_wraps :
  fmap (fun r => (fst r, data_size_field (out (snd r))))
    (write_wav_header (plain 44) 103079215056 (set_channels 1 cd_options))
  = Some (1, Some 4294967200)
  /\ 103079215056 * 1 * 2 = 206158430112.
Proof. split; vm_compute; reflexivity. Qed.

(** C5 on the header of 66150 stereo frames *)
Lemma header_layout_witness :
  exists hdr, out cd_header = out (plain 44) ++ hdr
    /\ length hdr = 44%nat
    /\ data_size_field hdr = Some ((66150 * channels cd_options * 2) mod 2 ^ 32).
Proof.
  apply (header_layout (plain 44) 66150 cd_options cd_header).
  vm_compute. reflexivity.
Defined.

(** C6 on two stereo frames with the extreme samples *)
Lemma pack_frames_round_trip_witness :
  exists d', pack_frames (replicate 8 0) [1; -2; 32767; -32768] 2 2 = Some d'
    /\ decode_samples (take (Z.to_nat (2 * 2 * 2)) d') = [1; -2; 32767; -32768].
Proof.
  apply (pack_frames_round_trip 2 2 [1; -2; 32767; -32768] (replicate 8 0)).
  - right. reflexivity.
  - lia.
  - lia.
  - reflexivity.
  - repeat constructor; unfold is_int16; lia.
  - cbn. lia.
Defined.

(** C7 fails on [--track=0]: the status is 1, not [EX_USAGE] (64), and the
    file has been loaded before the check. *)
Lemma track_zero_exit_code :
  outcome (@main demo_xgm (fun _ => Some (1000, 4096)) [opt_t 0] ["a.nsf"; "o.wav"])
  = Some (1, [Nsf (CSetDefaults 300000 5000 2); Nsf (CLoadFile "a.nsf");
              Print stderr MsgTrackNumber])
  /\ EX_USAGE = 64.
Proof. split; vm_compute; reflexivity. Qed.

(** C7 on [--track=0] *)
Lemma track_number_rejected_witness :
  @main demo_xgm (fun _ => None) [opt_t 0] ["a.nsf"; "o.wav"]
  = Halt EXIT_FAILURE
      [Nsf (CSetDefaults 300000 5000 2); Nsf (CLoadFile "a.nsf");
       Print stderr MsgTrackNumber].
Proof.
  refine (@track_number_rejected demo_xgm (fun _ => None) [opt_t 0] "a.nsf" "o.wav"
    (set_track 0 {| length_ms := 300000; fade_ms := 5000; channels := 1;
                    samplerate := 48000; track := 1; quiet := false; mask := 0;
                    mute := 0; trigger := false; lengthForce := false |})
    (with_nsf (fun _ => demo_nsf)
       (@SetDefaults demo_xgm 300000 5000 2 (@boot demo_xgm))) _ _ _ _ _).
  - reflexivity.
  - cbn [channels set_track]. lia.
  - cbn [track set_track]. lia.
  - reflexivity.
  - reflexivity.
Defined.

(** C8 fails in playlist mode: the entry has a time of 5000 ms, the NSF
    object one of 7000 ms, and the length resolved is 7000. *)
Lemma playlist_ignores_track_time :
  playlist_mode playlist_nsf = true
  /\ time (nsfe_entry playlist_nsf 0) = 5000
  /\ fmap length_ms (value (resolve_length 0 demo_options playlist_start)) = Some 7000.
Proof. split; [reflexivity|]. split; [reflexivity|]. vm_compute. reflexivity. Qed.

(** C9 against the code: [--mask=31 --mask_reverse --mute] commits the mute set
    0xFFFFFFFF7FFFFFFF, whose bit 31 is clear; the mask of channel 31 is
    [1 << 31] sign-extended to 0xFFFFFFFF80000000, so the table gives
    channel 31 the volume 0. *)
Lemma channel_31_muted_by_high_bits :
  fmap mute (value (@ParseOptions demo_xgm [opt_m 31; opt_r; opt_u] start))
    = Some 18446744071562067967
  /\ Z.testbit 18446744071562067967 31 = false
  /\ (set_volumes 32 0 18446744071562067967 (config (@boot demo_xgm))
        ≫= fun c => channel c !! (31, "VOL")) = Some 0.
Proof. repeat split; vm_compute; reflexivity. Qed.

(** C10 on two stereo frames *)
Lemma pack_frames_accesses_witness :
  (is_Some (pack_frames (replicate 8 0) [1; -2; 32767; -32768] 2 2)
     <-> 2 * 2 <= Z.of_nat (length [1; -2; 32767; -32768])
         /\ 2 * 2 * 2 <= Z.of_nat (length (replicate 8 0 : list Z)))
  /\ (forall d', pack_frames (replicate 8 0) [1; -2; 32767; -32768] 2 2 = Some d' ->
        d' = encode_samples (take (Z.to_nat (2 * 2)) [1; -2; 32767; -32768])
             ++ drop (Z.to_nat (2 * 2 * 2)) (replicate 8 0))
  /\ (2 <= kFramesToBuffer ->
      Z.of_nat (length [1; -2; 32767; -32768]) = kFramesToBuffer * 2 ->
      Z.of_nat (length (replicate 8 0 : list Z)) = kFramesToBuffer * 2 * 2 ->
      is_Some (pack_frames (replicate 8 0) [1; -2; 32767; -32768] 2 2)).
Proof.
  apply (pack_frames_accesses 2 2 [1; -2; 32767; -32768] (replicate 8 0));
    [right; reflexivity | lia | cbn; lia].
Defined.

(** * Further properties *)

(** ** Early exits *)

Section Steps.
Context {X : Xgm}.

Lemma bind_ret {A B} (a : A) (k : A -> M B) m : bind (ret a) k m = k a m.
Proof. reflexivity. Qed.

Lemma bind_emit {B} e (k : unit -> M B) m :
  bind (emit e) k m = k tt {| world := world m; trace := trace m ++ [e] |}.
Proof. reflexivity. Qed.

Lemma bind_get {B} (k : World Priv -> M B) m : bind get k m = k (world m) m.
Proof. reflexivity. Qed.

Lemma bind_update {B} f (k : unit -> M B) m :
  bind (update f) k m = k tt {| world := f (world m); trace := trace m |}.
Proof. reflexivity. Qed.

Lemma bind_assoc {A B C} (c : M A) (k : A -> M B) (h : B -> M C) m :
  bind (bind c k) h m = bind c (fun a => bind (k a) h) m.
Proof. unfold bind. destruct (c m); reflexivity. Qed.

Lemma bind_halt {A B} (c : M A) (k : A -> M B) m code t :
  c m = Halt code t -> bind c k m = Halt code t.
Proof. intros H. unfold bind. now rewrite H. Qed.

Lemma Usage_halt {A} s code m :
  @Usage X A s code m = Halt code (trace m ++ [Print s MsgUsage]).
Proof. reflexivity. Qed.

Lemma parse_loop_app ds1 : forall ds2 o m,
  parse_loop (ds1 ++ ds2) o m = bind (parse_loop ds1 o) (parse_loop ds2) m.
Proof.
  induction ds1 as [|d ds1 IH]; intros ds2 o m; [reflexivity|].
  cbn [app].
  destruct d; cbn [parse_loop]; try reflexivity;
    (destruct (converts _); [|reflexivity]);
    rewrite bind_assoc; unfold bind at 1 3;
    match goal with |- context [defined ?x] => destruct x as [o1|] end;
    cbn [defined ret undefined]; try reflexivity; apply IH.
Qed.


(** A conversion that throws ends the run on the spot: an option whose
    argument is not a number, or a number outside [int], stops the parser
    by an exception before anything is printed or called. *)
Lemma parse_loop_throws ds1 d ds2 o o1 m :
  parse_loop ds1 o m = Next o1 m -> converts d = false -> d <> opt_h -> d <> opt_unknown ->
  parse_loop (ds1 ++ d :: ds2) o m = Abort (trace m).
Proof.
  intros H1 Hd Hh Hu. rewrite parse_loop_app, (bind_next _ _ _ _ _ H1).
  destruct d; cbn [parse_loop]; try congruence; rewrite Hd; reflexivity.
Qed.

Variable disk : string -> option (Z * Z).

(** [-h] ends the run inside the option parser: the usage text goes to the
    standard output and the status is 0, whatever the other arguments. *)
Theorem help_exits_first ds1 ds2 argv o m1 :
  ParseOptions ds1 start = Next o m1 ->
  main disk (ds1 ++ opt_h :: ds2) argv = Halt EXIT_SUCCESS [Print stdout MsgUsage].
Proof.
  intros HP. pose proof (ParseOptions_machine _ _ _ _ HP) as ->.
  unfold main, main_body. apply bind_halt.
  unfold ParseOptions in *. rewrite bind_get in *. rewrite parse_loop_app.
  rewrite (bind_next _ _ _ _ _ HP). reflexivity.
Qed.

(** An option the parser does not know ends the run with the usage text on
    the standard error and the status [EX_USAGE]. *)
Theorem unknown_option_exits ds1 ds2 argv o m1 :
  ParseOptions ds1 start = Next o m1 ->
  main disk (ds1 ++ opt_unknown :: ds2) argv = Halt EX_USAGE [Print stderr MsgUsage].
Proof.
  intros HP. pose proof (ParseOptions_machine _ _ _ _ HP) as ->.
  unfold main, main_body. apply bind_halt.
  unfold ParseOptions in *. rewrite bind_get in *. rewrite parse_loop_app.
  rewrite (bind_next _ _ _ _ _ HP). reflexivity.
Qed.

(** Without a positional argument, or with more than two, the run ends
    with the usage text and [EX_USAGE], after the defaults were stored in
    the NSF object and before anything is loaded. *)
Theorem wrong_argument_count ds argv (o : Nsf2WavOptions) :
  ParseOptions ds start = Next o start ->
  argv = [] \/ (3 <= length argv)%nat ->
  main disk ds argv
  = Halt EX_USAGE
      [Nsf (CSetDefaults (length_ms o) (fade_ms o) (default_loopnum (nsf boot)));
       Print stderr MsgUsage].
Proof.
  intros HP Hargv. unfold main, main_body. fold (@start X).
  rewrite (bind_next _ _ _ _ _ HP). rewrite bind_get. unfold on_nsf.
  rewrite bind_assoc, bind_emit, bind_update.
  destruct Hargv as [-> | Hlen]; [reflexivity|].
  destruct argv as [|a [|b [|c argv]]]; cbn [length] in Hlen; try lia. reflexivity.
Qed.

(** A negative channel count makes the first buffer allocation throw; the
    run ends by the uncaught exception, before the file is loaded. *)
Theorem negative_channels_abort ds path rest (o : Nsf2WavOptions) :
  ParseOptions ds start = Next o start ->
  - 2 ^ 31 <= channels o < 0 ->
  (length rest <= 1)%nat ->
  main disk ds (path :: rest)
  = Abort [Nsf (CSetDefaults (length_ms o) (fade_ms o) (default_loopnum (nsf boot)))].
Proof.
  intros HP Hch Hlen. unfold main, main_body. fold (@start X).
  rewrite (bind_next _ _ _ _ _ HP). rewrite bind_get. unfold on_nsf.
  rewrite bind_assoc, bind_emit, bind_update.
  assert (new_array (wrap 64 (kFramesToBuffer * wrap 64 (channels o))) 2 = None) as E.
  { unfold new_array, wrap, kFramesToBuffer.
    assert (2 ^ 31 = 2147483648) as E31 by reflexivity.
    assert (2 ^ 64 = 18446744073709551616) as E64 by reflexivity.
    assert (2 ^ 63 = 9223372036854775808) as E63 by reflexivity.
    rewrite E64, E63, E31 in *.
    assert (channels o mod 18446744073709551616 = channels o + 18446744073709551616) as ->.
    { symmetry. apply Z.mod_unique with (q := -1); lia. }
    replace (4096 * (channels o + 18446744073709551616))
      with (4096 * channels o + 18446744073709551616 + 4095 * 18446744073709551616) by lia.
    rewrite Z.mod_add by lia. rewrite Z.mod_small by lia.
    destruct (Z.ltb_spec ((4096 * channels o + 18446744073709551616) * 2) 9223372036854775808); [lia|reflexivity]. }
  destruct rest as [|b [|c rest]]; cbn [length] in Hlen; try lia;
    rewrite E; reflexivity.
Qed.

(** A source that cannot be loaded ends the run with status 1 and the
    loader's message; the player is never touched and no file is opened. *)
Theorem load_failure_exit ds path rest (o : Nsf2WavOptions) w' :
  ParseOptions ds start = Next o start ->
  0 <= channels o < 2 ^ 31 ->
  (length rest <= 1)%nat ->
  LoadFile path
    (SetDefaults (length_ms o) (fade_ms o) (default_loopnum (nsf boot)) boot)
    = (false, w') ->
  main disk ds (path :: rest)
  = Halt 1
      [Nsf (CSetDefaults (length_ms o) (fade_ms o) (default_loopnum (nsf boot)));
       Nsf (CLoadFile path);
       Print stderr (MsgLoadError (LoadError w'))].
Proof.
  intros HP Hch Hlen HL. unfold main, main_body. unfold start in HP.
  rewrite (bind_next _ _ _ _ _ HP). rewrite bind_get. unfold on_nsf.
  rewrite bind_assoc, bind_emit, bind_update.
  destruct (new_array_ok (channels o) Hch) as [E1 E2].
  destruct rest as [|b [|c rest]]; cbn [length] in Hlen; try lia;
    rewrite E1, bind_ret, E2, bind_ret, bind_emit, bind_get; cbn [world start];
    rewrite HL; reflexivity.
Qed.

(** The information mode with [--quiet] prints nothing and succeeds. *)
Theorem info_quiet_exit ds path (o : Nsf2WavOptions) w' :
  ParseOptions ds start = Next o start ->
  0 <= channels o < 2 ^ 31 ->
  quiet o = true ->
  LoadFile path
    (SetDefaults (length_ms o) (fade_ms o) (default_loopnum (nsf boot)) boot)
    = (true, w') ->
  main disk ds [path]
  = Halt EXIT_SUCCESS
      [Nsf (CSetDefaults (length_ms o) (fade_ms o) (default_loopnum (nsf boot)));
       Nsf (CLoadFile path)].
Proof.
  intros HP Hch Hq HL. unfold main, main_body. unfold start in HP.
  rewrite (bind_next _ _ _ _ _ HP). rewrite bind_get. unfold on_nsf.
  rewrite bind_assoc, bind_emit, bind_update.
  destruct (new_array_ok (channels o) Hch) as [E1 E2].
  rewrite E1, bind_ret, E2, bind_ret, bind_emit, bind_get; cbn [world start].
  rewrite HL, bind_update. cbn [negb]. rewrite Hq. reflexivity.
Qed.

End Steps.

(** ** The information mode *)

Section Info.
Context {X : Xgm}.

Lemma list_tracks_S n i m :
  list_tracks (S n) i m
  = match (match nsfe_plst (nsf (world m)) with
           | Some plst => load plst i
           | None => Some (wrap 8 i)
           end) with
    | Some nsfe_i =>
        list_tracks n (i + 1)
          {| world := world m;
             trace := trace m ++ [track_line (nsf (world m)) i nsfe_i] |}
    | None => Undefined
    end.
Proof.
  cbn [list_tracks]. rewrite bind_get.
  destruct (nsfe_plst (nsf (world m))) as [plst|].
  - unfold bind at 1. destruct (load plst i); reflexivity.
  - reflexivity.
Qed.

(** Without an NSFe playlist the track list has one line per track, in
    order, each labelled by the entry of the track's number taken as a
    [uint8_t]. *)
Lemma list_tracks_plain n : forall i m,
  nsfe_plst (nsf (world m)) = None ->
  list_tracks n i m
  = Next tt {| world := world m;
               trace := trace m
                 ++ map (fun j => track_line (nsf (world m)) j (wrap 8 j))
                        (seqZ i (Z.of_nat n)) |}.
Proof.
  induction n as [|n IH]; intros i m Hp.
  - cbn [list_tracks ret]. change (seqZ i (Z.of_nat 0)) with (@nil Z).
    cbn [map]. rewrite app_nil_r. now destruct m.
  - rewrite list_tracks_S, Hp. rewrite IH by exact Hp. cbn [world trace].
    rewrite <- app_assoc. do 3 f_equal.
    rewrite Nat2Z.inj_succ, (seqZ_cons i) by lia. cbn [map app].
    do 3 f_equal. lia.
Qed.

(** With an NSFe playlist the lines follow the playlist: line [i] shows the
    label of the entry the playlist names at position [i]. *)
Theorem list_tracks_playlist n : forall i m plst,
  nsfe_plst (nsf (world m)) = Some plst ->
  0 <= i -> i + Z.of_nat n <= Z.of_nat (length plst) ->
  list_tracks n i m
  = Next tt {| world := world m;
               trace := trace m
                 ++ imap (fun j e => track_line (nsf (world m)) (i + Z.of_nat j) e)
                         (take n (drop (Z.to_nat i) plst)) |}.
Proof.
  induction n as [|n IH]; intros i m plst Hp Hi Hn.
  - cbn [list_tracks ret take imap]. rewrite app_nil_r. now destruct m.
  - rewrite list_tracks_S, Hp.
    destruct (lookup_lt_is_Some_2 plst (Z.to_nat i) ltac:(lia)) as [e He].
    unfold load. destruct (Z.leb_spec 0 i); [|lia]. rewrite He.
    rewrite (IH (i + 1) _ plst) by (cbn [world]; (assumption || lia)).
    cbn [world trace]. rewrite <- app_assoc. do 3 f_equal.
    rewrite (drop_S _ _ _ He). cbn [take imap app].
    rewrite Z.add_0_r. f_equal.
    replace (Z.to_nat (i + 1)) with (S (Z.to_nat i)) by lia.
    apply imap_ext. intros j x _. unfold compose.
    replace (i + Z.of_nat (S j)) with (i + 1 + Z.of_nat j) by lia. reflexivity.
Qed.

(** A playlist shorter than the number of tracks to list is read past its
    end. *)
Theorem list_tracks_overrun n : forall i m plst,
  nsfe_plst (nsf (world m)) = Some plst ->
  0 <= i <= Z.of_nat (length plst) -> Z.of_nat (length plst) < i + Z.of_nat n ->
  list_tracks n i m = Undefined.
Proof.
  induction n as [|n IH]; intros i m plst Hp Hi Hn; [lia|].
  rewrite list_tracks_S, Hp. unfold load. destruct (Z.leb_spec 0 i); [|lia].
  destruct (plst !! Z.to_nat i) as [e|] eqn:He; [|reflexivity].
  apply lookup_lt_Some in He.
  apply (IH (i + 1) _ plst); cbn [world]; (assumption || lia).
Qed.

End Info.

Section Events.
Context {X : Xgm}.
Variable P : event -> bool.
Variable Q : Z -> bool.

Lemma extends_trans {A} (m m' : Machine) (r : result A) t :
  trace m' = trace m ++ t -> forallb P t = true ->
  extends P Q m' r -> extends P Q m r.
Proof.
  intros Ht HP. destruct r as [a m2|code t2|t2|]; cbn [extends]; [| | |trivial].
  - intros (t' & E & HP'). exists (t ++ t'). rewrite E, Ht, <- app_assoc.
    split; [reflexivity|]. rewrite forallb_app, HP, HP'. reflexivity.
  - intros (HQ & t' & E & HP'). split; [exact HQ|].
    exists (t ++ t'). rewrite E, Ht, <- app_assoc.
    split; [reflexivity|]. rewrite forallb_app, HP, HP'. reflexivity.
  - intros (t' & E & HP'). exists (t ++ t'). rewrite E, Ht, <- app_assoc.
    split; [reflexivity|]. rewrite forallb_app, HP, HP'. reflexivity.
Qed.

Lemma only_ret {A} (a : A) : only P Q (ret a).
Proof. intros m. exists []. split; [now rewrite app_nil_r|reflexivity]. Qed.

Lemma only_get : only P Q get.
Proof. intros m. exists []. split; [now rewrite app_nil_r|reflexivity]. Qed.

Lemma only_update f : only P Q (update f).
Proof. intros m. exists []. split; [now rewrite app_nil_r|reflexivity]. Qed.

Lemma only_exit {A} code : Q code = true -> only P Q (@exit X A code).
Proof.
  intros HQ m. split; [exact HQ|].
  exists []. split; [now rewrite app_nil_r|reflexivity].
Qed.

Lemma only_throw {A} : only P Q (@throw X A).
Proof. intros m. exists []. split; [now rewrite app_nil_r|reflexivity]. Qed.

Lemma only_undefined {A} : only P Q (@undefined X A).
Proof. intros m. exact I. Qed.

Lemma only_defined {A} (o : option A) : only P Q (defined o).
Proof. destruct o; [apply only_ret | apply only_undefined]. Qed.

Lemma only_emit e : P e = true -> only P Q (emit e).
Proof.
  intros He m. exists [e]. split; [reflexivity|]. cbn [forallb]. now rewrite He.
Qed.

Lemma only_bind {A B} (c : M A) (k : A -> M B) :
  only P Q c -> (forall a, only P Q (k a)) -> only P Q (bind c k).
Proof.
  intros Hc Hk m. specialize (Hc m). unfold bind.
  destruct (c m) as [a m'|code t|t|]; [|exact Hc|exact Hc|exact I].
  destruct Hc as (t & Ht & HP). exact (extends_trans m m' _ t Ht HP (Hk a m')).
Qed.

End Events.

Ltac only_step :=
  first
    [ apply only_ret | apply only_get | apply only_update
    | apply only_exit; reflexivity
    | apply only_throw | apply only_undefined | apply only_defined
    | apply only_emit; reflexivity
    | apply only_bind; [|intros ?] ].

Section InfoMode.
Context {X : Xgm}.

Lemma only_Usage {A} P Q s code :
  P (Print s MsgUsage) = true -> Q code = true -> only P Q (@Usage X A s code).
Proof.
  intros HP HQ. unfold Usage, print.
  apply only_bind; [now apply only_emit|intros _]. now apply only_exit.
Qed.

Lemma only_parse_loop P Q ds :
  (forall s, P (Print s MsgUsage) = true) ->
  Q EX_USAGE = true -> (opt_h ∈ ds -> Q EXIT_SUCCESS = true) ->
  forall o, only P Q (parse_loop ds o).
Proof.
  intros HP HQ. induction ds as [|d ds IH]; intros Hh o; [apply only_ret|].
  assert (opt_h ∈ ds -> Q EXIT_SUCCESS = true) as Hh'
    by (intros Hin; apply Hh, elem_of_cons; now right).
  destruct d; cbn [parse_loop];
    try (destruct (converts _); [|apply only_throw];
         apply only_bind; [apply only_defined | intros ?; now apply IH]).
  - apply only_Usage; [apply HP|]. apply Hh, elem_of_cons. now left.
  - apply only_Usage; [apply HP|exact HQ].
Qed.

Lemma only_list_tracks Q n : forall i, only is_info_event Q (list_tracks n i).
Proof.
  induction n as [|n IH]; intros i; cbn [list_tracks]; [apply only_ret|].
  apply only_bind; [apply only_get|intros w].
  apply only_bind; [destruct (nsfe_plst (nsf w)); only_step|intros e].
  apply only_bind; [apply only_emit; reflexivity|intros _]. apply IH.
Qed.

Variable disk : string -> option (Z * Z).

Lemma only_info ds path : only is_info_event any_status (main_body disk ds [path]).
Proof.
  unfold main_body, ParseOptions, on_nsf, print.
  apply only_bind; [|intros o].
  { apply only_bind; [apply only_get|intros w]. now apply only_parse_loop. }
  apply only_bind; [apply only_get|intros w].
  apply only_bind; [repeat only_step|intros _].
  apply only_bind; [destruct (new_array _ _); only_step|intros buf].
  apply only_bind; [destruct (new_array _ _); only_step|intros pac].
  apply only_bind; [only_step|intros _].
  apply only_bind; [apply only_get|intros w0].
  destruct (LoadFile path w0) as [ok w1].
  apply only_bind; [only_step|intros _].
  destruct ok; cbn [negb]; [|repeat only_step].
  destruct (quiet o); [only_step|].
  do 4 (apply only_bind; [only_step|intros _]).
  destruct (playlist_mode (nsf w1)).
  - repeat only_step.
  - apply only_bind; [apply only_list_tracks|intros _]. only_step.
Qed.

(** The information mode calls the NSF object and prints; it never calls
    the player, and never opens or closes a file. *)
Theorem info_mode_events ds path code t :
  main disk ds [path] = Halt code t -> forallb is_info_event t = true.
Proof.
  intros H. pose proof (only_info ds path start) as HE.
  unfold main in H. fold (@start X) in H. rewrite H in HE.
  destruct HE as (_ & t' & -> & HP). exact HP.
Qed.

(** The track list of the information mode, for a source without NSFe
    playlist: the four header lines, then one line per track. *)
Theorem info_track_list ds path (o : Nsf2WavOptions) w' :
  ParseOptions ds start = Next o start ->
  0 <= channels o < 2 ^ 31 ->
  quiet o = false ->
  LoadFile path
    (SetDefaults (length_ms o) (fade_ms o) (default_loopnum (nsf boot)) boot)
    = (true, w') ->
  playlist_mode (nsf w') = false ->
  nsfe_plst (nsf w') = None ->
  main disk ds [path]
  = Halt EXIT_SUCCESS
      ([Nsf (CSetDefaults (length_ms o) (fade_ms o) (default_loopnum (nsf boot)));
        Nsf (CLoadFile path);
        Print stdout (MsgTitle (title (nsf w')));
        Print stdout (MsgArtist (artist (nsf w')));
        Print stdout (MsgCopyright (copyright (nsf w')));
        Print stdout (MsgRipper (ripper (nsf w')))]
       ++ map (fun j => track_line (nsf w') j (wrap 8 j))
              (seqZ 0 (if 0 <? nsfe_plst_size (nsf w')
                       then nsfe_plst_size (nsf w') else total_songs (nsf w')))).
Proof.
  intros HP Hch Hq HL Hpl Hplst. unfold main, main_body. unfold start in HP.
  rewrite (bind_next _ _ _ _ _ HP). rewrite bind_get. unfold on_nsf.
  rewrite bind_assoc, bind_emit, bind_update.
  destruct (new_array_ok (channels o) Hch) as [E1 E2].
  rewrite E1, bind_ret, E2, bind_ret, bind_emit, bind_get; cbn [world start].
  rewrite HL, bind_update. cbn [negb]. rewrite Hq. unfold print.
  rewrite !bind_emit. rewrite Hpl. cbv zeta.
  set (n := if 0 <? nsfe_plst_size (nsf w') then nsfe_plst_size (nsf w')
            else total_songs (nsf w')).
  unfold bind at 1. rewrite list_tracks_plain by exact Hplst.
  cbn [exit world trace app].
  replace (seqZ 0 (Z.of_nat (Z.to_nat n))) with (seqZ 0 n); [reflexivity|].
  unfold seqZ. now rewrite Nat2Z.id.
Qed.

(** The information mode on a playlist entry prints the header lines and
    the one line of the entry. *)
Theorem info_playlist_entry ds path (o : Nsf2WavOptions) w' :
  ParseOptions ds start = Next o start ->
  0 <= channels o < 2 ^ 31 ->
  quiet o = false ->
  LoadFile path
    (SetDefaults (length_ms o) (fade_ms o) (default_loopnum (nsf boot)) boot)
    = (true, w') ->
  playlist_mode (nsf w') = true ->
  song (nsf w') < 2 ^ 31 - 1 -> - 2 ^ 31 <= song (nsf w') ->
  main disk ds [path]
  = Halt EXIT_SUCCESS
      [Nsf (CSetDefaults (length_ms o) (fade_ms o) (default_loopnum (nsf boot)));
       Nsf (CLoadFile path);
       Print stdout (MsgTitle (title (nsf w')));
       Print stdout (MsgArtist (artist (nsf w')));
       Print stdout (MsgCopyright (copyright (nsf w')));
       Print stdout (MsgRipper (ripper (nsf w')));
       Print stdout (MsgTrack (song (nsf w') + 1) (GetTitleString w' None))].
Proof.
  intros HP Hch Hq HL Hpl Hs1 Hs2. unfold main, main_body. unfold start in HP.
  rewrite (bind_next _ _ _ _ _ HP). rewrite bind_get. unfold on_nsf.
  rewrite bind_assoc, bind_emit, bind_update.
  destruct (new_array_ok (channels o) Hch) as [E1 E2].
  rewrite E1, bind_ret, E2, bind_ret, bind_emit, bind_get; cbn [world start].
  rewrite HL, bind_update. cbn [negb]. rewrite Hq. unfold print.
  rewrite !bind_emit. rewrite Hpl.
  assert (iadd (song (nsf w')) 1 = Some (song (nsf w') + 1)) as ->.
  { unfold iadd, in_int. change (2 ^ (32 - 1)) with (2 ^ 31).
    destruct (Z.leb_spec (- 2 ^ 31) (song (nsf w') + 1)); [|lia].
    destruct (Z.ltb_spec (song (nsf w') + 1) (2 ^ 31)); [|lia]. reflexivity. }
  reflexivity.
Qed.

End InfoMode.

(** ** Masks and the volume table *)

Lemma volume_of_low mute j :
  0 <= j < 31 -> volume_of mute j = Some (if Z.testbit mute j then 0 else 128).
Proof.
  intros Hj. unfold volume_of. rewrite shl1_int_low by assumption.
  cbn [mbind option_bind].
  assert (0 < 2 ^ j) by (apply Z.pow_pos_nonneg; lia).
  assert (2 ^ j < 2 ^ 64) by (apply Z.pow_lt_mono_r; lia).
  rewrite wrap_small by lia. rewrite land_pow2 by lia.
  destruct (Z.testbit mute j); reflexivity.
Qed.

Lemma land_high_bits mute :
  0 <= mute < 2 ^ 64 -> Z.land mute (2 ^ 64 - 2 ^ 31) = Z.shiftl (Z.shiftr mute 31) 31.
Proof.
  intros Hm. apply Z.bits_inj'. intros k Hk.
  rewrite Z.land_spec, high_bits_const by lia.
  destruct (Z.leb_spec 31 k).
  - rewrite Z.shiftl_spec, Z.shiftr_spec by lia. replace (k - 31 + 31) with k by lia.
    destruct (Z.ltb_spec k 64); cbn [andb]; [now rewrite andb_true_r|].
    rewrite andb_false_r. symmetry.
    destruct (Z.eq_dec mute 0) as [->|Hz]; [apply Z.bits_0|].
    apply Z.bits_above_log2; [lia|]. apply Z.log2_lt_pow2; [lia|].
    assert (2 ^ 64 <= 2 ^ k) by (apply Z.pow_le_mono_r; lia). lia.
  - cbn [andb]. rewrite andb_false_r. symmetry.
    rewrite Z.shiftl_spec by lia. apply Z.testbit_neg_r. lia.
Qed.

Lemma volume_of_31 mute :
  0 <= mute < 2 ^ 64 -> volume_of mute 31 = Some (if mute <? 2 ^ 31 then 128 else 0).
Proof.
  intros Hm. unfold volume_of. rewrite shl1_int_31. cbn [mbind option_bind].
  change (wrap 64 (- 2 ^ 31)) with (2 ^ 64 - 2 ^ 31).
  rewrite land_high_bits by assumption.
  rewrite Z.shiftl_mul_pow2, Z.shiftr_div_pow2 by lia.
  assert (0 <= mute / 2 ^ 31) by (apply Z.div_pos; lia).
  destruct (Z.ltb_spec mute (2 ^ 31)).
  - rewrite Z.div_small by lia. reflexivity.
  - assert (1 <= mute / 2 ^ 31) by (apply Z.div_le_lower_bound; lia).
    destruct (Z.eqb_spec (mute / 2 ^ 31 * 2 ^ 31) 0); [lia|reflexivity].
Qed.

(** The volume table against the bits of the mute set: below channel 31 a
    channel is silenced exactly when its bit is set; channel 31 is silenced
    exactly when any of the bits 31 to 63 is, that is when the set, as a
    number, is 2^31 or more. *)
Theorem volume_table_bits mute (c : Config) j :
  0 <= mute < 2 ^ 64 -> 0 <= j < 32 ->
  exists c', set_volumes 32 0 mute c = Some c'
    /\ channel c' !! (j, "VOL")
       = Some (if (if j <? 31 then Z.testbit mute j else 2 ^ 31 <=? mute)
               then 0 else 128).
Proof.
  intros Hm Hj. destruct (set_volumes_spec 32 0 mute c) as (c' & E & _ & Hc); [lia|lia|].
  exists c'. split; [exact E|]. rewrite Hc.
  destruct (Z.leb_spec 0 j); [|lia]. destruct (Z.ltb_spec j (0 + Z.of_nat 32)); [|lia].
  cbn [andb]. destruct (Z.ltb_spec j 31).
  - now rewrite volume_of_low by lia.
  - replace j with 31 by lia. rewrite volume_of_31 by assumption.
    destruct (Z.ltb_spec mute (2 ^ 31)); destruct (Z.leb_spec (2 ^ 31) mute); (reflexivity || lia).
Qed.

Lemma set_volumes_keys n : forall i mute c c',
  set_volumes n i mute c = Some c' ->
  global c' = global c
  /\ forall j k, k <> "VOL" \/ j < i \/ i + Z.of_nat n <= j ->
       channel c' !! (j, k) = channel c !! (j, k).
Proof.
  induction n as [|n IH]; intros i mute c c'; cbn [set_volumes].
  - intros [= <-]. split; reflexivity.
  - destruct (shl1_int i) as [b|]; [|discriminate]. cbn [mbind option_bind].
    intros H. apply IH in H. destruct H as [Hg Hc]. split; [exact Hg|].
    intros j k Hjk. rewrite Hc by (destruct Hjk as [?|?]; [now left | right; lia]).
    cbn [channel set_channel].
    apply lookup_insert_ne. intros [= <- <-]. destruct Hjk as [?|?]; [congruence|lia].
Qed.

(** The volume loop is defined for every mute set, and writes the [VOL]
    entries of the channels 0 to 31 and nothing else: the global settings
    and every other channel entry keep their values. *)
Theorem set_volumes_frame mute (c : Config) :
  exists c', set_volumes 32 0 mute c = Some c'
    /\ global c' = global c
    /\ forall j k, k <> "VOL" \/ j < 0 \/ 32 <= j ->
         channel c' !! (j, k) = channel c !! (j, k).
Proof.
  destruct (set_volumes_spec 32 0 mute c) as (c' & E & _ & _); [lia|lia|].
  exists c'. split; [exact E|].
  apply set_volumes_keys in E. destruct E as [Hg Hc].
  split; [exact Hg|]. intros j k Hjk. apply Hc.
  destruct Hjk as [?|?]; [now left | right; lia].
Qed.

Section Select.
Context {X : Xgm}.

Lemma parse_select js : forall (o : Nsf2WavOptions) (m : Machine),
  Forall (fun j => 0 <= j < 31) js ->
  0 <= mask o < 2 ^ 31 ->
  exists v, parse_loop (map opt_m js) o m = Next (set_mask v o) m
    /\ 0 <= v < 2 ^ 31
    /\ forall i, 0 <= i -> Z.testbit v i = Z.testbit (mask o) i || bool_decide (i ∈ js).
Proof.
  induction js as [|j js IH]; intros o m Hjs Hm.
  - exists (mask o). split; [now destruct o|]. split; [assumption|].
    intros i Hi. rewrite bool_decide_eq_false_2 by apply not_elem_of_nil.
    now rewrite orb_false_r.
  - apply Forall_cons in Hjs. destruct Hjs as [Hj Hjs].
    cbn [map parse_loop converts].
    rewrite in_int_32 by (change (2 ^ 31) with 2147483648; lia).
    unfold bind at 1. cbn [apply_option].
    rewrite shl1_int_low by assumption. cbn [mbind option_bind defined ret].
    assert (0 < 2 ^ j) by (apply Z.pow_pos_nonneg; lia).
    assert (2 ^ j < 2 ^ 31) by (apply Z.pow_lt_mono_r; lia).
    assert (2 ^ 31 < 2 ^ 64) by reflexivity.
    rewrite wrap_small by lia.
    assert (0 <= Z.lor (mask o) (2 ^ j) < 2 ^ 31) as Hb.
    { split; [apply Z.lor_nonneg; lia|].
      destruct (Z.eq_dec (Z.lor (mask o) (2 ^ j)) 0) as [->|Hnz]; [lia|].
      apply Z.log2_lt_pow2; [pose proof (Z.lor_nonneg (mask o) (2 ^ j)); lia|].
      rewrite Z.log2_lor by lia. rewrite Z.log2_pow2 by lia.
      destruct (Z.eq_dec (mask o) 0) as [E|E]; [rewrite E; cbn; lia|].
      assert (Z.log2 (mask o) < 31) by (apply Z.log2_lt_pow2; lia). lia. }
    destruct (IH (set_mask (Z.lor (mask o) (2 ^ j)) o) m Hjs) as (v & E & Hv & Hbits);
      [cbn [mask set_mask]; exact Hb|].
    exists v. split; [rewrite E; reflexivity|]. split; [exact Hv|].
    intros i Hi. rewrite Hbits by assumption. cbn [mask set_mask].
    rewrite Z.lor_spec, Z.pow2_bits_eqb by lia. rewrite <- orb_assoc. f_equal.
    destruct (Z.eqb_spec j i) as [->|Hne].
    + rewrite (bool_decide_eq_true_2 (i ∈ i :: js)) by (apply elem_of_cons; now left).
      reflexivity.
    + cbn [orb]. apply bool_decide_ext. rewrite elem_of_cons. intuition congruence.
Qed.

(** [--mask=j] for channels below 31, any number of times, sets exactly the
    bits of the channels named and keeps the ones already set. *)
Theorem mask_select_bits js (o : Nsf2WavOptions) (m : Machine) :
  Forall (fun j => 0 <= j < 31) js ->
  0 <= mask o < 2 ^ 31 ->
  exists o', parse_loop (map opt_m js) o m = Next o' m
    /\ mute o' = mute o
    /\ forall i, 0 <= i ->
         Z.testbit (mask o') i = Z.testbit (mask o) i || bool_decide (i ∈ js).
Proof.
  intros Hjs Hm. destruct (parse_select js o m Hjs Hm) as (v & E & _ & Hbits).
  exists (set_mask v o). split; [exact E|]. split; [reflexivity|]. exact Hbits.
Qed.

(** [--mask=j ... --mute]: the channels named, and only they, get volume 0. *)
Theorem mute_selected_channels js (o : Nsf2WavOptions) (m : Machine) (c : Config) :
  Forall (fun j => 0 <= j < 31) js ->
  mask o = 0 ->
  exists o' c', parse_loop (map opt_m js ++ [opt_u]) o m = Next o' m
    /\ mask o' = 0
    /\ set_volumes 32 0 (mute o') c = Some c'
    /\ forall i, 0 <= i < 32 ->
         channel c' !! (i, "VOL") = Some (if bool_decide (i ∈ js) then 0 else 128).
Proof.
  intros Hjs Hm.
  destruct (parse_select js o m Hjs ltac:(rewrite Hm; lia)) as (v & E & Hv & Hbits).
  rewrite parse_loop_app, (bind_next _ _ _ _ _ E).
  assert (2 ^ 31 < 2 ^ 64) by reflexivity.
  destruct (set_volumes_spec 32 0 v c) as (c' & Ec & _ & Hc); [lia|lia|].
  exists (set_mask 0 (set_mute v (set_mask v o))), c'.
  split; [reflexivity|]. split; [reflexivity|]. cbn [mute set_mask set_mute].
  split; [exact Ec|]. intros i Hi. rewrite Hc.
  destruct (Z.leb_spec 0 i); [|lia]. destruct (Z.ltb_spec i (0 + Z.of_nat 32)); [|lia].
  cbn [andb]. destruct (Z.lt_ge_cases i 31).
  - rewrite volume_of_low, Hbits, Hm, Z.bits_0 by lia. reflexivity.
  - replace i with 31 by lia. rewrite volume_of_31 by lia.
    destruct (Z.ltb_spec v (2 ^ 31)); [|lia].
    rewrite bool_decide_eq_false_2; [reflexivity|].
    intros Hin. rewrite Forall_forall in Hjs. specialize (Hjs 31 Hin). lia.
Qed.

(** [--mask=j ... --mask_reverse --mute]: the channels named, and only
    they, keep full volume. *)
Theorem solo_selected_channels js (o : Nsf2WavOptions) (m : Machine) (c : Config) :
  Forall (fun j => 0 <= j < 31) js ->
  mask o = 0 ->
  exists o' c', parse_loop (map opt_m js ++ [opt_r; opt_u]) o m = Next o' m
    /\ mask o' = 0
    /\ set_volumes 32 0 (mute o') c = Some c'
    /\ forall i, 0 <= i < 32 ->
         channel c' !! (i, "VOL") = Some (if bool_decide (i ∈ js) then 128 else 0).
Proof.
  intros Hjs Hm.
  destruct (parse_select js o m Hjs ltac:(rewrite Hm; lia)) as (v & E & Hv & Hbits).
  rewrite parse_loop_app, (bind_next _ _ _ _ _ E).
  assert (2 ^ 31 < 2 ^ 64) by reflexivity.
  assert (2 ^ 31 = 2147483648) as E31 by reflexivity.
  assert (2 ^ 64 = 18446744073709551616) as E64 by reflexivity.
  assert (Z.lxor v 4294967295 = 4294967295 - v) as Ex.
  { assert (Z.lxor v 4294967295 + v = 4294967295) as Es; [|lia].
    rewrite Z.add_nocarry_lxor.
    - rewrite (Z.lxor_comm v), Z.lxor_assoc, Z.lxor_nilpotent. apply Z.lxor_0_r.
    - apply Z.bits_inj'. intros k Hk.
      rewrite Z.land_spec, mask_reverse_bits, Z.bits_0 by lia.
      destruct (Z.ltb_spec k 32); [apply andb_negb_l|].
      destruct (Z.eq_dec v 0) as [->|Hz]; [now rewrite Z.bits_0|].
      rewrite Z.bits_above_log2; [reflexivity|lia|].
      assert (Z.log2 v < 31) by (apply Z.log2_lt_pow2; lia). lia. }
  destruct (set_volumes_spec 32 0 (Z.lxor v 4294967295) c) as (c' & Ec & _ & Hc); [lia|lia|].
  exists (set_mask 0 (set_mute (Z.lxor v 4294967295) (set_mask (Z.lxor v 4294967295) (set_mask v o)))), c'.
  split; [reflexivity|]. split; [reflexivity|]. cbn [mute set_mask set_mute].
  split; [exact Ec|]. intros i Hi. rewrite Hc.
  destruct (Z.leb_spec 0 i); [|lia]. destruct (Z.ltb_spec i (0 + Z.of_nat 32)); [|lia].
  cbn [andb]. destruct (Z.lt_ge_cases i 31).
  - rewrite volume_of_low, mask_reverse_bits, Hbits, Hm, Z.bits_0 by lia.
    destruct (Z.ltb_spec i 32); [|lia]. cbn [orb].
    destruct (bool_decide (i ∈ js)); reflexivity.
  - replace i with 31 by lia. rewrite volume_of_31 by lia.
    destruct (Z.ltb_spec (Z.lxor v 4294967295) (2 ^ 31)); [lia|].
    rewrite bool_decide_eq_false_2; [reflexivity|].
    intros Hin. rewrite Forall_forall in Hjs. specialize (Hjs 31 Hin). lia.
Qed.

End Select.

(** ** The header and the payload writer *)

(** an unbuffered stream, state by state *)
Lemma put_plain o r bytes n k :
  0 < n <= Z.of_nat (length bytes) -> n <= r ->
  put bytes n {| out := o; room := r; held := 0; cap := 0 |} k
  = k {| out := o ++ take (Z.to_nat n) bytes; room := r - n; held := 0; cap := 0 |}.
Proof.
  intros Hn Hr. unfold put, fwrite, written. rewrite Z.mul_1_l. cbn [out room held cap].
  destruct (Z.ltb_spec (Z.of_nat (length bytes)) n); [lia|].
  destruct (Z.leb_spec n 0); [lia|].
  destruct (Z.leb_spec (0 + n) 0); [lia|].
  destruct (Z.leb_spec n r); [|lia]. cbn [orb mbind option_bind].
  now rewrite Z.eqb_refl.
Qed.

Lemma put_plain_fail o r bytes n k :
  0 <= r < n -> n <= Z.of_nat (length bytes) ->
  put bytes n {| out := o; room := r; held := 0; cap := 0 |} k
  = Some (0, {| out := o ++ take (Z.to_nat r) bytes; room := 0; held := 0; cap := 0 |}).
Proof.
  intros Hr Hn. unfold put, fwrite, cut. rewrite Z.mul_1_l. cbn [out room held cap].
  destruct (Z.ltb_spec (Z.of_nat (length bytes)) n); [lia|].
  destruct (Z.leb_spec n 0); [lia|].
  destruct (Z.leb_spec (0 + n) 0); [lia|].
  destruct (Z.leb_spec n r); [lia|]. cbn [orb mbind option_bind].
  rewrite Z.div_1_r. destruct (Z.eqb_spec (Z.max 0 r) n); [lia|].
  do 3 f_equal.
  rewrite Z2Nat.inj_add, Nat2Z.id by lia.
  rewrite take_app_add, take_take. do 2 f_equal. lia.
Qed.

Lemma put_packed32_plain a b c d v o r k :
  4 <= r ->
  put_packed pack_uint32le v 4 ([a; b; c; d], {| out := o; room := r; held := 0; cap := 0 |}) k
  = k (bytes4 v, {| out := o ++ bytes4 v; room := r - 4; held := 0; cap := 0 |}).
Proof.
  intros Hr. unfold put_packed. cbn [fst snd].
  change (pack_uint32le [a; b; c; d] 0 v) with (Some (bytes4 v)).
  cbn [mbind option_bind]. now rewrite put_plain by (cbn [length bytes4]; lia).
Qed.

Lemma put_packed16_plain a b c d v o r k :
  2 <= r ->
  put_packed pack_uint16le v 2 ([a; b; c; d], {| out := o; room := r; held := 0; cap := 0 |}) k
  = k (bytes2 v ++ [c; d], {| out := o ++ bytes2 v; room := r - 2; held := 0; cap := 0 |}).
Proof.
  intros Hr. unfold put_packed. cbn [fst snd].
  change (pack_uint16le [a; b; c; d] 0 v) with (Some (bytes2 v ++ [c; d])).
  cbn [mbind option_bind]. now rewrite put_plain by (cbn [length bytes2 app]; lia).
Qed.

Lemma put_packed32_plain_fail a b c d v o r k :
  0 <= r < 4 ->
  put_packed pack_uint32le v 4 ([a; b; c; d], {| out := o; room := r; held := 0; cap := 0 |}) k
  = Some (0, {| out := o ++ take (Z.to_nat r) (bytes4 v); room := 0; held := 0; cap := 0 |}).
Proof.
  intros Hr. unfold put_packed. cbn [fst snd].
  change (pack_uint32le [a; b; c; d] 0 v) with (Some (bytes4 v)).
  cbn [mbind option_bind]. now rewrite put_plain_fail by (cbn [length bytes4]; lia).
Qed.

Lemma put_packed16_plain_fail a b c d v o r k :
  0 <= r < 2 ->
  put_packed pack_uint16le v 2 ([a; b; c; d], {| out := o; room := r; held := 0; cap := 0 |}) k
  = Some (0, {| out := o ++ take (Z.to_nat r) (bytes2 v ++ [c; d]); room := 0;
                held := 0; cap := 0 |}).
Proof.
  intros Hr. unfold put_packed. cbn [fst snd].
  change (pack_uint16le [a; b; c; d] 0 v) with (Some (bytes2 v ++ [c; d])).
  cbn [mbind option_bind]. now rewrite put_plain_fail by (cbn [length bytes2 app]; lia).
Qed.

Ltac short_done Hlen :=
  eexists; split; [reflexivity|]; split; [reflexivity|]; cbn [out room];
  unfold tag_RIFF, tag_WAVE, tag_fmt, tag_data, bytes4, bytes2; cbn [app];
  rewrite Hlen by (cbn [length]; lia);
  rewrite ?length_app, ?length_take; cbn [length]; lia.

Ltac header_tidy := cbv beta iota; unfold bytes4, bytes2; cbn [app].
Ltac header_put :=
  rewrite put_plain;
  [|unfold tag_RIFF, tag_WAVE, tag_fmt, tag_data; cbn [length]; lia|lia]; header_tidy.
Ltac header_put32 := rewrite put_packed32_plain; [|lia]; header_tidy.
Ltac header_put16 := rewrite put_packed16_plain; [|lia]; header_tidy.

(** one write of the header that goes through, on any stream: [side]
    shows that it fits the buffer or that the file has room, [keep] says
    what to do with the fact on the buffer's fill *)
Ltac header_take side keep :=
  lazymatch goal with
  | |- context [put_packed pack_uint32le ?v 4 ([?a; ?b; ?c; ?d], ?f) ?k] =>
      let Eh := fresh "Eh" in
      destruct (put_packed32_taken a b c d v f k) as (? & Eput & ? & ? & ? & Eh);
      [side|rewrite Eput; clear Eput; header_tidy; keep Eh]
  | |- context [put_packed pack_uint16le ?v 2 ([?a; ?b; ?c; ?d], ?f) ?k] =>
      let Eh := fresh "Eh" in
      destruct (put_packed16_taken a b c d v f k) as (? & Eput & ? & ? & ? & Eh);
      [side|rewrite Eput; clear Eput; header_tidy; keep Eh]
  | |- context [put ?b ?n ?f ?k] =>
      let Eh := fresh "Eh" in
      destruct (put_taken b n f k) as (? & Eput & ? & ? & ? & Eh);
      [unfold tag_RIFF, tag_WAVE, tag_fmt, tag_data; cbn [length]; lia
      |side|rewrite Eput; clear Eput; header_tidy; keep Eh]
  end.

Ltac header_room := header_take ltac:(right; lia) ltac:(fun H => clear H).

Ltac header_buf := header_take ltac:(left; lia) ltac:(fun H => specialize (H ltac:(lia))).

Ltac header_out :=
  repeat match goal with
         | H : out ?g = _ |- context [out ?g] => rewrite H
         end;
  unfold wav_header, tag_RIFF, tag_WAVE, tag_fmt, tag_data, bytes4, bytes2;
  cbv zeta; rewrite <- !app_assoc; reflexivity.

Lemma header_written_bytes f totalFrames (o : Nsf2WavOptions) rate byterate :
  44 <= room f ->
  Double.to_uint 32 (samplerate o) = Some rate ->
  Double.to_uint 32
    (Double.mul (Double.mul (samplerate o) (Double.of_Z (channels o))) (Double.of_Z 2))
    = Some byterate ->
  exists f', write_wav_header f totalFrames o = Some (1, f')
    /\ out f' = out f ++ wav_header totalFrames o rate byterate
    /\ room f' = room f - 44
    /\ cap f' = cap f.
Proof.
  intros Hr E1 E2. unfold write_wav_header. cbv zeta.
  do 7 header_room.
  rewrite E1. cbn [mbind option_bind]. header_room.
  rewrite E2. cbn [mbind option_bind]. do 5 header_room.
  eexists. split; [reflexivity|]. split; [header_out|]. split; lia.
Qed.

Lemma header_buffered f totalFrames (o : Nsf2WavOptions) rate byterate :
  held f + 44 <= cap f ->
  Double.to_uint 32 (samplerate o) = Some rate ->
  Double.to_uint 32
    (Double.mul (Double.mul (samplerate o) (Double.of_Z (channels o))) (Double.of_Z 2))
    = Some byterate ->
  exists f', write_wav_header f totalFrames o = Some (1, f')
    /\ out f' = out f ++ wav_header totalFrames o rate byterate
    /\ room f' = room f - 44
    /\ held f' = held f + 44
    /\ cap f' = cap f.
Proof.
  intros Hr E1 E2. unfold write_wav_header. cbv zeta.
  do 7 header_buf.
  rewrite E1. cbn [mbind option_bind]. header_buf.
  rewrite E2. cbn [mbind option_bind]. do 5 header_buf.
  eexists. split; [reflexivity|]. split; [header_out|]. repeat split; lia.
Qed.

Lemma whole_rate_fields (o : Nsf2WavOptions) n :
  channels o = 1 \/ channels o = 2 ->
  samplerate o = inject_Z n -> 0 <= n < 2 ^ 30 ->
  Double.to_uint 32 (samplerate o) = Some n
  /\ Double.to_uint 32
       (Double.mul (Double.mul (samplerate o) (Double.of_Z (channels o))) (Double.of_Z 2))
     = Some (n * channels o * 2).
Proof.
  intros Hch Hs Hn.
  assert (2 ^ 30 = 1073741824) as E30 by reflexivity.
  assert (2 ^ 32 = 4294967296) as E32 by reflexivity.
  assert (2 ^ 53 = 9007199254740992) as E53 by reflexivity.
  rewrite Hs. split.
  - apply to_uint_Z. lia.
  - rewrite !of_Z_exact by lia.
    rewrite mul_Z by (destruct Hch as [-> | ->]; lia).
    rewrite mul_Z by (destruct Hch as [-> | ->]; lia).
    apply to_uint_Z. destruct Hch as [-> | ->]; lia.
Qed.

Lemma wav_header_length totalFrames (o : Nsf2WavOptions) rate byterate :
  length (wav_header totalFrames o rate byterate) = 44%nat.
Proof. reflexivity. Qed.

Lemma wav_header_data_size totalFrames (o : Nsf2WavOptions) rate byterate :
  data_size_field (wav_header totalFrames o rate byterate)
  = Some ((totalFrames * channels o * 2) mod 2 ^ 32).
Proof.
  unfold wav_header. cbv zeta. rewrite dataSize_mod.
  change (unpack_uint32le (bytes4 ((totalFrames * channels o * 2) mod 2 ^ 32))
          = Some ((totalFrames * channels o * 2) mod 2 ^ 32)).
  apply unpack_bytes4. apply Z.mod_pos_bound. lia.
Qed.

(** The header of a run with one or two channels and a whole sample rate
    below 2^30, on a stream whose file has room for 44 bytes, is the
    canonical 44-byte PCM header: the RIFF size is the payload size plus 36,
    the byte rate is rate * channels * 2, the block alignment channels * 2,
    the sample width 16, and the payload size totalFrames * channels * 2,
    both sizes reduced modulo 2^32. *)
Theorem wav_header_fields f totalFrames (o : Nsf2WavOptions) n :
  44 <= room f ->
  channels o = 1 \/ channels o = 2 ->
  samplerate o = inject_Z n -> 0 <= n < 2 ^ 30 ->
  exists f', write_wav_header f totalFrames o = Some (1, f')
    /\ out f' = out f
                  ++ tag_RIFF
                  ++ bytes4 (((totalFrames * channels o * 2) mod 2 ^ 32 + 36) mod 2 ^ 32)
                  ++ tag_WAVE ++ tag_fmt ++ bytes4 16 ++ bytes2 1
                  ++ bytes2 (channels o)
                  ++ bytes4 n ++ bytes4 (n * channels o * 2)
                  ++ bytes2 (channels o * 2) ++ bytes2 16
                  ++ tag_data
                  ++ bytes4 ((totalFrames * channels o * 2) mod 2 ^ 32)
    /\ room f' = room f - 44
    /\ cap f' = cap f.
Proof.
  intros Hr Hch Hs Hn.
  destruct (whole_rate_fields o n Hch Hs Hn) as [E1 E2].
  destruct (header_written_bytes f totalFrames o n (n * channels o * 2) Hr E1 E2)
    as (f' & E & Eo & Er & Ec).
  exists f'. split; [exact E|]. split; [|split; assumption].
  rewrite Eo. unfold wav_header. cbv zeta. rewrite dataSize_mod.
  set (D := (totalFrames * channels o * 2) mod 2 ^ 32).
  assert (0 <= D < 2 ^ 32) as HD by (apply Z.mod_pos_bound; lia).
  assert (wrap 32 (wrap 32 (D + 44) - 8) = (D + 36) mod 2 ^ 32) as ->.
  { unfold wrap. rewrite Zminus_mod_idemp_l. f_equal. lia. }
  assert (wrap 16 (channels o) = channels o) as ->
    by (destruct Hch as [-> | ->]; reflexivity).
  assert (wrap 16 (wrap 64 (wrap 64 (channels o) * 2)) = channels o * 2) as ->
    by (destruct Hch as [-> | ->]; reflexivity).
  reflexivity.
Qed.

Lemma put_short bytes n f k f' :
  0 < n -> put bytes n f k = Some (0, f') ->
  (exists g, Z.of_nat (length (out g)) = Z.of_nat (length (out f)) + n
             /\ k g = Some (0, f'))
  \/ Z.of_nat (length (out f')) < Z.of_nat (length (out f)) + n.
Proof.
  intros Hn. unfold put, fwrite. rewrite Z.mul_1_l.
  destruct (Z.ltb_spec (Z.of_nat (length bytes)) n); [discriminate|].
  destruct (Z.leb_spec n 0); [lia|].
  destruct ((held f + n <=? cap f) || (n <=? room f)) eqn:Eok;
    cbn [mbind option_bind].
  - rewrite Z.eqb_refl. intros Hk. left. exists (written f bytes n).
    split; [|exact Hk]. cbn [out written]. rewrite length_app, length_take. lia.
  - apply orb_false_elim in Eok. destruct Eok as [_ Er]. apply Z.leb_gt in Er.
    rewrite Z.div_1_r. destruct (Z.eqb_spec (Z.max 0 (room f)) n); [lia|].
    intros [= <-]. right. cbn [out cut]. rewrite length_take. lia.
Qed.

Lemma put_packed32_short a b c d v f k f' :
  put_packed pack_uint32le v 4 ([a; b; c; d], f) k = Some (0, f') ->
  (exists g, Z.of_nat (length (out g)) = Z.of_nat (length (out f)) + 4
             /\ k (bytes4 v, g) = Some (0, f'))
  \/ Z.of_nat (length (out f')) < Z.of_nat (length (out f)) + 4.
Proof.
  unfold put_packed. cbn [fst snd].
  change (pack_uint32le [a; b; c; d] 0 v) with (Some (bytes4 v)).
  cbn [mbind option_bind]. intros H. apply put_short in H; [exact H|lia].
Qed.

Lemma put_packed16_short a b c d v f k f' :
  put_packed pack_uint16le v 2 ([a; b; c; d], f) k = Some (0, f') ->
  (exists g, Z.of_nat (length (out g)) = Z.of_nat (length (out f)) + 2
             /\ k (bytes2 v ++ [c; d], g) = Some (0, f'))
  \/ Z.of_nat (length (out f')) < Z.of_nat (length (out f)) + 2.
Proof.
  unfold put_packed. cbn [fst snd].
  change (pack_uint16le [a; b; c; d] 0 v) with (Some (bytes2 v ++ [c; d])).
  cbn [mbind option_bind]. intros H. apply put_short in H; [exact H|lia].
Qed.

(** one write of a header that ends with 0: it went through, or it is the
    one that came back short *)
Ltac header_cut lem H :=
  let g := fresh "g" in
  let Eg := fresh "Eg" in
  let K := fresh "K" in
  let Hlen := fresh "Hlen" in
  apply lem in H as [(g & Eg & K)|Hlen]; [rename K into H; cbv beta iota in H|lia].

Lemma header_cut_short f totalFrames (o : Nsf2WavOptions) f' :
  write_wav_header f totalFrames o = Some (0, f') ->
  Z.of_nat (length (out f')) < Z.of_nat (length (out f)) + 44.
Proof.
  unfold write_wav_header. cbv zeta. intros H.
  apply put_short in H as [(g1 & Eg1 & K)|Hlen]; [rename K into H|lia|lia].
  header_cut put_packed32_short H.
  apply put_short in H as [(g3 & Eg3 & K)|Hlen]; [rename K into H|lia|lia].
  apply put_short in H as [(g4 & Eg4 & K)|Hlen]; [rename K into H|lia|lia].
  header_cut put_packed32_short H.
  header_cut put_packed16_short H.
  header_cut put_packed16_short H.
  destruct (Double.to_uint 32 (samplerate o)) as [rate|]; [|discriminate].
  cbn [mbind option_bind] in H.
  header_cut put_packed32_short H.
  destruct (Double.to_uint 32 _) as [byterate|]; [|discriminate].
  cbn [mbind option_bind] in H.
  header_cut put_packed32_short H.
  header_cut put_packed16_short H.
  header_cut put_packed16_short H.
  apply put_short in H as [(g12 & Eg12 & K)|Hlen]; [rename K into H|lia|lia].
  header_cut put_packed32_short H.
  discriminate.
Qed.

(** When the header writer returns 0, and when it does not.  [main]'s
    stream is buffered: while the 44 bytes fit the buffer, every [fwrite]
    of the header returns its count and the writer returns 1, whatever room
    the file has; a full disk shows later, at a transmission.  On a stream
    whose [fwrite] does come back short, here an unbuffered one whose file
    has room for fewer than 44 bytes, the writer returns 0 at the first
    short count, the file having taken what it had room for.  And on any
    stream, a writer that returns 0 has left fewer than 44 bytes of
    header. *)
Theorem header_short f totalFrames (o : Nsf2WavOptions) rate byterate :
  Double.to_uint 32 (samplerate o) = Some rate ->
  Double.to_uint 32
    (Double.mul (Double.mul (samplerate o) (Double.of_Z (channels o))) (Double.of_Z 2))
    = Some byterate ->
  (held f + 44 <= cap f ->
   exists f', write_wav_header f totalFrames o = Some (1, f')
     /\ out f' = out f ++ wav_header totalFrames o rate byterate
     /\ room f' = room f - 44
     /\ held f' = held f + 44)
  /\ (cap f = 0 -> held f = 0 -> 0 <= room f < 44 ->
      exists f', write_wav_header f totalFrames o = Some (0, f')
        /\ room f' = 0
        /\ Z.of_nat (length (out f')) = Z.of_nat (length (out f)) + room f)
  /\ (forall f', write_wav_header f totalFrames o = Some (0, f') ->
        Z.of_nat (length (out f')) < Z.of_nat (length (out f)) + 44).
Proof.
  intros E1 E2. split; [|split; [|apply header_cut_short]].
  - intros Hfit.
    destruct (header_buffered f totalFrames o rate byterate Hfit E1 E2)
      as (f' & E & Eo & Er & Eh & _).
    exists f'. repeat split; assumption.
  - destruct f as [o0 r h c]. cbn [out room held cap]. intros -> -> Hr.
    unfold write_wav_header. cbv zeta.
    assert (forall (l : list Z) r (b : list Z), 0 <= r <= Z.of_nat (length b) ->
              Z.of_nat (length (l ++ take (Z.to_nat r) b)) = Z.of_nat (length l) + r) as Hlen.
    { intros l r0 b Hb. rewrite length_app, length_take. lia. }
    destruct (Z.lt_ge_cases r 4);
      [rewrite put_plain_fail by (unfold tag_RIFF, tag_WAVE, tag_fmt, tag_data; cbn [length]; lia);
       short_done Hlen|header_put].
    destruct (Z.lt_ge_cases r 8);
      [rewrite put_packed32_plain_fail by lia; short_done Hlen|header_put32].
    destruct (Z.lt_ge_cases r 12);
      [rewrite put_plain_fail by (unfold tag_RIFF, tag_WAVE, tag_fmt, tag_data; cbn [length]; lia);
       short_done Hlen|header_put].
    destruct (Z.lt_ge_cases r 16);
      [rewrite put_plain_fail by (unfold tag_RIFF, tag_WAVE, tag_fmt, tag_data; cbn [length]; lia);
       short_done Hlen|header_put].
    destruct (Z.lt_ge_cases r 20);
      [rewrite put_packed32_plain_fail by lia; short_done Hlen|header_put32].
    destruct (Z.lt_ge_cases r 22);
      [rewrite put_packed16_plain_fail by lia; short_done Hlen|header_put16].
    destruct (Z.lt_ge_cases r 24);
      [rewrite put_packed16_plain_fail by lia; short_done Hlen|header_put16].
    rewrite E1. cbn [mbind option_bind].
    destruct (Z.lt_ge_cases r 28);
      [rewrite put_packed32_plain_fail by lia; short_done Hlen|header_put32].
    rewrite E2. cbn [mbind option_bind].
    destruct (Z.lt_ge_cases r 32);
      [rewrite put_packed32_plain_fail by lia; short_done Hlen|header_put32].
    destruct (Z.lt_ge_cases r 34);
      [rewrite put_packed16_plain_fail by lia; short_done Hlen|header_put16].
    destruct (Z.lt_ge_cases r 36);
      [rewrite put_packed16_plain_fail by lia; short_done Hlen|header_put16].
    destruct (Z.lt_ge_cases r 40);
      [rewrite put_plain_fail by (unfold tag_RIFF, tag_WAVE, tag_fmt, tag_data; cbn [length]; lia);
       short_done Hlen|header_put].
    rewrite put_packed32_plain_fail by lia. short_done Hlen.
Qed.

Lemma write_frames_fits f d frameCount channels :
  channels = 1 \/ channels = 2 -> 0 < frameCount ->
  2 * channels * frameCount <= Z.of_nat (length d) ->
  held f + 2 * channels * frameCount <= cap f \/ 2 * channels * frameCount <= room f ->
  write_frames f d frameCount channels
  = Some (1, written f d (2 * channels * frameCount)).
Proof.
  intros Hch Hfc Hd Hok. unfold write_frames, fwrite.
  rewrite wrap64_step by assumption.
  destruct (Z.ltb_spec (Z.of_nat (length d)) (2 * channels * frameCount)); [lia|].
  destruct (Z.leb_spec (2 * channels * frameCount) 0); [lia|].
  assert ((held f + 2 * channels * frameCount <=? cap f)
          || (2 * channels * frameCount <=? room f) = true) as ->.
  { apply orb_true_iff. destruct Hok; [left|right]; apply Z.leb_le; lia. }
  cbn [mbind option_bind]. now rewrite Z.eqb_refl.
Qed.



(** ** The skip and render loops *)

Lemma total_app a b : total (a ++ b) = total a + total b.
Proof. unfold total. induction a as [|x a IH]; cbn [foldr app]; lia. Qed.

Lemma skip_requests_app a b : skip_requests (a ++ b) = skip_requests a ++ skip_requests b.
Proof. unfold skip_requests. apply bind_app. Qed.

Lemma render_requests_app a b :
  render_requests (a ++ b) = render_requests a ++ render_requests b.
Proof. unfold render_requests. apply bind_app. Qed.

Lemma chunk_bounds frames : 0 < frames -> 0 < chunk frames <= kFramesToBuffer /\ chunk frames <= frames.
Proof. unfold chunk, kFramesToBuffer. lia. Qed.

Section Loops.
Context {X : Xgm}.

Lemma skip_loop_trace fuel : forall frames m f' m',
  0 <= frames ->
  skip_loop fuel frames m = Next f' m' ->
  exists t, trace m' = trace m ++ t
    /\ t = map (fun n => Player (CSkip n)) (skip_requests t)
    /\ Forall (fun n => 0 < n <= kFramesToBuffer) (skip_requests t)
    /\ total (skip_requests t) = frames - f'
    /\ 0 <= f'.
Proof.
  induction fuel as [|fuel IH]; intros frames m f' m' H0.
  - cbn [skip_loop ret]. intros [= <- <-]. exists [].
    rewrite app_nil_r. repeat split; try reflexivity; try constructor; cbn; lia.
  - rewrite skip_loop_S.
    destruct (Z.eqb_spec frames 0) as [->|Hnz]; cbn [orb];
      [|destruct (IsFading (world m))].
    + intros [= <- <-]. exists [].
      rewrite app_nil_r. repeat split; try reflexivity; try constructor; cbn; lia.
    + intros [= <- <-]. exists [].
      rewrite app_nil_r. repeat split; try reflexivity; try constructor; cbn; lia.
    + intros H. destruct (chunk_bounds frames ltac:(lia)) as [Hc1 Hc2].
      apply IH in H; [|lia].
      destruct H as (t & Ht & Hm & HF & Hs & Hf). cbn [trace] in Ht.
      exists (Player (CSkip (chunk frames)) :: t).
      rewrite Ht, <- app_assoc. split; [reflexivity|].
      change (skip_requests (Player (CSkip (chunk frames)) :: t))
        with (chunk frames :: skip_requests t).
      cbn [map]. split; [now rewrite <- Hm|].
      split; [constructor; [lia|assumption]|].
      cbn [total foldr]. unfold total in Hs. lia.
Qed.

(** The skip phase asks the player to skip chunks of at most 4096 frames
    and does nothing else; the chunks and the frames left over add up to the
    frames it started with; and it ends because no frame is left or the
    player is fading. *)
Theorem skip_loop_accounts frames m :
  0 <= frames ->
  exists f' m' ns, skip_loop (turns frames) frames m = Next f' m'
    /\ trace m' = trace m ++ map (fun n => Player (CSkip n)) ns
    /\ Forall (fun n => 0 < n <= kFramesToBuffer) ns
    /\ total ns + f' = frames
    /\ (f' = 0 \/ IsFading (world m') = true).
Proof.
  intros H0. destruct (skip_loop_next (turns frames) frames m) as (f' & m' & E).
  destruct (skip_loop_trace _ _ _ _ _ H0 E) as (t & Ht & Hm & HF & Hs & Hf).
  exists f', m', (skip_requests t). split; [exact E|]. split; [now rewrite <- Hm|].
  split; [exact HF|]. split; [lia|].
  exact (skip_loop_exit _ _ _ _ _ H0 (need_turns frames H0) E).
Qed.

Lemma render_loop_trace fuel : forall f buf pac frames (o : Nsf2WavOptions) m,
  0 <= frames ->
  match render_loop fuel f buf pac frames o m with
  | Next f' m' =>
      exists t, trace m' = trace m ++ t
        /\ forallb is_render_event t = true
        /\ Forall (fun n => 0 < n <= kFramesToBuffer) (render_requests t)
        /\ ((need frames <= fuel)%nat -> total (render_requests t) = frames)
  | Undefined => True
  | _ => False
  end.
Proof.
  induction fuel as [|fuel IH]; intros f buf pac frames o m H0.
  - cbn [render_loop ret]. exists []. rewrite app_nil_r.
    repeat split; try constructor. unfold need. lia.
  - rewrite render_loop_S.
    destruct (Z.eqb_spec frames 0) as [->|Hnz].
    { exists []. rewrite app_nil_r. repeat split; try constructor. }
    cbv zeta. destruct (pack_frames _ _ _ _) as [pac'|]; [|exact I].
    destruct (write_frames _ _ _ _) as [r|]; [|exact I].
    destruct (chunk_bounds frames ltac:(lia)) as [Hc1 Hc2].
    destruct (need_step frames ltac:(lia)) as [Hs Hp].
    match goal with |- match render_loop fuel ?f1 ?b1 ?p1 ?fr ?o1 ?m1 with _ => _ end =>
      specialize (IH f1 b1 p1 fr o1 m1 Hp);
      destruct (render_loop fuel f1 b1 p1 fr o1 m1) as [f' m'|code t|t|]
    end; [|exact IH|exact IH|exact I].
    destruct IH as (t & Ht & HP & HF & Hsum). cbn [trace] in Ht.
    exists ([Print stdout (MsgProgress (wrap 64 (frames + total_render (world m))) frames);
             Player (CRender (chunk frames))] ++ t).
    split; [rewrite Ht, <- !app_assoc; reflexivity|].
    split; [cbn [app forallb is_render_event andb]; exact HP|].
    change (render_requests ([_; Player (CRender (chunk frames))] ++ t))
      with (chunk frames :: render_requests t).
    split; [constructor; [lia|assumption]|].
    intros Hn. cbn [total foldr]. unfold total in Hsum. rewrite Hsum by lia. lia.
Qed.

(** The render loop reports nothing and never ends the process: whatever
    the stream and its file accept, it only prints progress lines and calls
    [Render], in chunks of at most 4096 frames that add up to the frames
    asked for. *)
Theorem render_loop_reports_nothing f buf pac frames (o : Nsf2WavOptions) m :
  0 <= frames ->
  (forall code t, render_loop (turns frames) f buf pac frames o m <> Halt code t)
  /\ (forall t, render_loop (turns frames) f buf pac frames o m <> Abort t)
  /\ (forall f' m', render_loop (turns frames) f buf pac frames o m = Next f' m' ->
       exists t, trace m' = trace m ++ t
         /\ forallb is_render_event t = true
         /\ Forall (fun n => 0 < n <= kFramesToBuffer) (render_requests t)
         /\ total (render_requests t) = frames).
Proof.
  intros H0. pose proof (render_loop_trace (turns frames) f buf pac frames o m H0) as H.
  destruct (render_loop (turns frames) f buf pac frames o m) as [f' m'|code t|t|];
    try contradiction.
  - split; [discriminate|]. split; [discriminate|]. intros f2 m2 [= <- <-].
    destruct H as (t & Ht & HP & HF & Hs). exists t.
    repeat split; try assumption. apply Hs, need_turns, H0.
  - split; [discriminate|]. split; discriminate.
Qed.

(** With no channel the buffers are empty, and the first chunk reads past
    the end of the sample buffer. *)
Theorem zero_channels_undefined fuel f pac frames (o : Nsf2WavOptions) m :
  (forall b n w, length (fst (Render b n w)) = length b) ->
  channels o = 0 -> 0 < frames ->
  render_loop (S fuel) f [] pac frames o m = Undefined.
Proof.
  intros HR Hch Hf. rewrite render_loop_S.
  destruct (Z.eqb_spec frames 0); [lia|]. cbv zeta.
  destruct (chunk_bounds frames Hf) as [Hc _].
  specialize (HR [] (chunk frames) (world m)).
  destruct (fst (Render [] (chunk frames) (world m))); [|discriminate].
  rewrite Hch. unfold pack_frames.
  destruct (Z.to_nat (chunk frames)) as [|k] eqn:Ek; [lia|].
  reflexivity.
Qed.

(** Without loop detection the frame count stays the naive one. *)
Theorem detect_keeps_candidate (o : Nsf2WavOptions) F m :
  lengthForce o = false ->
  (forall w, playtime_detected w = false) ->
  Qeq_bool (samplerate o) 0 = false ->
  exists m', detect o F m = Next F m'.
Proof.
  intros Hf Hd Hs. unfold detect. rewrite Hf. cbn [negb]. cbv zeta.
  destruct (skip_loop_next (turns F) F m) as (f' & m' & E).
  rewrite (bind_next _ _ _ _ _ E). rewrite bind_get, Hd, bind_ret, bind_get.
  unfold stop_sec, Double.div. rewrite Hs. cbn [mbind option_bind defined].
  rewrite bind_ret. unfold configure. rewrite bind_update. eexists. reflexivity.
Qed.

End Loops.

(** ** Conversions that fail *)

Section Failures.
Context {X : Xgm}.
Variable P : event -> bool.
Variable Q : Z -> bool.
Hypothesis P_print : forall s msg, P (Print s msg) = true.

Lemma only_print s msg : only P Q (print s msg).
Proof. apply only_emit, P_print. Qed.

Lemma only_configure k v : only P Q (configure k v).
Proof. apply only_update. Qed.

Lemma only_resolve_length nsfe_i o : only P Q (resolve_length nsfe_i o).
Proof.
  unfold resolve_length. apply only_bind; [apply only_get|intros w].
  repeat match goal with |- only _ _ (if ?b then _ else _) => destruct b end;
    repeat first [apply only_print | only_step].
Qed.

Lemma only_resolve_fade nsfe_i o : only P Q (resolve_fade nsfe_i o).
Proof.
  unfold resolve_fade. apply only_bind; [apply only_get|intros w].
  repeat match goal with |- only _ _ (if ?b then _ else _) => destruct b end;
    repeat first [apply only_print | only_step].
Qed.

Lemma only_skip_loop fuel :
  (forall n, P (Player (CSkip n)) = true) ->
  forall frames, only P Q (skip_loop fuel frames).
Proof.
  intros HS. induction fuel as [|fuel IH]; intros frames; cbn [skip_loop]; [apply only_ret|].
  apply only_bind; [apply only_get|intros w].
  destruct ((frames =? 0) || IsFading w); [apply only_ret|].
  unfold on_player. apply only_bind; [|intros _; apply IH].
  apply only_bind; [apply only_emit, HS|intros _; apply only_update].
Qed.

Lemma only_resolve_frames o :
  (forall n, P (Player (CSkip n)) = true) -> only P Q (resolve_frames o).
Proof.
  intros HS. unfold resolve_frames, detect.
  apply only_bind; [apply only_defined|intros frames].
  destruct (lengthForce o); cbn [negb]; [apply only_ret|]. cbv zeta.
  apply only_bind; [now apply only_skip_loop|intros _].
  apply only_bind; [apply only_get|intros w].
  apply only_bind; [|intros f].
  { destruct (playtime_detected w); [|apply only_ret].
    do 2 (apply only_bind; [apply only_configure|intros _]).
    apply only_bind; [apply only_get|intros w1].
    apply only_bind; [apply only_defined|intros f].
    apply only_bind; [apply only_print|intros _].
    apply only_bind; [|intros _; apply only_ret].
    destruct (trigger o); [|apply only_ret].
    apply only_bind; [apply only_get|intros w2].
    apply only_bind; [apply only_defined|intros t]. apply only_update. }
  apply only_bind; [apply only_get|intros w1].
  apply only_bind; [apply only_defined|intros s].
  apply only_bind; [apply only_configure|intros _]. apply only_ret.
Qed.

End Failures.

Section Conversion.
Context {X : Xgm}.
Variable disk : string -> option (Z * Z).

Lemma only_unopened ds path outpath :
  opt_h ∉ ds -> disk outpath = None ->
  only is_setup_event is_failure (main_body disk ds [path; outpath]).
Proof.
  intros Hh Hd. unfold main_body, ParseOptions, on_nsf, on_player.
  apply only_bind; [|intros o].
  { apply only_bind; [apply only_get|intros w].
    apply only_parse_loop; [reflexivity|reflexivity|]. intros Hin. contradiction. }
  apply only_bind; [apply only_get|intros w].
  apply only_bind; [repeat only_step|intros _].
  apply only_bind; [destruct (new_array _ _); only_step|intros buf].
  apply only_bind; [destruct (new_array _ _); only_step|intros pac].
  apply only_bind; [only_step|intros _].
  apply only_bind; [apply only_get|intros w0].
  destruct (LoadFile path w0) as [ok w1].
  apply only_bind; [only_step|intros _].
  destruct ok; cbn [negb]; [|unfold print; repeat only_step].
  apply only_bind; [|intros i].
  { destruct (playlist_mode (nsf w1)); [apply only_ret|].
    destruct (track o <=? 0); [unfold print; repeat only_step|apply only_ret]. }
  apply only_bind; [|intros nsfe_i].
  { destruct (nsfe_plst (nsf w1)); [destruct (negb _)|]; only_step. }
  apply only_bind; [now apply only_resolve_length|intros o1].
  apply only_bind; [now apply only_resolve_fade|intros o2].
  apply only_bind; [|intros _].
  { destruct (negb (quiet o2)); [|apply only_ret]. unfold print. repeat only_step. }
  do 3 (apply only_bind; [apply only_configure|intros _]).
  apply only_bind; [|intros _].
  { destruct (negb (lengthForce o2)); [|apply only_ret]. unfold configure. repeat only_step. }
  apply only_bind; [repeat only_step|intros _].
  apply only_bind; [only_step|intros _].
  apply only_bind; [apply only_get|intros w2].
  destruct (Load w2) as [ok w3].
  apply only_bind; [only_step|intros _].
  destruct ok; cbn [negb]; [|unfold print; repeat only_step].
  do 4 (apply only_bind; [repeat only_step|intros _]).
  apply only_bind; [now apply only_resolve_frames|intros frames].
  do 2 (apply only_bind; [apply only_configure|intros _]).
  apply only_bind; [|intros _].
  { destruct (trigger o2); [|apply only_ret]. unfold configure. repeat only_step. }
  apply only_bind; [apply only_get|intros w4].
  apply only_bind; [apply only_defined|intros c].
  apply only_bind; [only_step|intros _].
  do 3 (apply only_bind; [repeat only_step|intros _]).
  rewrite Hd. unfold print. repeat only_step.
Qed.

(** When the output file cannot be opened, a conversion fails: whatever
    the options (short of [-h]) and the engine, the run never renders a
    frame and never ends with status 0. *)
Theorem unopened_sink_fails ds path outpath code t :
  opt_h ∉ ds -> disk outpath = None ->
  main disk ds [path; outpath] = Halt code t ->
  code <> 0 /\ forallb is_setup_event t = true.
Proof.
  intros Hh Hd H. pose proof (only_unopened ds path outpath Hh Hd start) as HE.
  unfold main in H. fold (@start X) in H. rewrite H in HE.
  destruct HE as (HQ & t' & -> & HP). split; [|exact HP].
  unfold is_failure in HQ. intros ->. discriminate.
Qed.

Lemma only_unloaded ds path outpath :
  opt_h ∉ ds -> (forall w, fst (Load w) = false) ->
  only is_load_event is_failure (main_body disk ds [path; outpath]).
Proof.
  intros Hh HL. unfold main_body, ParseOptions, on_nsf, on_player.
  apply only_bind; [|intros o].
  { apply only_bind; [apply only_get|intros w].
    apply only_parse_loop; [reflexivity|reflexivity|]. intros Hin. contradiction. }
  apply only_bind; [apply only_get|intros w].
  apply only_bind; [repeat only_step|intros _].
  apply only_bind; [destruct (new_array _ _); only_step|intros buf].
  apply only_bind; [destruct (new_array _ _); only_step|intros pac].
  apply only_bind; [only_step|intros _].
  apply only_bind; [apply only_get|intros w0].
  destruct (LoadFile path w0) as [ok w1].
  apply only_bind; [only_step|intros _].
  destruct ok; cbn [negb]; [|unfold print; repeat only_step].
  apply only_bind; [|intros i].
  { destruct (playlist_mode (nsf w1)); [apply only_ret|].
    destruct (track o <=? 0); [unfold print; repeat only_step|apply only_ret]. }
  apply only_bind; [|intros nsfe_i].
  { destruct (nsfe_plst (nsf w1)); [destruct (negb _)|]; only_step. }
  apply only_bind; [now apply only_resolve_length|intros o1].
  apply only_bind; [now apply only_resolve_fade|intros o2].
  apply only_bind; [|intros _].
  { destruct (negb (quiet o2)); [|apply only_ret]. unfold print. repeat only_step. }
  do 3 (apply only_bind; [apply only_configure|intros _]).
  apply only_bind; [|intros _].
  { destruct (negb (lengthForce o2)); [|apply only_ret]. unfold configure. repeat only_step. }
  apply only_bind; [repeat only_step|intros _].
  apply only_bind; [only_step|intros _].
  apply only_bind; [apply only_get|intros w2].
  specialize (HL w2). destruct (Load w2) as [ok w3]. cbn [fst] in HL. subst ok.
  apply only_bind; [only_step|intros _].
  cbn [negb]. unfold print. repeat only_step.
Qed.

(** When the player refuses the source, a conversion fails before the
    player is set up: nothing is skipped or rendered, and no file is
    opened. *)
Theorem player_load_failure ds path outpath code t :
  opt_h ∉ ds -> (forall w, fst (Load w) = false) ->
  main disk ds [path; outpath] = Halt code t ->
  code <> 0 /\ forallb is_load_event t = true.
Proof.
  intros Hh HL H. pose proof (only_unloaded ds path outpath Hh HL start) as HE.
  unfold main in H. fold (@start X) in H. rewrite H in HE.
  destruct HE as (HQ & t' & -> & HP). split; [|exact HP].
  unfold is_failure in HQ. intros ->. discriminate.
Qed.

End Conversion.

(** ** The 32-bit packer *)

Lemma pack_uint32le_app (pre post : list Z) (a b c e v : Z) off :
  off = Z.of_nat (length pre) ->
  pack_uint32le (pre ++ a :: b :: c :: e :: post) off v = Some (pre ++ bytes4 v ++ post).
Proof.
  intros ->. unfold pack_uint32le, bytes4.
  rewrite (store_app pre (b :: c :: e :: post)) by lia. cbn [mbind option_bind].
  replace (pre ++ wrap 8 v :: b :: c :: e :: post)
    with ((pre ++ [wrap 8 v]) ++ b :: c :: e :: post)
    by (rewrite <- app_assoc; reflexivity).
  rewrite store_app by (rewrite length_app; cbn [length]; lia).
  cbn [mbind option_bind].
  replace ((pre ++ [wrap 8 v]) ++ wrap 8 (Z.shiftr v 8) :: c :: e :: post)
    with ((pre ++ [wrap 8 v; wrap 8 (Z.shiftr v 8)]) ++ c :: e :: post)
    by (rewrite <- !app_assoc; reflexivity).
  rewrite store_app by (rewrite length_app; cbn [length]; lia).
  cbn [mbind option_bind].
  replace ((pre ++ [wrap 8 v; wrap 8 (Z.shiftr v 8)]) ++ wrap 8 (Z.shiftr v 16) :: e :: post)
    with ((pre ++ [wrap 8 v; wrap 8 (Z.shiftr v 8); wrap 8 (Z.shiftr v 16)]) ++ e :: post)
    by (rewrite <- !app_assoc; reflexivity).
  rewrite store_app by (rewrite length_app; cbn [length]; lia).
  rewrite <- !app_assoc. reflexivity.
Qed.

Lemma pack_uint32le_length d off v d' :
  pack_uint32le d off v = Some d' ->
  length d' = length d /\ 0 <= off /\ off + 4 <= Z.of_nat (length d).
Proof.
  unfold pack_uint32le.
  destruct (store d (off + 0) (wrap 8 v)) as [d1|] eqn:E1; [|discriminate].
  cbn [mbind option_bind].
  destruct (store d1 (off + 1) _) as [d2|] eqn:E2; [|discriminate].
  cbn [mbind option_bind].
  destruct (store d2 (off + 2) _) as [d3|] eqn:E3; [|discriminate].
  cbn [mbind option_bind]. intros E4.
  apply store_length in E1, E2, E3, E4. lia.
Qed.

(** [pack_uint32le] writes inside the array exactly when four bytes fit at
    the offset; it then changes those four bytes only, and they read back,
    least significant byte first, as the number packed. *)
Theorem pack_uint32le_round_trip d off v :
  0 <= v < 2 ^ 32 ->
  (is_Some (pack_uint32le d off v) <-> 0 <= off /\ off + 4 <= Z.of_nat (length d))
  /\ forall d', pack_uint32le d off v = Some d' ->
       d' = take (Z.to_nat off) d ++ bytes4 v ++ drop (Z.to_nat off + 4) d
       /\ unpack_uint32le (take 4 (drop (Z.to_nat off) d')) = Some v.
Proof.
  intros Hv.
  assert (0 <= off /\ off + 4 <= Z.of_nat (length d) ->
          pack_uint32le d off v
          = Some (take (Z.to_nat off) d ++ bytes4 v ++ drop (Z.to_nat off + 4) d)) as Hok.
  { intros [H0 H4].
    rewrite <- (take_drop (Z.to_nat off) d) at 1.
    destruct (drop (Z.to_nat off) d) as [|a [|b [|c [|e post]]]] eqn:Ed;
      try (apply (f_equal length) in Ed; rewrite length_drop in Ed; cbn [length] in Ed; lia).
    rewrite pack_uint32le_app by (rewrite length_take; lia).
    do 3 f_equal. rewrite <- drop_drop, Ed. reflexivity. }
  split; [split|].
  - intros [d' H]. apply pack_uint32le_length in H. lia.
  - intros H. rewrite (Hok H). eauto.
  - intros d' H. pose proof (pack_uint32le_length _ _ _ _ H) as (_ & H0 & H4).
    rewrite (Hok (conj H0 H4)) in H. injection H as <-. split; [reflexivity|].
    rewrite drop_app_length' by (rewrite length_take; lia).
    cbn [take]. now apply unpack_bytes4.
Qed.

(** ** The payload and the file *)

Section Payload.
Context {X : Xgm}.

Lemma render_loop_out fuel : forall f buf pac frames (o : Nsf2WavOptions) m,
  (forall b n w, length (fst (Render b n w)) = length b) ->
  channels o = 1 \/ channels o = 2 ->
  Z.of_nat (length buf) = kFramesToBuffer * channels o ->
  Z.of_nat (length pac) = kFramesToBuffer * channels o * 2 ->
  0 <= frames -> (need frames <= fuel)%nat ->
  frames * channels o * 2 <= room f ->
  exists f' m', render_loop fuel f buf pac frames o m = Next f' m'
    /\ out f' = out f ++ encode_samples (rendered_samples fuel buf frames (channels o) (world m))
    /\ room f' = room f - frames * channels o * 2
    /\ Z.of_nat (length (rendered_samples fuel buf frames (channels o) (world m)))
       = frames * channels o.
Proof.
  unfold kFramesToBuffer.
  induction fuel as [|fuel IH]; intros f buf pac frames o m HR Hch Hb Hp H0 Hn Hr.
  - unfold need in Hn. lia.
  - rewrite render_loop_S. cbn [rendered_samples].
    destruct (Z.eqb_spec frames 0) as [->|Hnz].
    { eexists _, _. split; [reflexivity|]. cbn [encode_samples length].
      change (encode_samples []) with (@nil Z). rewrite app_nil_r.
      repeat split; lia. }
    cbv zeta.
    destruct (chunk_bounds frames ltac:(lia)) as [Hc1 Hc2]. unfold kFramesToBuffer in Hc1.
    destruct (need_step frames ltac:(lia)) as [Hs Hrest].
    set (fc := chunk frames) in *.
    set (buf' := fst (Render buf fc (world m))).
    assert (length buf' = length buf) as Hb' by apply HR.
    rewrite pack_frames_ok by (assumption || nia).
    set (chunk_samples := take (Z.to_nat (fc * channels o)) buf').
    assert (Z.of_nat (length chunk_samples) = fc * channels o) as Hcl.
    { unfold chunk_samples. rewrite length_take. nia. }
    set (pac' := encode_samples chunk_samples ++ drop (Z.to_nat (fc * channels o * 2)) pac).
    assert (length pac' = length pac) as Hpl.
    { unfold pac'. rewrite length_app, encode_samples_length, length_drop. nia. }
    assert (take (Z.to_nat (2 * channels o * fc)) pac' = encode_samples chunk_samples) as Htake.
    { apply take_app_length'. rewrite encode_samples_length. lia. }
    rewrite write_frames_fits; [|assumption|lia|rewrite Hpl; nia|right; nia]. cbn [snd].
    match goal with |- exists f' m', render_loop fuel ?f1 ?b1 ?p1 ?fr ?o1 ?m1 = _ /\ _ =>
      destruct (IH f1 b1 p1 fr o1 m1) as (f' & m' & E & Eo & Er & El)
    end; try assumption; try lia.
    + cbn [room written]. nia.
    + exists f', m'. split; [exact E|]. cbn [out room world written] in *.
      rewrite Htake in Eo.
      split; [|split].
      * rewrite Eo, <- app_assoc. f_equal. unfold encode_samples.
        now rewrite bind_app.
      * lia.
      * rewrite length_app. lia.
Qed.

(** The payload is what the engine rendered: with the buffers [main]
    allocates, an engine that keeps the sample buffer's length, and a
    stream whose file has room for the payload, the render loop ends, stays
    inside its buffers, and the stream has taken the little-endian encoding
    of the samples of every chunk, in order: frames * channels samples,
    twice as many bytes. *)
Theorem render_loop_payload f buf pac frames (o : Nsf2WavOptions) m :
  (forall b n w, length (fst (Render b n w)) = length b) ->
  channels o = 1 \/ channels o = 2 ->
  Z.of_nat (length buf) = kFramesToBuffer * channels o ->
  Z.of_nat (length pac) = kFramesToBuffer * channels o * 2 ->
  0 <= frames ->
  frames * channels o * 2 <= room f ->
  exists f' m' samples,
    render_loop (turns frames) f buf pac frames o m = Next f' m'
    /\ samples = rendered_samples (turns frames) buf frames (channels o) (world m)
    /\ Z.of_nat (length samples) = frames * channels o
    /\ out f' = out f ++ encode_samples samples
    /\ room f' = room f - frames * channels o * 2
    /\ (Forall is_int16 samples ->
        decode_samples (drop (length (out f)) (out f')) = samples).
Proof.
  intros HR Hch Hb Hp H0 Hr.
  destruct (render_loop_out (turns frames) f buf pac frames o m HR Hch Hb Hp H0
              (need_turns frames H0) Hr) as (f' & m' & E & Eo & Er & El).
  exists f', m', (rendered_samples (turns frames) buf frames (channels o) (world m)).
  split; [exact E|]. split; [reflexivity|]. split; [exact El|].
  split; [exact Eo|]. split; [exact Er|].
  intros Hint. rewrite Eo, drop_app_length. now apply decode_encode_samples.
Qed.

(** The file of a run with room: for 1 or 2 channels and a whole sample
    rate, on a fresh stream whose file has room for the header and the
    payload, the header followed by the render loop and [fclose] leaves a
    file of 44 + frames * channels * 2 bytes that starts with the header and
    whose payload-length field is the payload's length reduced modulo
    2^32. *)
Theorem wav_file_well_formed r c buf pac frames (o : Nsf2WavOptions) n m :
  (forall b n w, length (fst (Render b n w)) = length b) ->
  channels o = 1 \/ channels o = 2 ->
  samplerate o = inject_Z n -> 0 <= n < 2 ^ 30 ->
  Z.of_nat (length buf) = kFramesToBuffer * channels o ->
  Z.of_nat (length pac) = kFramesToBuffer * channels o * 2 ->
  0 <= frames ->
  44 + frames * channels o * 2 <= r ->
  exists f1 f' m',
    write_wav_header (fresh r c) frames o = Some (1, f1)
    /\ render_loop (turns frames) f1 buf pac frames o m = Next f' m'
    /\ out (fclose f') = out f'
    /\ Z.of_nat (length (out f')) = 44 + frames * channels o * 2
    /\ take 44 (out f') = out f1
    /\ data_size_field (out f') = Some ((frames * channels o * 2) mod 2 ^ 32).
Proof.
  intros HR Hch Hs Hn Hb Hp H0 Hr.
  destruct (whole_rate_fields o n Hch Hs Hn) as [E1 E2].
  destruct (header_written_bytes (fresh r c) frames o n
              (n * channels o * 2) ltac:(cbn [room fresh]; lia) E1 E2)
    as (f1 & Eh & Eo1 & Er1 & _).
  cbn [out room app fresh] in Eo1, Er1.
  set (hdr := wav_header frames o n (n * channels o * 2)) in *.
  pose proof (wav_header_length frames o n (n * channels o * 2)) as Hl1. fold hdr in Hl1.
  destruct (render_loop_out (turns frames) f1
              buf pac frames o m HR Hch Hb Hp H0
              (need_turns frames H0) ltac:(lia))
    as (f' & m' & E & Eo & Er & El).
  rewrite Eo1 in Eo.
  exists f1, f', m'.
  split; [exact Eh|]. split; [exact E|].
  split; [|split; [|split]].
  - unfold fclose. destruct (Z.leb_spec 0 (room f')); [reflexivity|lia].
  - rewrite Eo, length_app, encode_samples_length, Hl1. lia.
  - rewrite Eo, Eo1. now apply take_app_length'.
  - rewrite Eo. unfold data_size_field.
    rewrite drop_app_le by (rewrite Hl1; lia).
    rewrite take_app_le by (rewrite length_drop, Hl1; lia).
    exact (wav_header_data_size frames o n (n * channels o * 2)).
Qed.

End Payload.

(** ** A detected loop *)

(** the skip phase on the simulated engine: the frames skipped reach [K]
    chunk by chunk, and the phase stops there *)
Lemma sim_skip_reaches file d K T fuel : forall frames q (m : @Machine (sim_xgm file d K T)),
  0 <= q -> skipped (priv (world m)) + 4096 * q = K -> 4096 * q <= frames ->
  (need frames <= fuel)%nat ->
  exists m', @skip_loop (sim_xgm file d K T) fuel frames m = Next (frames - 4096 * q) m'
    /\ nsf (world m') = nsf (world m) /\ config (world m') = config (world m)
    /\ skipped (priv (world m')) = K
    /\ rendered (priv (world m')) = rendered (priv (world m))
    /\ exists t, trace m' = trace m ++ t /\ Forall (fun e => exists c, e = Player (CSkip c)) t.
Proof.
  induction fuel as [|fuel IH]; intros frames q m Hq Hs Hle Hn.
  - unfold need in Hn. lia.
  - rewrite skip_loop_S. cbn [IsFading sim_xgm].
    change (@Priv (sim_xgm file d K T)) with SimPlayer in *.
    destruct (Z.eq_dec q 0) as [->|Hq0].
    + match goal with |- context [K <=? ?x] => destruct (Z.leb_spec K x) end; [|lia].
      rewrite orb_true_r. exists m. rewrite Z.sub_0_r.
      repeat split; try reflexivity; [lia|].
      exists []. split; [now rewrite app_nil_r|constructor].
    + destruct (Z.eqb_spec frames 0); [lia|].
      match goal with |- context [K <=? ?x] => destruct (Z.leb_spec K x) end; [lia|].
      cbn [orb].
      assert (chunk frames = 4096) as Ec by (unfold chunk, kFramesToBuffer; lia).
      rewrite Ec.
      destruct (need_step frames ltac:(lia)) as [Hst _].
      rewrite Ec in Hst.
      edestruct (IH (frames - 4096) (q - 1)) as (m' & E & E1 & E2 & E3 & E4 & t & Et & Ht);
        [| | | |rewrite E].
      * lia.
      * cbn [world Skip sim_xgm sim_priv priv skipped]. lia.
      * lia.
      * lia.
      * exists m'. split; [f_equal; lia|]. cbn [world Skip sim_xgm sim_priv priv nsf config
                                                 skipped rendered trace] in *.
        repeat split; try assumption.
        exists (Player (CSkip 4096) :: t). rewrite Et, <- app_assoc.
        split; [reflexivity|]. constructor; [eauto|assumption].
Qed.

Ltac run :=
  repeat (rewrite bind_assoc || rewrite bind_ret || rewrite bind_get
          || rewrite bind_update || rewrite bind_emit); cbv beta.

Lemma stop_sec_defined K T n : 1 <= n -> stop_sec K T (inject_Z n) <> None.
Proof.
  intros Hn. unfold stop_sec, Double.div.
  replace (Qeq_bool (inject_Z n) 0) with false; [discriminate|].
  symmetry. apply not_true_is_false. intros Hq. apply Qeq_bool_eq in Hq.
  unfold Qeq in Hq. cbn in Hq. lia.
Qed.

Lemma sim_detect file K T n (o : Nsf2WavOptions) (F : Z)
    (m : @Machine (sim_xgm file true K T)) :
  lengthForce o = false ->
  samplerate o = inject_Z n -> 1 <= n ->
  skipped (priv (world m)) = 0 -> rendered (priv (world m)) = 0 ->
  0 <= K <= F -> K mod 4096 = 0 ->
  0 <= T -> T * n < 2 ^ 53 -> K + T * n / 1000 + 1 < 2 ^ 42 ->
  (trigger o = true -> in_int 32 (time_in_ms (nsf (world m)) + T) = true) ->
  exists m' s, @detect (sim_xgm file true K T) o F m = Next (K + T * n / 1000) m'
    /\ skipped (priv (world m')) = K
    /\ rendered (priv (world m')) = 0
    /\ global (config (world m'))
       = <["STOP_SEC" := s]> (<["LOOP_NUM" := 0]> (<["AUTO_DETECT" := 0]>
           (global (config (world m)))))
    /\ channel (config (world m')) = channel (config (world m))
    /\ time_in_ms (nsf (world m'))
       = (if trigger o then time_in_ms (nsf (world m)) + T else time_in_ms (nsf (world m)))
    /\ fade_in_ms (nsf (world m'))
       = (if trigger o then 0 else fade_in_ms (nsf (world m)))
    /\ last (trace m') = Some (Print stdout (MsgDetected (K + T * n / 1000))).
Proof.
  intros Hf Hs Hn Hs0 Hr0 HK Hmod HT Hb Hr Ht. unfold detect. rewrite Hf. cbn [negb].
  cbv zeta.
  destruct (sim_skip_reaches file true K T (turns F) F (K / 4096) m)
    as (m' & E & E1 & E2 & E3 & E4 & t & Et & Hsk).
  { apply Z.div_pos; lia. }
  { rewrite Hs0. pose proof (Z.div_mod K 4096 ltac:(lia)). lia. }
  { pose proof (Z.div_mod K 4096 ltac:(lia)). lia. }
  { apply need_turns. lia. }
  rewrite (bind_next _ _ _ _ _ E).
  rewrite bind_get.
  rewrite Hr0 in E4.
  assert (@playtime_detected (sim_xgm file true K T) (world m') = true) as ->.
  { pose proof E3 as E3s. change (@Priv (sim_xgm file true K T)) with SimPlayer in E3s.
    cbn [playtime_detected sim_xgm]. rewrite E3s, Z.leb_refl. reflexivity. }
  unfold configure, print. run.
  cbn [total_render GetFadeTime sim_xgm world with_config priv].
  rewrite E3, E4, Z.add_0_r, Hs.
  rewrite (detected_frames_whole_rate K T n) by (assumption || lia).
  cbn [defined]. run.
  pose proof (stop_sec_defined K T n Hn) as Hstop.
  destruct (stop_sec K T (inject_Z n)) as [s|] eqn:Es; [|congruence].
  destruct (trigger o) eqn:Etr.
  - run. cbn [world with_config nsf GetFadeTime sim_xgm]. rewrite E1.
    unfold iadd. rewrite (Ht eq_refl). cbn [defined]. run.
    cbn [total_render GetFadeTime sim_xgm world with_config with_nsf priv].
    rewrite E3, E4, Z.add_0_r, Es. cbn [defined]. run.
    eexists _, s. split; [reflexivity|].
    cbn [world trace config nsf priv with_config with_nsf global channel
         set_global time_in_ms fade_in_ms].
    rewrite E2. repeat split; try assumption; try reflexivity. apply last_snoc.
  - run.
    cbn [total_render GetFadeTime sim_xgm world with_config with_nsf priv].
    rewrite E3, E4, Z.add_0_r, Es. cbn [defined]. run.
    eexists _, s. split; [reflexivity|].
    cbn [world trace config nsf priv with_config with_nsf global channel
         set_global time_in_ms fade_in_ms].
    rewrite E1, E2. repeat split; try assumption; try reflexivity. apply last_snoc.
Qed.



(** What a detected loop leaves behind, under the conditions of the
    scenario: a fresh simulated engine that fades once [K] frames were
    skipped and then reports the loop as detected, with a fade time of [T]
    ms; [K] a multiple of 4096 and no more than the naive candidate [F]; no
    forced length; a whole sample rate [n] of 1 or more, with [T * n] below
    2^53 and the count below 2^42; and, with trigger output, a sum of the
    track's time and [T] that fits an [int].  Besides the frame count,
    automatic detection and the loop count are switched off and a stop time
    is set in the configuration; with trigger output the fade time is added
    to the time of the NSF object and its fade is set to 0, and without it
    the two are left alone; and the detected count is the last thing
    printed. *)
Theorem detection_side_effects file K T n (o : Nsf2WavOptions) (F : Z)
    (m : @Machine (sim_xgm file true K T)) :
  lengthForce o = false ->
  samplerate o = inject_Z n -> 1 <= n ->
  skipped (priv (world m)) = 0 -> rendered (priv (world m)) = 0 ->
  0 <= K <= F -> K mod 4096 = 0 ->
  0 <= T -> T * n < 2 ^ 53 -> K + T * n / 1000 + 1 < 2 ^ 42 ->
  (trigger o = true -> in_int 32 (time_in_ms (nsf (world m)) + T) = true) ->
  exists m' s, @detect (sim_xgm file true K T) o F m = Next (K + T * n / 1000) m'
    /\ global (config (world m'))
       = <["STOP_SEC" := s]> (<["LOOP_NUM" := 0]> (<["AUTO_DETECT" := 0]>
           (global (config (world m)))))
    /\ channel (config (world m')) = channel (config (world m))
    /\ time_in_ms (nsf (world m'))
       = (if trigger o then time_in_ms (nsf (world m)) + T else time_in_ms (nsf (world m)))
    /\ fade_in_ms (nsf (world m'))
       = (if trigger o then 0 else fade_in_ms (nsf (world m)))
    /\ last (trace m') = Some (Print stdout (MsgDetected (K + T * n / 1000))).
Proof.
  intros Hf Hs Hn Hs0 Hr0 HK Hmod HT Hb Hr Ht.
  destruct (sim_detect file K T n o F m Hf Hs Hn Hs0 Hr0 HK Hmod HT Hb Hr Ht)
    as (m' & s & E & _ & _ & H).
  exists m', s. split; [exact E|exact H].
Qed.

(** * The further properties on concrete inputs *)

Lemma sim_Render_length file d K T (b : list Z) n (w : World (@Priv (sim_xgm file d K T))) :
  length (fst (@Render (sim_xgm file d K T) b n w)) = length b.
Proof. cbn [Render sim_xgm fst]. apply length_imap. Qed.

Lemma not_elem_of_3 (d a b c : directive) :
  d <> a -> d <> b -> d <> c -> d ∉ [a; b; c].
Proof.
  intros Ha Hb Hc Hin. repeat (apply elem_of_cons in Hin as [Hin|Hin]; [congruence|]).
  now apply elem_of_nil in Hin.
Qed.

Lemma help_exits_first_witness :
  @main demo_xgm (fun _ => None) ([opt_q] ++ opt_h :: [opt_unknown]) []
  = Halt EXIT_SUCCESS [Print stdout MsgUsage].
Proof.
  apply (@help_exits_first demo_xgm (fun _ => None) [opt_q] [opt_unknown] []
           (set_quiet true default_options) start).
  reflexivity.
Defined.

Lemma unknown_option_exits_witness :
  @main demo_xgm (fun _ => None) ([opt_q] ++ opt_unknown :: [opt_h]) ["a.nsf"]
  = Halt EX_USAGE [Print stderr MsgUsage].
Proof.
  apply (@unknown_option_exits demo_xgm (fun _ => None) [opt_q] [opt_h] ["a.nsf"]
           (set_quiet true default_options) start).
  reflexivity.
Defined.

Lemma wrong_argument_count_witness :
  @main demo_xgm (fun _ => None) [opt_l 1000] ["a.nsf"; "o.wav"; "p.wav"]
  = Halt EX_USAGE [Nsf (CSetDefaults 1000 5000 2); Print stderr MsgUsage].
Proof.
  apply (@wrong_argument_count demo_xgm (fun _ => None) [opt_l 1000]
           ["a.nsf"; "o.wav"; "p.wav"] (set_length_ms 1000 default_options)).
  - reflexivity.
  - right. cbn [length]. lia.
Defined.

Lemma negative_channels_abort_witness :
  @main demo_xgm (fun _ => None) [opt_c (-1)] ["a.nsf"; "o.wav"]
  = Abort [Nsf (CSetDefaults 300000 5000 2)].
Proof.
  apply (@negative_channels_abort demo_xgm (fun _ => None) [opt_c (-1)] "a.nsf" ["o.wav"]
           (set_channels (-1) default_options)).
  - reflexivity.
  - cbn [channels set_channels]. lia.
  - cbn [length]. lia.
Defined.

Lemma load_failure_exit_witness :
  @main (sim_xgm None true 0 0) (fun _ => None) [] ["a.nsf"; "o.wav"]
  = Halt 1 [Nsf (CSetDefaults 300000 5000 2); Nsf (CLoadFile "a.nsf");
            Print stderr (MsgLoadError "no such file")].
Proof.
  apply (@load_failure_exit (sim_xgm None true 0 0) (fun _ => None) [] "a.nsf" ["o.wav"]
           default_options
           (@SetDefaults (sim_xgm None true 0 0) 300000 5000 2 (@boot (sim_xgm None true 0 0)))).
  - reflexivity.
  - cbn [channels default_options]. lia.
  - cbn [length]. lia.
  - reflexivity.
Defined.

Lemma info_quiet_exit_witness :
  @main demo_xgm (fun _ => None) [opt_q] ["a.nsf"]
  = Halt EXIT_SUCCESS [Nsf (CSetDefaults 300000 5000 2); Nsf (CLoadFile "a.nsf")].
Proof.
  apply (@info_quiet_exit demo_xgm (fun _ => None) [opt_q] "a.nsf"
           (set_quiet true default_options)
           (with_nsf (fun _ => demo_nsf)
              (@SetDefaults demo_xgm 300000 5000 2 (@boot demo_xgm)))).
  - reflexivity.
  - cbn [channels set_quiet default_options]. lia.
  - reflexivity.
  - reflexivity.
Defined.

Lemma list_tracks_playlist_witness :
  list_tracks 3 0 plst_start
  = Next tt {| world := world plst_start;
               trace := trace plst_start
                 ++ imap (fun j e => track_line (nsf (world plst_start)) (0 + Z.of_nat j) e)
                         (take 3 (drop (Z.to_nat 0) [2; 0; 1])) |}.
Proof.
  apply (@list_tracks_playlist demo_xgm 3 0 plst_start [2; 0; 1]).
  - reflexivity.
  - lia.
  - cbn [length]. lia.
Defined.

Lemma list_tracks_overrun_witness : list_tracks 4 0 plst_start = Undefined.
Proof.
  apply (@list_tracks_overrun demo_xgm 4 0 plst_start [2; 0; 1]).
  - reflexivity.
  - cbn [length]. lia.
  - cbn [length]. lia.
Defined.

Lemma info_mode_events_witness :
  forallb is_info_event
    [Nsf (CSetDefaults 300000 5000 2); Nsf (CLoadFile "a.nsf");
     Print stdout (MsgTitle "demo"); Print stdout (MsgArtist "");
     Print stdout (MsgCopyright ""); Print stdout (MsgRipper "");
     Print stdout (MsgTrack 1 "")] = true.
Proof.
  apply (@info_mode_events demo_xgm (fun _ => None) [] "a.nsf" EXIT_SUCCESS).
  apply outcome_Halt. vm_compute. reflexivity.
Defined.

Lemma info_track_list_witness :
  @main demo_xgm (fun _ => None) [] ["a.nsf"]
  = Halt EXIT_SUCCESS
      ([Nsf (CSetDefaults 300000 5000 2); Nsf (CLoadFile "a.nsf");
        Print stdout (MsgTitle "demo"); Print stdout (MsgArtist "");
        Print stdout (MsgCopyright ""); Print stdout (MsgRipper "")]
       ++ map (fun j => track_line demo_nsf j (wrap 8 j)) (seqZ 0 1)).
Proof.
  apply (@info_track_list demo_xgm (fun _ => None) [] "a.nsf" default_options
           (with_nsf (fun _ => demo_nsf)
              (@SetDefaults demo_xgm 300000 5000 2 (@boot demo_xgm)))).
  - reflexivity.
  - cbn [channels default_options]. lia.
  - reflexivity.
  - reflexivity.
  - reflexivity.
  - reflexivity.
Defined.

Lemma info_playlist_entry_witness :
  @main playlist_xgm (fun _ => None) [] ["a.m3u"]
  = Halt EXIT_SUCCESS
      [Nsf (CSetDefaults 300000 5000 2); Nsf (CLoadFile "a.m3u");
       Print stdout (MsgTitle "demo"); Print stdout (MsgArtist "");
       Print stdout (MsgCopyright ""); Print stdout (MsgRipper "");
       Print stdout (MsgTrack (0 + 1) "demo")].
Proof.
  apply (@info_playlist_entry playlist_xgm (fun _ => None) [] "a.m3u" default_options
           (with_nsf (fun _ => playlist_nsf)
              (@SetDefaults playlist_xgm 300000 5000 2 (@boot playlist_xgm)))).
  - reflexivity.
  - cbn [channels default_options]. lia.
  - reflexivity.
  - reflexivity.
  - reflexivity.
  - cbn. lia.
  - cbn. lia.
Defined.

Lemma volume_table_bits_witness :
  exists c', set_volumes 32 0 5 empty_config = Some c'
    /\ channel c' !! (2, "VOL")
       = Some (if (if 2 <? 31 then Z.testbit 5 2 else 2 ^ 31 <=? 5) then 0 else 128).
Proof. apply (volume_table_bits 5 empty_config 2); lia. Defined.

Lemma mask_select_bits_witness :
  exists o', @parse_loop demo_xgm (map opt_m [0; 2]) default_options start = Next o' start
    /\ mute o' = mute default_options
    /\ forall i, 0 <= i ->
         Z.testbit (mask o') i = Z.testbit (mask default_options) i || bool_decide (i ∈ [0; 2]).
Proof.
  apply (@mask_select_bits demo_xgm [0; 2] default_options start).
  - repeat constructor; lia.
  - cbn [mask default_options]. lia.
Defined.

Lemma mute_selected_channels_witness :
  exists o' c',
    @parse_loop demo_xgm (map opt_m [0; 2] ++ [opt_u]) default_options start = Next o' start
    /\ mask o' = 0
    /\ set_volumes 32 0 (mute o') empty_config = Some c'
    /\ forall i, 0 <= i < 32 ->
         channel c' !! (i, "VOL") = Some (if bool_decide (i ∈ [0; 2]) then 0 else 128).
Proof.
  apply (@mute_selected_channels demo_xgm [0; 2] default_options start empty_config).
  - repeat constructor; lia.
  - reflexivity.
Defined.

Lemma solo_selected_channels_witness :
  exists o' c',
    @parse_loop demo_xgm (map opt_m [0; 2] ++ [opt_r; opt_u]) default_options start
      = Next o' start
    /\ mask o' = 0
    /\ set_volumes 32 0 (mute o') empty_config = Some c'
    /\ forall i, 0 <= i < 32 ->
         channel c' !! (i, "VOL") = Some (if bool_decide (i ∈ [0; 2]) then 128 else 0).
Proof.
  apply (@solo_selected_channels demo_xgm [0; 2] default_options start empty_config).
  - repeat constructor; lia.
  - reflexivity.
Defined.

Lemma wav_header_fields_witness :
  exists f', write_wav_header (fresh 44 4096) 66150 cd_options = Some (1, f')
    /\ out f' = out (fresh 44 4096)
                  ++ tag_RIFF
                  ++ bytes4 (((66150 * channels cd_options * 2) mod 2 ^ 32 + 36) mod 2 ^ 32)
                  ++ tag_WAVE ++ tag_fmt ++ bytes4 16 ++ bytes2 1
                  ++ bytes2 (channels cd_options)
                  ++ bytes4 44100 ++ bytes4 (44100 * channels cd_options * 2)
                  ++ bytes2 (channels cd_options * 2) ++ bytes2 16
                  ++ tag_data
                  ++ bytes4 ((66150 * channels cd_options * 2) mod 2 ^ 32)
    /\ room f' = room (fresh 44 4096) - 44
    /\ cap f' = cap (fresh 44 4096).
Proof.
  apply (wav_header_fields (fresh 44 4096) 66150 cd_options 44100).
  - cbn [room fresh]. lia.
  - right. reflexivity.
  - reflexivity.
  - lia.
Defined.

Lemma header_short_witness :
  (held (fresh 10 4096) + 44 <= cap (fresh 10 4096) ->
   exists f', write_wav_header (fresh 10 4096) 66150 cd_options = Some (1, f')
     /\ out f' = out (fresh 10 4096) ++ wav_header 66150 cd_options 44100 176400
     /\ room f' = room (fresh 10 4096) - 44
     /\ held f' = held (fresh 10 4096) + 44)
  /\ (cap (plain 10) = 0 -> held (plain 10) = 0 -> 0 <= room (plain 10) < 44 ->
      exists f', write_wav_header (plain 10) 66150 cd_options = Some (0, f')
        /\ room f' = 0
        /\ Z.of_nat (length (out f')) = Z.of_nat (length (out (plain 10))) + room (plain 10))
  /\ (forall f', write_wav_header (plain 10) 66150 cd_options = Some (0, f') ->
        Z.of_nat (length (out f')) < Z.of_nat (length (out (plain 10))) + 44).
Proof.
  split; [|split].
  - apply (header_short (fresh 10 4096) 66150 cd_options 44100 176400);
      vm_compute; reflexivity.
  - apply (header_short (plain 10) 66150 cd_options 44100 176400);
      vm_compute; reflexivity.
  - apply (header_short (plain 10) 66150 cd_options 44100 176400);
      vm_compute; reflexivity.
Defined.


Lemma skip_loop_accounts_witness :
  exists f' m' ns, @skip_loop demo_xgm (turns 5000) 5000 start = Next f' m'
    /\ trace m' = trace (@start demo_xgm) ++ map (fun n => Player (CSkip n)) ns
    /\ Forall (fun n => 0 < n <= kFramesToBuffer) ns
    /\ total ns + f' = 5000
    /\ (f' = 0 \/ IsFading (world m') = true).
Proof. apply (@skip_loop_accounts demo_xgm 5000 start). lia. Defined.

Lemma render_loop_reports_nothing_witness :
  (forall code t,
     @render_loop demo_xgm (turns 100) (plain 0)
       (replicate (Z.to_nat 4096) 0) (replicate (Z.to_nat 8192) 0) 100 default_options start <> Halt code t)
  /\ (forall t,
        @render_loop demo_xgm (turns 100) (plain 0)
          (replicate (Z.to_nat 4096) 0) (replicate (Z.to_nat 8192) 0) 100 default_options start <> Abort t)
  /\ (forall f' m',
        @render_loop demo_xgm (turns 100) (plain 0)
          (replicate (Z.to_nat 4096) 0) (replicate (Z.to_nat 8192) 0) 100 default_options start = Next f' m' ->
        exists t, trace m' = trace (@start demo_xgm) ++ t
          /\ forallb is_render_event t = true
          /\ Forall (fun n => 0 < n <= kFramesToBuffer) (render_requests t)
          /\ total (render_requests t) = 100).
Proof.
  apply (@render_loop_reports_nothing demo_xgm (plain 0)
           (replicate (Z.to_nat 4096) 0) (replicate (Z.to_nat 8192) 0) 100 default_options start).
  lia.
Defined.

Lemma render_loop_payload_witness :
  exists f' m' samples,
    @render_loop demo_xgm (turns 5000) (fresh 10000 4096)
      (replicate (Z.to_nat 4096) 0) (replicate (Z.to_nat 8192) 0) 5000
      default_options start = Next f' m'
    /\ samples = rendered_samples (turns 5000) (replicate (Z.to_nat 4096) 0) 5000
                   (channels default_options) (world (@start demo_xgm))
    /\ Z.of_nat (length samples) = 5000 * channels default_options
    /\ out f' = out (fresh 10000 4096) ++ encode_samples samples
    /\ room f' = room (fresh 10000 4096) - 5000 * channels default_options * 2
    /\ (Forall is_int16 samples ->
        decode_samples (drop (length (out (fresh 10000 4096))) (out f'))
        = samples).
Proof.
  apply (@render_loop_payload demo_xgm (fresh 10000 4096)
           (replicate (Z.to_nat 4096) 0) (replicate (Z.to_nat 8192) 0) 5000
           default_options start).
  - intros b n w. apply sim_Render_length.
  - left. reflexivity.
  - rewrite length_replicate. reflexivity.
  - rewrite length_replicate. reflexivity.
  - lia.
  - cbn [room fresh channels default_options]. lia.
Defined.

Lemma wav_file_well_formed_witness :
  exists f1 f' m',
    write_wav_header (fresh 20044 4096) 5000 cd_options = Some (1, f1)
    /\ @render_loop demo_xgm (turns 5000) f1
         (replicate (Z.to_nat 8192) 0) (replicate (Z.to_nat 16384) 0) 5000
         cd_options start = Next f' m'
    /\ out (fclose f') = out f'
    /\ Z.of_nat (length (out f')) = 44 + 5000 * channels cd_options * 2
    /\ take 44 (out f') = out f1
    /\ data_size_field (out f') = Some ((5000 * channels cd_options * 2) mod 2 ^ 32).
Proof.
  apply (@wav_file_well_formed demo_xgm 20044 4096
           (replicate (Z.to_nat 8192) 0) (replicate (Z.to_nat 16384) 0) 5000
           cd_options 44100 start).
  - intros b n w. apply sim_Render_length.
  - right. reflexivity.
  - reflexivity.
  - lia.
  - rewrite length_replicate. reflexivity.
  - rewrite length_replicate. reflexivity.
  - lia.
  - cbn [channels cd_options]. lia.
Defined.

Lemma detection_side_effects_witness :
  exists m' s,
    @detect (sim_xgm (Some demo_nsf) true 8192 2000) detect_options 14640000 start
      = Next (8192 + 2000 * 48000 / 1000) m'
    /\ global (config (world m'))
       = <["STOP_SEC" := s]> (<["LOOP_NUM" := 0]> (<["AUTO_DETECT" := 0]>
           (global (config (world (@start (sim_xgm (Some demo_nsf) true 8192 2000)))))))
    /\ channel (config (world m'))
       = channel (config (world (@start (sim_xgm (Some demo_nsf) true 8192 2000))))
    /\ time_in_ms (nsf (world m'))
       = (if trigger detect_options
          then time_in_ms (nsf (world (@start (sim_xgm (Some demo_nsf) true 8192 2000)))) + 2000
          else time_in_ms (nsf (world (@start (sim_xgm (Some demo_nsf) true 8192 2000)))))
    /\ fade_in_ms (nsf (world m'))
       = (if trigger detect_options then 0
          else fade_in_ms (nsf (world (@start (sim_xgm (Some demo_nsf) true 8192 2000)))))
    /\ last (trace m') = Some (Print stdout (MsgDetected (8192 + 2000 * 48000 / 1000))).
Proof.
  apply (detection_side_effects (Some demo_nsf) 8192 2000 48000 detect_options 14640000 start);
    try reflexivity; try lia.
Defined.

Lemma zero_channels_undefined_witness :
  @render_loop demo_xgm 1 (fresh 100 4096) [] [] 1
    (set_channels 0 default_options) start = Undefined.
Proof.
  apply (@zero_channels_undefined demo_xgm 0 (fresh 100 4096) [] 1
           (set_channels 0 default_options) start).
  - intros b n w. apply sim_Render_length.
  - reflexivity.
  - lia.
Defined.

Lemma detect_keeps_candidate_witness :
  exists m', @detect (sim_xgm (Some demo_nsf) false 10000 2000) default_options 14640000 start
             = Next 14640000 m'.
Proof.
  apply (@detect_keeps_candidate (sim_xgm (Some demo_nsf) false 10000 2000)
           default_options 14640000 start).
  - reflexivity.
  - intros w. reflexivity.
  - reflexivity.
Defined.

Lemma pack_uint32le_round_trip_witness :
  (is_Some (pack_uint32le (replicate 6 0) 1 305419896)
     <-> 0 <= 1 /\ 1 + 4 <= Z.of_nat (length (replicate 6 0 : list Z)))
  /\ forall d', pack_uint32le (replicate 6 0) 1 305419896 = Some d' ->
       d' = take (Z.to_nat 1) (replicate 6 0) ++ bytes4 305419896
            ++ drop (Z.to_nat 1 + 4) (replicate 6 0)
       /\ unpack_uint32le (take 4 (drop (Z.to_nat 1) d')) = Some 305419896.
Proof. apply (pack_uint32le_round_trip (replicate 6 0) 1 305419896). lia. Defined.

Lemma unopened_sink_fails_witness :
  1 <> 0
  /\ forallb is_setup_event
       [Nsf (CSetDefaults 300000 5000 2); Nsf (CLoadFile "a.nsf");
        Player CSetConfig; Player CLoad; Player (CSetPlayFreq 1000);
        Player (CSetChannels 1); Player (CSetSong 0);
        Player CReset; Player (CNotify (-1)); Player CSetConfig;
        Player CReset; Open "o.wav" false;
        Print stderr (MsgOpenError "o.wav")] = true.
Proof.
  apply (@unopened_sink_fails demo_xgm (fun _ => None) [opt_y; opt_s 1000; opt_q]
           "a.nsf" "o.wav" 1).
  - apply not_elem_of_3; discriminate.
  - reflexivity.
  - apply outcome_Halt. vm_compute. reflexivity.
Defined.

Lemma player_load_failure_witness :
  1 <> 0
  /\ forallb is_load_event
       [Nsf (CSetDefaults 300000 5000 2); Nsf (CLoadFile "a.nsf");
        Print stdout (MsgTrack 1 "demo");
        Print stdout (MsgLength 100); Print stdout (MsgFade 0);
        Player CSetConfig; Player CLoad; Print stderr MsgPlayerLoad] = true.
Proof.
  apply (@player_load_failure (deaf_xgm demo_xgm) (fun _ => Some (1000, 4096))
           [opt_y; opt_s 1000; opt_w] "a.nsf" "o.wav" 1).
  - apply not_elem_of_3; discriminate.
  - intros w. reflexivity.
  - apply outcome_Halt. vm_compute. reflexivity.
Defined.
